(** * hanzo.httptools.messaging: stream parsers for HTTP requests and responses

    A shallow embedding of [src/hanzo/httptools/messaging.py] (Python 2).
    Python byte strings are lists of 8-bit characters, Python integers are
    [Z], objects are records that are passed through every call that mutates
    them, and exceptions are carried by a small result monad.  Every
    definition is named after the class and method it embeds. *)

From Stdlib Require Import Ascii String List ZArith Bool Lia Arith.
Import ListNotations.

Open Scope Z_scope.

(** ** Python byte strings *)

Definition str := list ascii.

(** A literal: [b "abc"] is the Python string ['abc']. *)
Definition b (s : string) : str := list_ascii_of_string s.

Definition CR : ascii := ascii_of_nat 13.
Definition LF : ascii := ascii_of_nat 10.
Definition TAB : ascii := ascii_of_nat 9.
Definition SP : ascii := ascii_of_nat 32.
Definition NUL : ascii := ascii_of_nat 0.

(** [CRLF = '\r\n'] *)
Definition CRLF : str := [CR; LF].

(** [x == y] on strings. *)
Fixpoint str_eqb (x y : str) : bool :=
  match x, y with
  | [], [] => true
  | c :: x', d :: y' => Ascii.eqb c d && str_eqb x' y'
  | _, _ => false
  end.

(** [s.startswith(pre)] *)
Fixpoint startswith (s pre : str) : bool :=
  match pre, s with
  | [], _ => true
  | c :: pre', d :: s' => Ascii.eqb c d && startswith s' pre'
  | _ :: _, [] => false
  end.

(** Position of the first occurrence of [sub] in [s], if any. *)
Fixpoint index_of (s sub : str) : option nat :=
  if startswith s sub then Some 0%nat
  else match s with
       | [] => None
       | _ :: s' => option_map S (index_of s' sub)
       end.

(** [s.find(sub)]: the lowest index of [sub] in [s], or [-1]. *)
Definition find (s sub : str) : Z :=
  match index_of s sub with
  | Some n => Z.of_nat n
  | None => -1
  end.

(** [sub in s] *)
Definition contains (sub s : str) : bool :=
  match index_of s sub with Some _ => true | None => false end.

(** [s[:n]] and [s[n:]], with Python's reading of a negative bound. *)
Definition slice_to (s : str) (n : Z) : str :=
  if n <? 0 then firstn (Z.to_nat (Z.of_nat (length s) + n)) s
  else firstn (Z.to_nat n) s.

Definition slice_from (s : str) (n : Z) : str :=
  if n <? 0 then skipn (Z.to_nat (Z.of_nat (length s) + n)) s
  else skipn (Z.to_nat n) s.

(** [len(s)] *)
Definition len (s : str) : Z := Z.of_nat (length s).

Definition is_upper (c : ascii) : bool :=
  let n := nat_of_ascii c in (65 <=? n)%nat && (n <=? 90)%nat.

(** [s.lower()] (ASCII letters). *)
Definition lower (s : str) : str :=
  map (fun c => if is_upper c then ascii_of_nat (nat_of_ascii c + 32) else c) s.

(** The characters removed by [strip]: space, \t, \n, \v, \f, \r. *)
Definition isspace (c : ascii) : bool :=
  let n := nat_of_ascii c in
  (n =? 32)%nat || ((9 <=? n)%nat && (n <=? 13)%nat).

Fixpoint lstrip (s : str) : str :=
  match s with
  | c :: s' => if isspace c then lstrip s' else s
  | [] => []
  end.

Definition rstrip (s : str) : str := rev (lstrip (rev s)).

Definition strip (s : str) : str := rstrip (lstrip s).

(** Cut [s] at the first occurrence of the character [sep]. *)
Fixpoint partition (sep : ascii) (s : str) : option (str * str) :=
  match s with
  | [] => None
  | c :: s' =>
      if Ascii.eqb c sep then Some ([], s')
      else match partition sep s' with
           | Some (x, y) => Some (c :: x, y)
           | None => None
           end
  end.

(** [s.split(sep, maxsplit)] for a one-character separator. *)
Fixpoint split (sep : ascii) (maxsplit : nat) (s : str) : list str :=
  match maxsplit with
  | O => [s]
  | S m =>
      match partition sep s with
      | Some (x, rest) => x :: split sep m rest
      | None => [s]
      end
  end.

(** Value of a digit character in bases up to 36. *)
Definition digit_value (c : ascii) : option Z :=
  let n := nat_of_ascii c in
  if (48 <=? n)%nat && (n <=? 57)%nat then Some (Z.of_nat n - 48)
  else if (97 <=? n)%nat && (n <=? 122)%nat then Some (Z.of_nat n - 87)
  else if (65 <=? n)%nat && (n <=? 90)%nat then Some (Z.of_nat n - 55)
  else None.

Fixpoint digits (base acc : Z) (s : str) : option Z :=
  match s with
  | [] => Some acc
  | c :: s' =>
      match digit_value c with
      | Some d => if d <? base then digits base (acc * base + d) s' else None
      | None => None
      end
  end.

(** The builtin [int(s, base)] of Python 2 on a string: surrounding
    whitespace is dropped, one sign is allowed and whitespace may follow it
    ([PyOS_strtol] takes the sign and [PyOS_strtoul] skips whitespace once
    more), base 16 allows a [0x] prefix, and at least one digit must follow;
    [None] stands for the [ValueError] it raises. *)
Definition int (s : str) (base : Z) : option Z :=
  let s := strip s in
  let '(neg, s) :=
    match s with
    | c :: r => if Ascii.eqb c "-" then (true, lstrip r)
                else if Ascii.eqb c "+" then (false, lstrip r)
                else (false, s)
    | [] => (false, s)
    end in
  let s :=
    match s with
    | z :: x :: d :: r =>
        if (base =? 16) && Ascii.eqb z "0"
           && (Ascii.eqb x "x" || Ascii.eqb x "X")
           && (match digit_value d with Some v => v <? 16 | None => false end)
        then d :: r else s
    | _ => s
    end in
  match s with
  | [] => None
  | _ => option_map (fun v => if neg : bool then - v else v) (digits base 0 s)
  end.

(** ** Exceptions *)

(** The exceptions the module can raise, and divergence of a loop. *)
Inductive exn := ValueError | IndexError.

Inductive result (A : Type) : Type :=
| Return (a : A)
| Raise (e : exn)
| Diverge.

Arguments Return {A} a.
Arguments Raise {A} e.
Arguments Diverge {A}.

Definition bind {A B : Type} (m : result A) (k : A -> result B) : result B :=
  match m with
  | Return a => k a
  | Raise e => Raise e
  | Diverge => Diverge
  end.

Notation "x <- m ;; k" := (bind m (fun x => k))
  (at level 61, m at next level, right associativity).
Notation "' p <- m ;; k" := (bind m (fun x => let p := x in k))
  (at level 61, p pattern, m at next level, right associativity).

(** ** The buffer: a [StringIO.StringIO] object *)

Record StringIO := { buf : str; pos : nat }.

Definition StringIO_new : StringIO := {| buf := []; pos := 0 |}.

Definition tell (f : StringIO) : nat := pos f.

Definition seek (f : StringIO) (p : nat) : StringIO :=
  {| buf := buf f; pos := p |}.

(** [write] stores [s] at the current position: it overwrites what is
    there, extends the contents past their end, and pads with NUL bytes when
    the position is beyond the end.  Writing the empty string does nothing. *)
Definition write (f : StringIO) (s : str) : StringIO :=
  match s with
  | [] => f
  | _ =>
      let padded := buf f ++ repeat NUL (pos f - length (buf f)) in
      {| buf := firstn (pos f) padded ++ s ++ skipn (pos f + length s) padded;
         pos := pos f + length s |}
  end.

(** [readline] returns the bytes from the position up to and including the
    next ['\n'] (or up to the end), and moves the position behind them. *)
Definition readline (f : StringIO) : str * StringIO :=
  let newpos :=
    match index_of (skipn (pos f) (buf f)) [LF] with
    | Some i => (pos f + i + 1)%nat
    | None => length (buf f)
    end in
  (firstn (newpos - pos f) (skipn (pos f) (buf f)),
   {| buf := buf f; pos := newpos |}).

(** ** The collaborators of [hanzo.httptools.semantics] *)

(** [Methods.no_body], [Codes.no_body] and [Codes.Continue] are imported from
    a module that is not part of this file; the parsers only test membership
    in the two collections and equality with the constant, so they are taken
    as parameters. *)
Class Semantics := {
  Methods_no_body : str -> bool;
  Codes_no_body : Z -> bool;
  Codes_Continue : Z
}.

(** ** class HTTPHeader *)

(** The three values of [HTTPHeader.mode]: ['close'], ['length'], ['chunked']. *)
Inductive framing := Mclose | Mlength | Mchunked.

Record HTTPHeader := {
  headers : list (str * str);
  keep_alive : bool;
  HTTPHeader_mode : framing;
  content_length : option Z;
  encoding : option str;
  trailers : list (str * str)
}.

Definition HTTPHeader_init : HTTPHeader :=
  {| headers := []; keep_alive := true; HTTPHeader_mode := Mclose;
     content_length := None; encoding := None; trailers := [] |}.

Definition set_headers (h : HTTPHeader) (l : list (str * str)) : HTTPHeader :=
  {| headers := l; keep_alive := keep_alive h;
     HTTPHeader_mode := HTTPHeader_mode h; content_length := content_length h;
     encoding := encoding h; trailers := trailers h |}.

Definition set_trailers (h : HTTPHeader) (l : list (str * str)) : HTTPHeader :=
  {| headers := headers h; keep_alive := keep_alive h;
     HTTPHeader_mode := HTTPHeader_mode h; content_length := content_length h;
     encoding := encoding h; trailers := l |}.

Definition set_keep_alive (h : HTTPHeader) (k : bool) : HTTPHeader :=
  {| headers := headers h; keep_alive := k;
     HTTPHeader_mode := HTTPHeader_mode h; content_length := content_length h;
     encoding := encoding h; trailers := trailers h |}.

Definition set_mode (h : HTTPHeader) (m : framing) : HTTPHeader :=
  {| headers := headers h; keep_alive := keep_alive h;
     HTTPHeader_mode := m; content_length := content_length h;
     encoding := encoding h; trailers := trailers h |}.

Definition set_content_length (h : HTTPHeader) (n : Z) : HTTPHeader :=
  {| headers := headers h; keep_alive := keep_alive h;
     HTTPHeader_mode := HTTPHeader_mode h; content_length := Some n;
     encoding := encoding h; trailers := trailers h |}.

Definition set_encoding (h : HTTPHeader) (v : str) : HTTPHeader :=
  {| headers := headers h; keep_alive := keep_alive h;
     HTTPHeader_mode := HTTPHeader_mode h; content_length := content_length h;
     encoding := Some v; trailers := trailers h |}.

(** [l.pop()]: the last element and the list without it; [IndexError] on
    the empty list. *)
Definition pop {A : Type} (l : list A) : result (A * list A) :=
  match rev l with
  | [] => Raise IndexError
  | x :: r => Return (x, rev r)
  end.

(** A line is a continuation when it starts with a space or a tab. *)
Definition is_continuation (line : str) : bool :=
  startswith line [SP] || startswith line [TAB].

(** The folding branch shared by [add_header] and [add_trailer]:
    [k, v = l.pop(); l.append((k, "%s %s" % (v, line.strip())))]. *)
Definition fold_line (l : list (str * str)) (line : str)
  : result (list (str * str)) :=
  '(kv, rest) <- pop l ;;
  Return (rest ++ [(fst kv, snd kv ++ [SP] ++ strip line)]).

(** [name, value = line.split(':', 1)], then both stripped. *)
Definition parse_field (line : str) : result (str * str) :=
  match split ":"%char 1 line with
  | [name; value] => Return (strip name, strip value)
  | _ => Raise ValueError
  end.

(** [HTTPHeader.add_trailer] *)
Definition HTTPHeader_add_trailer (h : HTTPHeader) (line : str)
  : result HTTPHeader :=
  if is_continuation line then
    l <- fold_line (trailers h) line ;;
    Return (set_trailers h l)
  else if str_eqb line CRLF then
    Return h
  else
    nv <- parse_field line ;;
    Return (set_trailers h (trailers h ++ [nv])).

(** One round of the loop [for name, value in self.headers] that
    [add_header] runs on the blank line. *)
Definition resolve_field (h : HTTPHeader) (nv : str * str)
  : result HTTPHeader :=
  let name := lower (fst nv) in
  let value := lower (snd nv) in
  h <- (if str_eqb name (b "content-length") then
          match HTTPHeader_mode h with
          | Mclose =>
              match int value 10 with
              | Some n => Return (set_mode (set_content_length h n) Mlength)
              | None => Raise ValueError
              end
          | _ => Return h
          end
        else Return h) ;;
  let h := if str_eqb name (b "transfer-encoding") then
             if contains (b "chunked") value then set_mode h Mchunked else h
           else h in
  let h := if str_eqb name (b "content-encoding") then set_encoding h value
           else h in
  let h := if str_eqb name (b "connection") then
             if contains (b "keep-alive") value then set_keep_alive h true
             else if contains (b "close") value then set_keep_alive h false
             else h
           else h in
  Return h.

Fixpoint resolve_fields (h : HTTPHeader) (l : list (str * str))
  : result HTTPHeader :=
  match l with
  | [] => Return h
  | nv :: l' => h' <- resolve_field h nv ;; resolve_fields h' l'
  end.

(** [HTTPHeader.add_header] *)
Definition HTTPHeader_add_header (h : HTTPHeader) (line : str)
  : result HTTPHeader :=
  if is_continuation line then
    l <- fold_line (headers h) line ;;
    Return (set_headers h l)
  else if str_eqb line CRLF then
    h <- resolve_fields h (headers h) ;;
    Return (match HTTPHeader_mode h with
            | Mclose => set_keep_alive h false
            | _ => h
            end)
  else
    nv <- parse_field line ;;
    Return (set_headers h (headers h ++ [nv])).

(** [HTTPHeader.body_is_chunked] *)
Definition HTTPHeader_body_is_chunked (h : HTTPHeader) : bool :=
  match HTTPHeader_mode h with Mchunked => true | _ => false end.

(** [HTTPHeader.body_length]: the content length in mode ['length'], and
    [None] otherwise. *)
Definition HTTPHeader_body_length (h : HTTPHeader) : option Z :=
  match HTTPHeader_mode h with Mlength => content_length h | _ => None end.

(** ** class RequestHeader(HTTPHeader) *)

Record RequestHeader := {
  RequestHeader_base : HTTPHeader;
  method : str;
  target_uri : str;
  RequestHeader_version : str
}.

Definition RequestHeader_init : RequestHeader :=
  {| RequestHeader_base := HTTPHeader_init; method := []; target_uri := [];
     RequestHeader_version := [] |}.

(** [RequestHeader.set_start_line] *)
Definition RequestHeader_set_start_line (h : RequestHeader) (line : str)
  : result RequestHeader :=
  match split SP 2 (rstrip line) with
  | [m; t; v] =>
      Return {| RequestHeader_base :=
                  if str_eqb v (b "HTTP/1.0")
                  then set_keep_alive (RequestHeader_base h) false
                  else RequestHeader_base h;
                method := m; target_uri := t; RequestHeader_version := v |}
  | _ => Raise ValueError
  end.

(** [RequestHeader.has_body] *)
Definition RequestHeader_has_body (h : RequestHeader) : bool :=
  match HTTPHeader_mode (RequestHeader_base h) with
  | Mchunked | Mlength => true
  | Mclose => false
  end.

(** ** class ResponseHeader(HTTPHeader) *)

Record ResponseHeader := {
  ResponseHeader_base : HTTPHeader;
  request : RequestHeader;
  ResponseHeader_version : option str;
  code : option Z;
  phrase : option str
}.

Definition ResponseHeader_init (req : RequestHeader) : ResponseHeader :=
  {| ResponseHeader_base := HTTPHeader_init; request := req;
     ResponseHeader_version := None; code := None; phrase := None |}.

(** [ResponseHeader.set_start_line] *)
Definition ResponseHeader_set_start_line (h : ResponseHeader) (line : str)
  : result ResponseHeader :=
  match split SP 2 (rstrip line) with
  | [v; c; p] =>
      match int c 10 with
      | Some n =>
          Return {| ResponseHeader_base :=
                      if str_eqb v (b "HTTP/1.0")
                      then set_keep_alive (ResponseHeader_base h) false
                      else ResponseHeader_base h;
                    request := request h; ResponseHeader_version := Some v;
                    code := Some n; phrase := Some p |}
      | None => Raise ValueError
      end
  | _ => Raise ValueError
  end.

(** [ResponseHeader.has_body] *)
Definition ResponseHeader_has_body `{Semantics} (h : ResponseHeader) : bool :=
  if Methods_no_body (method (request h)) then false
  else if match code h with Some c => Codes_no_body c | None => false end
  then false
  else match HTTPHeader_mode (ResponseHeader_base h) with
       | Mchunked => true
       | Mlength =>
           match content_length (ResponseHeader_base h) with
           | Some n => 0 <? n
           | None => false
           end
       | Mclose => true
       end.

(** ** The header interface used by the parser *)

(** [HTTPParser] works with any header object: it calls [set_start_line]
    and [has_body], which the two subclasses override, and the methods
    inherited from [HTTPHeader], reached through [base]. *)
Class Header (H : Type) := {
  base : H -> HTTPHeader;
  set_base : H -> HTTPHeader -> H;
  set_start_line : H -> str -> result H;
  has_body : H -> bool
}.

(** The base class: [set_start_line] and [has_body] are [pass], and the
    [None] that [has_body] returns counts as false. *)
#[export] Instance HTTPHeader_Header : Header HTTPHeader := {
  base h := h;
  set_base _ hb := hb;
  set_start_line h _ := Return h;
  has_body _ := false
}.

#[export] Instance RequestHeader_Header : Header RequestHeader := {
  base := RequestHeader_base;
  set_base h hb :=
    {| RequestHeader_base := hb; method := method h;
       target_uri := target_uri h;
       RequestHeader_version := RequestHeader_version h |};
  set_start_line := RequestHeader_set_start_line;
  has_body := RequestHeader_has_body
}.

#[export] Instance ResponseHeader_Header `{Semantics} : Header ResponseHeader := {
  base := ResponseHeader_base;
  set_base h hb :=
    {| ResponseHeader_base := hb; request := request h;
       ResponseHeader_version := ResponseHeader_version h;
       code := code h; phrase := phrase h |};
  set_start_line := ResponseHeader_set_start_line;
  has_body := ResponseHeader_has_body
}.

Definition add_header {H} `{Header H} (h : H) (line : str) : result H :=
  hb <- HTTPHeader_add_header (base h) line ;; Return (set_base h hb).

Definition add_trailer {H} `{Header H} (h : H) (line : str) : result H :=
  hb <- HTTPHeader_add_trailer (base h) line ;; Return (set_base h hb).

Definition body_is_chunked {H} `{Header H} (h : H) : bool :=
  HTTPHeader_body_is_chunked (base h).

Definition body_length {H} `{Header H} (h : H) : option Z :=
  HTTPHeader_body_length (base h).

(** ** The body readers' state *)

(** The values of [ChunkReader.mode]: ['start'], ['chunk'], ['trailer'],
    ['end']. *)
Inductive chunk_mode := Cstart | Cchunk | Ctrailer | Cend.

Record ChunkReader := {
  ChunkReader_mode : chunk_mode;
  ChunkReader_remaining : Z
}.

Definition ChunkReader_init : ChunkReader :=
  {| ChunkReader_mode := Cstart; ChunkReader_remaining := 0 |}.

Record LengthReader := { LengthReader_remaining : Z }.

Definition LengthReader_init (length : Z) : LengthReader :=
  {| LengthReader_remaining := length |}.

Inductive reader := Chunk (r : ChunkReader) | Length (r : LengthReader).

(** ** class HTTPParser *)

(** The values of [HTTPParser.mode]: ['start'], ['headers'], ['body'],
    ['end'], ['incomplete']. *)
Inductive parser_mode := Pstart | Pheaders | Pbody | Pend | Pincomplete.

Definition parser_mode_eqb (x y : parser_mode) : bool :=
  match x, y with
  | Pstart, Pstart | Pheaders, Pheaders | Pbody, Pbody
  | Pend, Pend | Pincomplete, Pincomplete => true
  | _, _ => false
  end.

Record HTTPParser (H : Type) := {
  buffer : StringIO;
  offset : nat;
  header : H;
  body_offset : Z;
  HTTPParser_mode : parser_mode;
  body_reader : option reader
}.

Arguments buffer {H} _.
Arguments offset {H} _.
Arguments header {H} _.
Arguments body_offset {H} _.
Arguments HTTPParser_mode {H} _.
Arguments body_reader {H} _.

Section Parser.

Context {H : Type} `{Header H}.

(** [HTTPParser.__init__] *)
Definition HTTPParser_init (f : StringIO) (h : H) : HTTPParser H :=
  {| buffer := f; offset := tell f; header := h; body_offset := -1;
     HTTPParser_mode := Pstart; body_reader := None |}.

Definition set_buffer (p : HTTPParser H) (f : StringIO) : HTTPParser H :=
  {| buffer := f; offset := offset p; header := header p;
     body_offset := body_offset p; HTTPParser_mode := HTTPParser_mode p;
     body_reader := body_reader p |}.

Definition set_offset (p : HTTPParser H) (o : nat) : HTTPParser H :=
  {| buffer := buffer p; offset := o; header := header p;
     body_offset := body_offset p; HTTPParser_mode := HTTPParser_mode p;
     body_reader := body_reader p |}.

Definition set_header (p : HTTPParser H) (h : H) : HTTPParser H :=
  {| buffer := buffer p; offset := offset p; header := h;
     body_offset := body_offset p; HTTPParser_mode := HTTPParser_mode p;
     body_reader := body_reader p |}.

Definition set_body_offset (p : HTTPParser H) (o : Z) : HTTPParser H :=
  {| buffer := buffer p; offset := offset p; header := header p;
     body_offset := o; HTTPParser_mode := HTTPParser_mode p;
     body_reader := body_reader p |}.

Definition set_parser_mode (p : HTTPParser H) (m : parser_mode)
  : HTTPParser H :=
  {| buffer := buffer p; offset := offset p; header := header p;
     body_offset := body_offset p; HTTPParser_mode := m;
     body_reader := body_reader p |}.

Definition set_body_reader (p : HTTPParser H) (r : option reader)
  : HTTPParser H :=
  {| buffer := buffer p; offset := offset p; header := header p;
     body_offset := body_offset p; HTTPParser_mode := HTTPParser_mode p;
     body_reader := r |}.

(** [HTTPParser.close] *)
Definition HTTPParser_close (p : HTTPParser H) : HTTPParser H :=
  if parser_mode_eqb (HTTPParser_mode p) Pstart
     || (match body_reader p with None => true | Some _ => false end
         && parser_mode_eqb (HTTPParser_mode p) Pbody)
  then set_parser_mode p Pend
  else if negb (parser_mode_eqb (HTTPParser_mode p) Pend)
  then set_parser_mode p Pincomplete
  else p.

(** [HTTPParser.headers_complete] *)
Definition HTTPParser_headers_complete (p : HTTPParser H) : bool :=
  match HTTPParser_mode p with Pend | Pbody => true | _ => false end.

(** [HTTPParser.complete] *)
Definition HTTPParser_complete (p : HTTPParser H) : bool :=
  parser_mode_eqb (HTTPParser_mode p) Pend.

(** [HTTPParser.feed_line]: returns [(line, text)] and the parser. *)
Definition HTTPParser_feed_line (p : HTTPParser H) (text : str)
  : option str * str * HTTPParser H :=
  let nl := find text CRLF in
  if -1 <? nl then
    let nl := nl + 2 in
    let f := write (buffer p) (slice_to text nl) in
    let f := seek f (offset p) in
    let '(line, f) := readline f in
    (Some line, slice_from text nl, set_offset (set_buffer p f) (tell f))
  else
    (None, [], set_buffer p (write (buffer p) text)).

(** [HTTPParser.feed_length]: returns [(remaining, text)] and the parser. *)
Definition HTTPParser_feed_length (p : HTTPParser H) (text : str)
    (remaining : Z) : Z * str * HTTPParser H :=
  let body := slice_to text remaining in
  let text := slice_from text remaining in
  let remaining := remaining - len body in
  let f := write (buffer p) body in
  (remaining, text, set_offset (set_buffer p f) (tell f)).

(** [HTTPParser.feed_start] *)
Definition HTTPParser_feed_start (p : HTTPParser H) (text : str)
  : result (str * HTTPParser H) :=
  let '(line, text, p) := HTTPParser_feed_line p text in
  match line with
  | Some l =>
      if negb (str_eqb l CRLF) then
        h <- set_start_line (header p) l ;;
        Return (text, set_parser_mode (set_header p h) Pheaders)
      else Return (text, p)
  | None => Return (text, p)
  end.

(** The loop [while text] of [HTTPParser.feed_headers]; [fuel] bounds the
    number of rounds. *)
Fixpoint feed_headers_loop (fuel : nat) (p : HTTPParser H) (text : str)
  : result (str * HTTPParser H) :=
  match text with
  | [] => Return (text, p)
  | _ :: _ =>
      match fuel with
      | O => Diverge
      | S fuel' =>
          let '(line, text, p) := HTTPParser_feed_line p text in
          match line with
          | Some l =>
              h <- add_header (header p) l ;;
              let p := set_header p h in
              if str_eqb l CRLF then Return (text, set_parser_mode p Pbody)
              else feed_headers_loop fuel' p text
          | None => feed_headers_loop fuel' p text
          end
      end
  end.

(** [HTTPParser.feed_headers]; every round takes at least one byte off
    [text], so [length text] rounds are enough. *)
Definition HTTPParser_feed_headers (p : HTTPParser H) (text : str)
  : result (str * HTTPParser H) :=
  feed_headers_loop (length text) p text.

(** ** class ChunkReader *)

Definition set_chunk_mode (r : ChunkReader) (m : chunk_mode) : ChunkReader :=
  {| ChunkReader_mode := m; ChunkReader_remaining := ChunkReader_remaining r |}.

Definition set_remaining (r : ChunkReader) (n : Z) : ChunkReader :=
  {| ChunkReader_mode := ChunkReader_mode r; ChunkReader_remaining := n |}.

Definition nonempty (text : str) : bool :=
  match text with [] => false | _ :: _ => true end.

(** Truth value of [end_of_chunk]: a line that is neither [None] nor ['']. *)
Definition truthy (line : option str) : bool :=
  match line with Some (_ :: _) => true | _ => false end.

(** The branch [if self.mode == 'start'] of the loop of [ChunkReader.feed]. *)
Definition ChunkReader_on_start (r : ChunkReader) (p : HTTPParser H)
    (text : str) : result (str * ChunkReader * HTTPParser H) :=
  match ChunkReader_mode r with
  | Cstart =>
      let '(line, text, p) := HTTPParser_feed_line p text in
      match line with
      | Some l =>
          match int (hd [] (split ";"%char 1 l)) 16 with
          | Some chunk =>
              let r := set_remaining r chunk in
              Return (text,
                      set_chunk_mode r (if chunk =? 0 then Ctrailer else Cchunk),
                      p)
          | None => Raise ValueError
          end
      | None => Return (text, r, p)
      end
  | _ => Return (text, r, p)
  end.

(** The branch [if text and self.mode == 'chunk']. *)
Definition ChunkReader_on_chunk (r : ChunkReader) (p : HTTPParser H)
    (text : str) : str * ChunkReader * HTTPParser H :=
  match ChunkReader_mode r with
  | Cchunk =>
      if nonempty text then
        let '(remaining, text, p) :=
          if 0 <? ChunkReader_remaining r
          then HTTPParser_feed_length p text (ChunkReader_remaining r)
          else (ChunkReader_remaining r, text, p) in
        let r := set_remaining r remaining in
        if ChunkReader_remaining r =? 0 then
          let '(end_of_chunk, text, p) := HTTPParser_feed_line p text in
          (text, if truthy end_of_chunk then set_chunk_mode r Cstart else r, p)
        else (text, r, p)
      else (text, r, p)
  | _ => (text, r, p)
  end.

(** The branch [if text and self.mode == 'trailer']. *)
Definition ChunkReader_on_trailer (r : ChunkReader) (p : HTTPParser H)
    (text : str) : result (str * ChunkReader * HTTPParser H) :=
  match ChunkReader_mode r with
  | Ctrailer =>
      if nonempty text then
        let '(line, text, p) := HTTPParser_feed_line p text in
        match line with
        | Some l =>
            h <- add_trailer (header p) l ;;
            Return (text,
                    if str_eqb l CRLF then set_chunk_mode r Cend else r,
                    set_header p h)
        | None => Return (text, r, p)
        end
      else Return (text, r, p)
  | _ => Return (text, r, p)
  end.

(** One round of the loop of [ChunkReader.feed], up to the test of
    [self.mode == 'end']. *)
Definition ChunkReader_round (r : ChunkReader) (p : HTTPParser H)
    (text : str) : result (str * ChunkReader * HTTPParser H) :=
  '(text, r, p) <- ChunkReader_on_start r p text ;;
  let '(text, r, p) := ChunkReader_on_chunk r p text in
  ChunkReader_on_trailer r p text.

(** The loop [while text] of [ChunkReader.feed]; [fuel] bounds the number
    of rounds. *)
Fixpoint ChunkReader_feed_loop (fuel : nat) (r : ChunkReader)
    (p : HTTPParser H) (text : str)
  : result (str * ChunkReader * HTTPParser H) :=
  match text with
  | [] => Return (text, r, p)
  | _ :: _ =>
      match fuel with
      | O => Diverge
      | S fuel' =>
          '(text, r, p) <- ChunkReader_round r p text ;;
          match ChunkReader_mode r with
          | Cend => Return (text, r, set_parser_mode p Pend)
          | _ => ChunkReader_feed_loop fuel' r p text
          end
      end
  end.

(** [ChunkReader.feed].  A round takes at least one byte off [text] unless
    the reader is in mode ['chunk'] with a negative [remaining] (a chunk size
    such as [-5]); there the Python loop changes nothing and never ends, and
    the bound of [length text] rounds runs out: [Diverge]. *)
Definition ChunkReader_feed (r : ChunkReader) (p : HTTPParser H) (text : str)
  : result (str * ChunkReader * HTTPParser H) :=
  ChunkReader_feed_loop (length text) r p text.

(** ** class LengthReader *)

(** [LengthReader.feed] *)
Definition LengthReader_feed (r : LengthReader) (p : HTTPParser H)
    (text : str) : str * LengthReader * HTTPParser H :=
  let '(remaining, text, p) :=
    if 0 <? LengthReader_remaining r
    then HTTPParser_feed_length p text (LengthReader_remaining r)
    else (LengthReader_remaining r, text, p) in
  (text, {| LengthReader_remaining := remaining |},
   if remaining <=? 0 then set_parser_mode p Pend else p).

(** ** [HTTPParser.feed] *)

(** [self.body_reader.feed(self, text)]: the reader object stays installed
    in the parser and keeps the state the call left it in. *)
Definition body_reader_feed (rd : reader) (p : HTTPParser H) (text : str)
  : result (str * HTTPParser H) :=
  match rd with
  | Chunk r =>
      '(text, r, p) <- ChunkReader_feed r p text ;;
      Return (text, set_body_reader p (Some (Chunk r)))
  | Length r =>
      let '(text, r, p) := LengthReader_feed r p text in
      Return (text, set_body_reader p (Some (Length r)))
  end.

(** What [feed] does when [feed_headers] has left the parser in mode
    ['body']: decide whether there is a body and install its reader. *)
Definition enter_body (p : HTTPParser H) : HTTPParser H :=
  match HTTPParser_mode p with
  | Pbody =>
      if negb (has_body (header p)) then set_parser_mode p Pend
      else
        let p := set_body_offset p (Z.of_nat (offset p)) in
        if body_is_chunked (header p)
        then set_body_reader p (Some (Chunk ChunkReader_init))
        else match body_length (header p) with
             | Some n => set_body_reader p (Some (Length (LengthReader_init n)))
             | None => set_body_reader p None
             end
  | _ => p
  end.

(** The three blocks of [HTTPParser.feed], one per mode. *)
Definition HTTPParser_on_start (p : HTTPParser H) (text : str)
  : result (str * HTTPParser H) :=
  if nonempty text && parser_mode_eqb (HTTPParser_mode p) Pstart
  then HTTPParser_feed_start p text
  else Return (text, p).

Definition HTTPParser_on_headers (p : HTTPParser H) (text : str)
  : result (str * HTTPParser H) :=
  if nonempty text && parser_mode_eqb (HTTPParser_mode p) Pheaders
  then '(text, p) <- HTTPParser_feed_headers p text ;;
       Return (text, enter_body p)
  else Return (text, p).

Definition HTTPParser_on_body (p : HTTPParser H) (text : str)
  : result (str * HTTPParser H) :=
  if nonempty text && parser_mode_eqb (HTTPParser_mode p) Pbody
  then match body_reader p with
       | Some rd => body_reader_feed rd p text
       | None => Return ([], set_buffer p (write (buffer p) text))
       end
  else Return (text, p).

Definition HTTPParser_feed (p : HTTPParser H) (text : str)
  : result (str * HTTPParser H) :=
  '(text, p) <- HTTPParser_on_start p text ;;
  '(text, p) <- HTTPParser_on_headers p text ;;
  HTTPParser_on_body p text.

End Parser.

(** ** class RequestParser(HTTPParser) *)

Definition RequestParser := HTTPParser RequestHeader.

Definition RequestParser_init (f : StringIO) : RequestParser :=
  HTTPParser_init f RequestHeader_init.

(** ** class ResponseParser(HTTPParser) *)

Record ResponseParser := {
  interim : list ResponseHeader;
  parser : HTTPParser ResponseHeader
}.

Section Response.

Context `{Semantics}.

Definition ResponseParser_init (f : StringIO) (request_header : RequestHeader)
  : ResponseParser :=
  {| interim := [];
     parser := HTTPParser_init f (ResponseHeader_init request_header) |}.

(** [self.header.code == Codes.Continue] *)
Definition is_Continue (h : ResponseHeader) : bool :=
  match code h with Some c => c =? Codes_Continue | None => false end.

(** [ResponseParser.feed] *)
Definition ResponseParser_feed (rp : ResponseParser) (text : str)
  : result (str * ResponseParser) :=
  '(text, p) <- HTTPParser_feed (parser rp) text ;;
  if HTTPParser_complete p && is_Continue (header p) then
    let interim := interim rp ++ [header p] in
    let p := set_header p (ResponseHeader_init (request (header p))) in
    let p := set_body_offset p (-1) in
    let p := set_parser_mode p Pstart in
    let p := set_body_reader p None in
    '(text, p) <- HTTPParser_feed p text ;;
    Return (text, {| interim := interim; parser := p |})
  else Return (text, {| interim := interim rp; parser := p |}).

End Response.

(** ** Vocabulary of the properties *)

(** A field that announces a chunked body. *)
Definition is_chunked_field (nv : str * str) : bool :=
  str_eqb (lower (fst nv)) (b "transfer-encoding") &&
  contains (b "chunked") (lower (snd nv)).

Definition is_length_field (nv : str * str) : bool :=
  str_eqb (lower (fst nv)) (b "content-length").

(** The value of a [Content-Length] field is a decimal integer. *)
Definition length_field_ok (nv : str * str) : Prop :=
  is_length_field nv = true -> int (lower (snd nv)) 10 <> None.


(** The parser as [ResponseParser.feed] resets it for the next response. *)
Definition reset_parser (p : HTTPParser ResponseHeader)
  : HTTPParser ResponseHeader :=
  set_body_reader
    (set_parser_mode
       (set_body_offset
          (set_header p (ResponseHeader_init (request (header p)))) (-1))
       Pstart)
    None.

(** A caller that feeds the chunks of a stream to one parser in order and
    then looks at the parser: [for chunk in chunks: parser.feed(chunk)]. *)
Fixpoint feed_each {P : Type} (feed : P -> str -> result (str * P)) (p : P)
    (chunks : list str) : result P :=
  match chunks with
  | [] => Return p
  | chunk :: chunks' => '(_, p) <- feed p chunk ;; feed_each feed p chunks'
  end.

(** The stream [text] cut into chunks of one byte. *)
Definition bytewise (text : str) : list str := map (fun c => [c]) text.

Definition rmap {A B : Type} (f : A -> B) (r : result A) : result B :=
  x <- r ;; Return (f x).

(** The bytes of the buffer from the body offset on. *)
Definition body_bytes {H : Type} (p : HTTPParser H) : str :=
  slice_from (buf (buffer p)) (body_offset p).

(** Modelled from the spec: the tables [Methods.no_body], [Codes.no_body]
    and [Codes.Continue] of [hanzo.httptools.semantics], which is not among
    the sources.  The spec describes them as the classifiers "method never
    carries a response body" (HEAD), "status code class implies no body" and
    the interim code 100; they are used for the concrete runs only. *)
Definition http_semantics : Semantics :=
  {| Methods_no_body := fun m => str_eqb m (b "HEAD");
     Codes_no_body := fun c =>
       ((100 <=? c) && (c <? 200)) || (c =? 204) || (c =? 304);
     Codes_Continue := 100 |}.

Definition wikipedia_chunks : str :=
  b "4" ++ CRLF ++ b "Wiki" ++ CRLF ++
  b "5" ++ CRLF ++ b "pedia" ++ CRLF ++
  b "0" ++ CRLF ++ CRLF.

(** The streams of the concrete runs. *)
Definition chunked_request_head : str :=
  b "POST /upload HTTP/1.1" ++ CRLF ++
  b "Transfer-Encoding: chunked" ++ CRLF ++ CRLF.

Definition get_request : str :=
  b "GET /index.html HTTP/1.1" ++ CRLF ++
  b "Host: example.com" ++ CRLF ++ CRLF.

Definition get_request_header : RequestHeader :=
  {| RequestHeader_base := set_keep_alive HTTPHeader_init false;
     method := b "GET"; target_uri := b "/index.html";
     RequestHeader_version := b "HTTP/1.1" |}.

Definition continue_response : str := b "HTTP/1.1 100 Continue" ++ CRLF ++ CRLF.

Definition ok_response : str :=
  b "HTTP/1.1 200 OK" ++ CRLF ++ b "Content-Length: 2" ++ CRLF ++ CRLF ++
  b "ok".

Definition observe_response (rp : ResponseParser) :=
  (HTTPParser_mode (parser rp), map code (interim rp),
   code (header (parser rp))).

(** The bytes of the buffer that no line has taken yet: what [readline]
    would see after [seek(self.offset)]. *)
Definition pending {H : Type} (p : HTTPParser H) : str :=
  skipn (offset p) (buf (buffer p)).

(** The buffer is written at its end and the line cursor is inside it: the
    state a parser is in when it was created on an empty buffer and has been
    fed lines that end in CRLF and hold no other line feed. *)
Definition at_end {H : Type} (p : HTTPParser H) : Prop :=
  pos (buffer p) = length (buf (buffer p)) /\
  (offset p <= length (buf (buffer p)))%nat.

(** [feed_line] on a parser that is written at its end. *)
Definition append_to_buffer {H : Type} (p : HTTPParser H) (s : str)
  : HTTPParser H :=
  set_buffer p {| buf := buf (buffer p) ++ s;
                  pos := length (buf (buffer p) ++ s) |}.

Definition take_line {H : Type} (p : HTTPParser H) (s : str) : HTTPParser H :=
  set_offset (append_to_buffer p s) (length (buf (buffer p) ++ s)).

(** ** Messages as they are sent *)

(** A [Connection] field. *)
Definition is_connection_field (nv : str * str) : bool :=
  str_eqb (lower (fst nv)) (b "connection").

(** The header of a [HEAD] request, as a response parser is given it. *)
Definition head_request_header : RequestHeader :=
  {| RequestHeader_base := HTTPHeader_init;
     method := b "HEAD"; target_uri := b "/index.html";
     RequestHeader_version := b "HTTP/1.1" |}.

(** A request parser that has read its request line. *)
Definition after_request_line : HTTPParser RequestHeader :=
  set_parser_mode (RequestParser_init StringIO_new) Pheaders.

(** A field line [name ":" value CRLF] as it is sent: the name holds no
    colon, the line does not start with a space or a tab, and CR or LF occur
    only in the CRLF at its end. *)
Definition field_wf (nv : str * str) : Prop :=
  ~ In ":"%char (fst nv) /\
  is_continuation (fst nv ++ ":"%char :: snd nv) = false /\
  ~ In CR (fst nv ++ ":"%char :: snd nv) /\
  ~ In LF (fst nv ++ ":"%char :: snd nv).

Definition field_bytes (nv : str * str) : str :=
  (fst nv ++ ":"%char :: snd nv) ++ CRLF.

(** The pair that the header keeps of a field line. *)
Definition field_pair (nv : str * str) : str * str :=
  (strip (fst nv), strip (snd nv)).

(** A header block: the field lines and the blank line. *)
Definition header_block (fs : list (str * str)) : str :=
  concat (map field_bytes fs) ++ CRLF.

(** A request line as it is sent. *)
Definition request_line_wf (m t v : str) : Prop :=
  ~ In SP m /\ ~ In SP t /\ v <> [] /\ rstrip v = v /\
  ~ In CR (m ++ SP :: t ++ SP :: v) /\ ~ In LF (m ++ SP :: t ++ SP :: v).

Definition request_bytes (m t v : str) (fs : list (str * str)) : str :=
  (m ++ SP :: t ++ SP :: v) ++ CRLF ++ header_block fs.

(** A field that does not announce a body. *)
Definition no_body_field (nv : str * str) : Prop :=
  is_length_field (field_pair nv) = false /\
  is_chunked_field (field_pair nv) = false.

(** A chunk as it is sent: the size line [sz], the data and the CRLF after
    them.  The size line holds no CR or LF of its own, and [int(.., 16)] of
    what stands before its first [;] is the number of data bytes, which is
    not zero. *)
Definition chunk_wf (c : str * str) : Prop :=
  ~ In CR (fst c) /\ ~ In LF (fst c) /\ snd c <> [] /\
  int (hd [] (split ";"%char 1 (fst c ++ CRLF))) 16 = Some (len (snd c)).

Definition chunk_bytes (c : str * str) : str :=
  fst c ++ CRLF ++ snd c ++ CRLF.

(** The size line of the last chunk reads as 0. *)
Definition last_chunk_wf (z : str) : Prop :=
  ~ In CR z /\ ~ In LF z /\
  int (hd [] (split ";"%char 1 (z ++ CRLF))) 16 = Some 0.

(** A chunked body without trailer fields. *)
Definition chunked_body (cs : list (str * str)) (z : str) : str :=
  concat (map chunk_bytes cs) ++ z ++ CRLF ++ CRLF.

(** A header class whose inherited part can be read back after it was
    set, as is the case for the two subclasses. *)
Definition lawful (H : Type) `{Header H} : Prop :=
  (forall (h : H) hb, base (set_base h hb) = hb) /\
  (forall (h : H) a c, set_base (set_base h a) c = set_base h c).





(** * Properties *)

(** ** Strings and the buffer *)

Lemma str_eqb_eq (x y : str) : str_eqb x y = true <-> x = y.
Proof.
  revert y. induction x as [|c x IH]; intros [|d y]; simpl;
    try (split; congruence).
  rewrite andb_true_iff, Ascii.eqb_eq, IH. split.
  - intros [-> ->]. reflexivity.
  - intros E. injection E. auto.
Qed.

Lemma str_eqb_refl (x : str) : str_eqb x x = true.
Proof. apply str_eqb_eq. reflexivity. Qed.

Lemma str_eqb_neq (x y : str) : str_eqb x y = false <-> x <> y.
Proof.
  rewrite <- str_eqb_eq. destruct (str_eqb x y); split; congruence.
Qed.

Lemma nonempty_true (s : str) : nonempty s = true <-> s <> [].
Proof. destruct s; simpl; split; congruence. Qed.

Lemma find_single (c : ascii) : find [c] CRLF = -1.
Proof.
  unfold find, CRLF. cbn [index_of startswith option_map].
  destruct (Ascii.eqb CR c); reflexivity.
Qed.

Lemma slice_to_app (x y : str) : slice_to (x ++ y) (len x) = x.
Proof.
  unfold slice_to, len.
  destruct (Z.ltb_spec (Z.of_nat (length x)) 0); [lia|].
  rewrite Nat2Z.id, firstn_app, Nat.sub_diag, firstn_all. simpl.
  apply app_nil_r.
Qed.

Lemma slice_from_app (x y : str) : slice_from (x ++ y) (len x) = y.
Proof.
  unfold slice_from, len.
  destruct (Z.ltb_spec (Z.of_nat (length x)) 0); [lia|].
  rewrite Nat2Z.id, skipn_app, Nat.sub_diag, skipn_all. reflexivity.
Qed.

Lemma write_pos (f : StringIO) (s : str) :
  pos (write f s) = (pos f + length s)%nat.
Proof. destruct s; simpl; [lia | reflexivity]. Qed.

Lemma write_length (f : StringIO) (s : str) :
  s <> [] ->
  length (buf (write f s)) = Nat.max (length (buf f)) (pos f + length s).
Proof.
  destruct s as [|c s]; [congruence|]. intros _. unfold write.
  cbn [buf pos].
  rewrite !length_app, length_firstn, length_skipn, !length_app, repeat_length.
  lia.
Qed.

(** At the end of the contents, [write] appends. *)
Lemma write_at_end (f : StringIO) (s : str) :
  pos f = length (buf f) ->
  write f s = {| buf := buf f ++ s; pos := (length (buf f) + length s)%nat |}.
Proof.
  intros E. destruct f as [bf ps]; simpl in *; subst ps.
  destruct s as [|c s].
  - simpl. rewrite app_nil_r, Nat.add_0_r. reflexivity.
  - unfold write; cbn [buf pos].
    rewrite Nat.sub_diag. simpl repeat. rewrite app_nil_r, firstn_all.
    rewrite skipn_all2 by (simpl; lia). rewrite app_nil_r. reflexivity.
Qed.

(** ** C9: a continuation line with nothing before it *)

Lemma pop_nil {A : Type} : pop (@nil A) = Raise IndexError.
Proof. reflexivity. Qed.

Lemma pop_snoc {A : Type} (l : list A) (x : A) : pop (l ++ [x]) = Return (x, l).
Proof.
  unfold pop. rewrite rev_app_distr. simpl. rewrite rev_involutive.
  reflexivity.
Qed.

Lemma pop_nonempty {A : Type} (l : list A) :
  l <> [] -> exists x l', l = l' ++ [x] /\ pop l = Return (x, l').
Proof.
  intros Hne. destruct (exists_last Hne) as (l' & x & ->).
  exists x, l'. split; [reflexivity | apply pop_snoc].
Qed.

(** C9.  [add_header] called with a continuation line (a line that starts
    with a space or a tab) while [headers] is empty raises the [IndexError]
    of [pop] on an empty list, and so does [add_trailer] while [trailers] is
    empty; when the list is not empty the line is folded into the value of
    its last field and nothing is raised. *)
Theorem continuation_needs_a_field (h : HTTPHeader) (line : str) :
  is_continuation line = true ->
  (headers h = [] -> HTTPHeader_add_header h line = Raise IndexError) /\
  (trailers h = [] -> HTTPHeader_add_trailer h line = Raise IndexError) /\
  (forall l k v, headers h = l ++ [(k, v)] ->
     HTTPHeader_add_header h line =
     Return (set_headers h (l ++ [(k, v ++ [SP] ++ strip line)]))) /\
  (forall l k v, trailers h = l ++ [(k, v)] ->
     HTTPHeader_add_trailer h line =
     Return (set_trailers h (l ++ [(k, v ++ [SP] ++ strip line)]))).
Proof.
  intros Hc. unfold HTTPHeader_add_header, HTTPHeader_add_trailer, fold_line.
  rewrite Hc. repeat split.
  - intros ->. reflexivity.
  - intros ->. reflexivity.
  - intros l k v ->. rewrite pop_snoc. reflexivity.
  - intros l k v ->. rewrite pop_snoc. reflexivity.
Qed.

Lemma continuation_needs_a_field_witness :
  is_continuation (b " gzip" ++ CRLF) = true /\
  HTTPHeader_add_header HTTPHeader_init (b " gzip" ++ CRLF) = Raise IndexError /\
  HTTPHeader_add_trailer HTTPHeader_init (b " gzip" ++ CRLF) = Raise IndexError.
Proof.
  assert (Hc : is_continuation (b " gzip" ++ CRLF) = true) by reflexivity.
  destruct (continuation_needs_a_field HTTPHeader_init _ Hc) as (H1 & H2 & _).
  split; [exact Hc | split; [apply H1 | apply H2]; reflexivity].
Defined.

(** ** C3: [close] *)

Section Close.

Context {H : Type} `{Header H}.

(** [close] touches nothing but the mode. *)
Lemma close_only_mode (p : HTTPParser H) :
  HTTPParser_close p = set_parser_mode p (HTTPParser_mode (HTTPParser_close p)).
Proof.
  destruct p as [f o h bo m r]; unfold HTTPParser_close; simpl.
  destruct m, r; reflexivity.
Qed.

(** C3.  For every parser state: [close] in mode ['start'], or in mode
    ['body'] with no body reader installed, leaves the parser in mode ['end'],
    so that [complete()] is true; [close] in any other mode but ['end']
    (['headers'], ['body'] with a length or chunk reader installed,
    ['incomplete']) leaves it in mode ['incomplete']. *)
Theorem close_semantics (p : HTTPParser H) :
  (HTTPParser_mode p = Pstart \/
   (HTTPParser_mode p = Pbody /\ body_reader p = None) ->
   HTTPParser_mode (HTTPParser_close p) = Pend /\
   HTTPParser_complete (HTTPParser_close p) = true) /\
  (~ (HTTPParser_mode p = Pstart \/
      (HTTPParser_mode p = Pbody /\ body_reader p = None)) ->
   HTTPParser_mode p <> Pend ->
   HTTPParser_mode (HTTPParser_close p) = Pincomplete /\
   HTTPParser_complete (HTTPParser_close p) = false).
Proof.
  destruct p as [f o h bo m r]; unfold HTTPParser_close, HTTPParser_complete;
    simpl.
  split.
  - intros [-> | [-> ->]]; [destruct r|]; split; reflexivity.
  - intros Hn Hend. destruct m, r; simpl; try (split; reflexivity);
      try congruence; exfalso; apply Hn; auto.
Qed.

End Close.

Lemma close_semantics_witness :
  let p := RequestParser_init StringIO_new in
  let q := set_body_reader (set_parser_mode p Pbody)
             (Some (Length (LengthReader_init 5))) in
  HTTPParser_mode (HTTPParser_close p) = Pend /\
  HTTPParser_mode (HTTPParser_close q) = Pincomplete.
Proof.
  intros p q. split.
  - apply (proj1 (close_semantics p)). left. reflexivity.
  - apply (proj2 (close_semantics q)).
    + intros [E | [_ E]]; discriminate E.
    + discriminate.
Defined.

(** ** C2: the framing scan of [add_header] *)

Lemma resolve_fields_app (h : HTTPHeader) (l1 l2 : list (str * str)) :
  resolve_fields h (l1 ++ l2) =
  (h1 <- resolve_fields h l1 ;; resolve_fields h1 l2).
Proof.
  revert h. induction l1 as [|nv l1 IH]; intros h; simpl; [reflexivity|].
  destruct (resolve_field h nv); simpl; auto.
Qed.

(** Once the mode is ['chunked'] no field changes it, and the content
    length stays what it was. *)
Lemma resolve_field_chunked (h : HTTPHeader) (nv : str * str) :
  HTTPHeader_mode h = Mchunked ->
  exists h', resolve_field h nv = Return h' /\
             HTTPHeader_mode h' = Mchunked /\
             content_length h' = content_length h.
Proof.
  intros Hm. unfold resolve_field. rewrite Hm.
  destruct (str_eqb (lower (fst nv)) (b "content-length"));
    cbn [bind];
    destruct (str_eqb (lower (fst nv)) (b "transfer-encoding"));
    destruct (contains (b "chunked") (lower (snd nv)));
    destruct (str_eqb (lower (fst nv)) (b "content-encoding"));
    destruct (str_eqb (lower (fst nv)) (b "connection"));
    destruct (contains (b "keep-alive") (lower (snd nv)));
    destruct (contains (b "close") (lower (snd nv)));
    eexists; (split; [reflexivity|]); simpl; auto.
Qed.

Lemma resolve_fields_chunked (l : list (str * str)) (h : HTTPHeader) :
  HTTPHeader_mode h = Mchunked ->
  exists h', resolve_fields h l = Return h' /\
             HTTPHeader_mode h' = Mchunked /\
             content_length h' = content_length h.
Proof.
  revert h. induction l as [|nv l IH]; intros h Hm; simpl.
  - eauto.
  - destruct (resolve_field_chunked h nv Hm) as (h1 & -> & Hm1 & Hc1).
    simpl. destruct (IH h1 Hm1) as (h2 & -> & Hm2 & Hc2).
    exists h2. repeat split; congruence.
Qed.

(** A [Transfer-Encoding: chunked] field sets the mode to ['chunked'],
    whatever it was. *)
Lemma resolve_field_sets_chunked (h : HTTPHeader) (nv : str * str) :
  is_chunked_field nv = true ->
  exists h', resolve_field h nv = Return h' /\ HTTPHeader_mode h' = Mchunked.
Proof.
  unfold is_chunked_field. rewrite andb_true_iff. intros [Hn Hv].
  unfold resolve_field. rewrite Hn, Hv.
  apply str_eqb_eq in Hn. rewrite Hn. cbn [str_eqb b list_ascii_of_string
    Ascii.eqb Bool.eqb andb bind].
  eexists. split; reflexivity.
Qed.

(** A field whose length value is well formed never makes the scan raise. *)
Lemma resolve_field_returns (h : HTTPHeader) (nv : str * str) :
  length_field_ok nv -> exists h', resolve_field h nv = Return h'.
Proof.
  unfold length_field_ok, is_length_field, resolve_field. intros Hok.
  destruct (str_eqb (lower (fst nv)) (b "content-length")).
  - destruct (HTTPHeader_mode h); cbn [bind]; eauto.
    destruct (int (lower (snd nv)) 10); [cbn [bind]; eauto|].
    exfalso. apply Hok; reflexivity.
  - cbn [bind]. eauto.
Qed.

Lemma resolve_fields_returns (l : list (str * str)) (h : HTTPHeader) :
  Forall length_field_ok l -> exists h', resolve_fields h l = Return h'.
Proof.
  revert h. induction l as [|nv l IH]; intros h Hok; simpl; [eauto|].
  inversion Hok as [|? ? Hnv Hl]; subst.
  destruct (resolve_field_returns h nv Hnv) as (h1 & ->). simpl. auto.
Qed.

(** A field that is neither a length nor a chunked field leaves the mode
    ['close'] alone. *)
Lemma resolve_field_no_signal (h : HTTPHeader) (nv : str * str) :
  HTTPHeader_mode h = Mclose ->
  is_length_field nv = false -> is_chunked_field nv = false ->
  exists h', resolve_field h nv = Return h' /\ HTTPHeader_mode h' = Mclose.
Proof.
  unfold is_length_field, is_chunked_field, resolve_field.
  intros Hm Hl Hc. rewrite Hl. cbn [bind].
  destruct (str_eqb (lower (fst nv)) (b "transfer-encoding"));
    cbn [andb] in Hc; rewrite ?Hc;
    destruct (str_eqb (lower (fst nv)) (b "content-encoding"));
    destruct (str_eqb (lower (fst nv)) (b "connection"));
    destruct (contains (b "keep-alive") (lower (snd nv)));
    destruct (contains (b "close") (lower (snd nv)));
    eexists; (split; [reflexivity|]); simpl; auto.
Qed.

Lemma resolve_fields_no_signal (l : list (str * str)) (h : HTTPHeader) :
  HTTPHeader_mode h = Mclose ->
  Forall (fun nv => is_length_field nv = false /\ is_chunked_field nv = false) l ->
  exists h', resolve_fields h l = Return h' /\ HTTPHeader_mode h' = Mclose.
Proof.
  revert h. induction l as [|nv l IH]; intros h Hm Hl; simpl; [eauto|].
  inversion Hl as [|? ? [H1 H2] Hl']; subst.
  destruct (resolve_field_no_signal h nv Hm H1 H2) as (h1 & -> & Hm1).
  simpl. auto.
Qed.

(** The blank line runs the scan over [headers] from the first field to the
    last and then forces [keep_alive] off in mode ['close']. *)
Lemma add_header_blank (h : HTTPHeader) :
  HTTPHeader_add_header h CRLF =
  (h' <- resolve_fields h (headers h) ;;
   Return (match HTTPHeader_mode h' with
           | Mclose => set_keep_alive h' false
           | _ => h'
           end)).
Proof. reflexivity. Qed.

(** C2.  On the blank line that ends the header block the fields are
    scanned in insertion order, and
    - a [Transfer-Encoding: chunked] field that comes after a
      [Content-Length] field leaves the framing ['chunked'];
    - a field scanned while the framing is ['chunked'] ([Content-Length]
      included) leaves it ['chunked'] and leaves the content length alone;
    - when the scan ends with the framing still ['close'], [keep_alive] is
      false; this is the outcome, whatever the [Connection] fields say,
      whenever no field is a [Content-Length] or a chunked
      [Transfer-Encoding]. *)
Theorem framing_resolution :
  (forall h l1 cl l2 te l3,
     headers h = l1 ++ cl :: l2 ++ te :: l3 ->
     is_length_field cl = true -> is_chunked_field te = true ->
     Forall length_field_ok (headers h) ->
     exists h', HTTPHeader_add_header h CRLF = Return h' /\
                HTTPHeader_mode h' = Mchunked) /\
  (forall h nv,
     HTTPHeader_mode h = Mchunked ->
     exists h', resolve_field h nv = Return h' /\
                HTTPHeader_mode h' = Mchunked /\
                content_length h' = content_length h) /\
  (forall h h',
     HTTPHeader_add_header h CRLF = Return h' ->
     HTTPHeader_mode h' = Mclose -> keep_alive h' = false) /\
  (forall h,
     HTTPHeader_mode h = Mclose ->
     Forall (fun nv => is_length_field nv = false /\
                       is_chunked_field nv = false) (headers h) ->
     exists h', HTTPHeader_add_header h CRLF = Return h' /\
                HTTPHeader_mode h' = Mclose /\ keep_alive h' = false).
Proof.
  repeat split.
  - intros h l1 cl l2 te l3 Hh _ Hte Hok. rewrite add_header_blank.
    destruct (resolve_fields_returns _ h Hok) as (hf & Hf).
    rewrite Hf. cbn [bind].
    assert (Hm : HTTPHeader_mode hf = Mchunked).
    { rewrite Hh in Hf.
      replace (l1 ++ cl :: l2 ++ te :: l3)
        with ((l1 ++ cl :: l2) ++ te :: l3) in Hf
        by (rewrite <- app_assoc; reflexivity).
      rewrite resolve_fields_app in Hf.
      destruct (resolve_fields h (l1 ++ cl :: l2)) as [h1| |];
        cbn [bind] in Hf; try discriminate.
      simpl in Hf.
      destruct (resolve_field_sets_chunked h1 te Hte) as (h2 & E2 & Hm2).
      rewrite E2 in Hf. cbn [bind] in Hf.
      destruct (resolve_fields_chunked l3 h2 Hm2) as (h3 & E3 & Hm3 & _).
      congruence. }
    rewrite Hm. eauto.
  - intros h nv Hm. apply resolve_field_chunked, Hm.
  - intros h h' E Hm. rewrite add_header_blank in E.
    destruct (resolve_fields h (headers h)) as [h1| |]; cbn [bind] in E;
      try discriminate.
    injection E as <-. destruct (HTTPHeader_mode h1) eqn:E1; simpl in *;
      congruence.
  - intros h Hm Hl. rewrite add_header_blank.
    destruct (resolve_fields_no_signal _ h Hm Hl) as (h1 & -> & Hm1).
    cbn [bind]. rewrite Hm1. eexists. split; [reflexivity|].
    split; [exact Hm1 | reflexivity].
Qed.

Lemma framing_resolution_witness :
  (exists h',
     HTTPHeader_add_header
       (set_headers HTTPHeader_init
          [(b "Content-Length", b "5"); (b "Transfer-Encoding", b "chunked")])
       CRLF = Return h' /\ HTTPHeader_mode h' = Mchunked) /\
  (exists h',
     HTTPHeader_add_header
       (set_headers HTTPHeader_init [(b "Connection", b "keep-alive")])
       CRLF = Return h' /\
     HTTPHeader_mode h' = Mclose /\ keep_alive h' = false).
Proof.
  destruct framing_resolution as (P1 & _ & _ & P4). split.
  - apply (P1 _ [] (b "Content-Length", b "5") []
              (b "Transfer-Encoding", b "chunked") []); try reflexivity.
    apply Forall_cons; [intros _; vm_compute; discriminate|].
    apply Forall_cons; [intros E; vm_compute in E; discriminate E|].
    apply Forall_nil.
  - apply P4; [reflexivity|].
    apply Forall_cons; [split; reflexivity | apply Forall_nil].
Defined.

(** The scan as the request parser runs it on the blank line of a header
    block: a chunked [Transfer-Encoding] wins in either order, and without a
    length or chunked field [Connection: keep-alive] does not keep the
    connection alive. *)
Lemma framing_resolution_in_parser :
  let observe := fun '(text, p) =>
    (text, HTTPParser_mode p, body_reader p,
     HTTPHeader_mode (RequestHeader_base (header p)),
     content_length (RequestHeader_base (header p)),
     keep_alive (RequestHeader_base (header p))) in
  rmap observe
    (HTTPParser_feed (RequestParser_init StringIO_new)
       (b "POST /upload HTTP/1.1" ++ CRLF ++ b "Content-Length: 5" ++ CRLF ++
        b "Transfer-Encoding: chunked" ++ CRLF ++ CRLF))
    = Return ([], Pbody, Some (Chunk ChunkReader_init), Mchunked, Some 5,
              true) /\
  rmap observe
    (HTTPParser_feed (RequestParser_init StringIO_new)
       (b "POST /upload HTTP/1.1" ++ CRLF ++
        b "Transfer-Encoding: chunked" ++ CRLF ++
        b "Content-Length: 5" ++ CRLF ++ CRLF))
    = Return ([], Pbody, Some (Chunk ChunkReader_init), Mchunked, None,
              true) /\
  rmap observe
    (HTTPParser_feed (RequestParser_init StringIO_new)
       (b "GET /index.html HTTP/1.1" ++ CRLF ++
        b "Connection: keep-alive" ++ CRLF ++ CRLF))
    = Return ([], Pend, None, Mclose, None, false).
Proof. repeat split; vm_compute; reflexivity. Qed.

(** ** Malformed lines: the first line of a chunk *)

Lemma partition_absent (sep : ascii) (s : str) :
  ~ In sep s -> partition sep s = None.
Proof.
  induction s as [|c s IH]; simpl; [reflexivity|]. intros Hn.
  destruct (Ascii.eqb_spec c sep) as [->|_]; [exfalso; auto|].
  rewrite IH by auto. reflexivity.
Qed.





Section Propagation.

Context {H : Type} `{Header H}.

Lemma feed_line_some_nonempty (p p1 : HTTPParser H) (text line rest : str) :
  HTTPParser_feed_line p text = (Some line, rest, p1) -> text <> [].
Proof. intros E ->. discriminate E. Qed.

Lemma feed_line_header (p : HTTPParser H) (text : str) :
  header (snd (HTTPParser_feed_line p text)) = header p /\
  HTTPParser_mode (snd (HTTPParser_feed_line p text)) = HTTPParser_mode p /\
  body_reader (snd (HTTPParser_feed_line p text)) = body_reader p /\
  body_offset (snd (HTTPParser_feed_line p text)) = body_offset p.
Proof.
  unfold HTTPParser_feed_line.
  destruct (-1 <? find text CRLF); [|simpl; auto].
  destruct (readline _) as [line f]. simpl. auto.
Qed.


(** In mode ['headers'], an exception of [add_header] on the first line of
    the chunk leaves [feed]. *)
Lemma feed_header_line_raises (p p1 : HTTPParser H) (text line rest : str)
    (e : exn) :
  HTTPParser_mode p = Pheaders ->
  HTTPParser_feed_line p text = (Some line, rest, p1) ->
  HTTPHeader_add_header (base (header p)) line = Raise e ->
  HTTPParser_feed p text = Raise e.
Proof.
  intros Hm Hl He. pose proof (feed_line_some_nonempty _ _ _ _ _ Hl) as Hne.
  pose proof (feed_line_header p text) as (Hh & _). rewrite Hl in Hh.
  simpl in Hh.
  destruct text as [|c t]; [congruence|].
  unfold HTTPParser_feed, HTTPParser_on_start, HTTPParser_on_headers,
    HTTPParser_on_body. rewrite Hm. cbn [nonempty andb parser_mode_eqb bind].
  rewrite Hm. cbn [andb parser_mode_eqb].
  unfold HTTPParser_feed_headers. cbn [length feed_headers_loop].
  rewrite Hl. unfold add_header. rewrite Hh, He. reflexivity.
Qed.


(** The [IndexError] of C9 is not caught on the way: in mode ['headers'] a
    continuation line that comes before any field raises out of [feed]. *)
Lemma feed_continuation_first_raises (p p1 : HTTPParser H)
    (text line rest : str) :
  HTTPParser_mode p = Pheaders ->
  HTTPParser_feed_line p text = (Some line, rest, p1) ->
  is_continuation line = true -> headers (base (header p)) = [] ->
  HTTPParser_feed p text = Raise IndexError.
Proof.
  intros Hm Hl Hc Hh. eapply feed_header_line_raises; eauto.
  unfold HTTPHeader_add_header, fold_line. rewrite Hc, Hh. reflexivity.
Qed.

End Propagation.

Section ResponsePropagation.

Context `{Semantics}.


End ResponsePropagation.

(** The malformed line need not be the first line of the chunk: whole
    messages fed in one call. *)
Lemma malformed_lines_in_whole_messages :
  HTTPParser_feed (RequestParser_init StringIO_new)
    (b "GET /index.html HTTP/1.1" ++ CRLF ++ b "Host example.com" ++ CRLF ++
     CRLF) = Raise ValueError /\
  HTTPParser_feed (RequestParser_init StringIO_new)
    (chunked_request_head ++ b "4" ++ CRLF ++ b "Wiki" ++ CRLF ++
     b "five" ++ CRLF ++ b "pedia" ++ CRLF ++ b "0" ++ CRLF ++ CRLF)
    = Raise ValueError /\
  HTTPParser_feed (RequestParser_init StringIO_new)
    (b "GET /index.html HTTP/1.1" ++ CRLF ++ b " folded" ++ CRLF ++ CRLF)
    = Raise IndexError.
Proof. repeat split; vm_compute; reflexivity. Qed.

(** ** C10: the line that ends a chunk *)

Lemma slice_to_all (x : str) : slice_to x (len x) = x.
Proof. rewrite <- (app_nil_r x) at 1. apply slice_to_app. Qed.

Lemma slice_from_all (x : str) : slice_from x (len x) = [].
Proof. rewrite <- (app_nil_r x) at 1. apply slice_from_app. Qed.

Lemma len_nonneg (x : str) : 0 <= len x.
Proof. unfold len. lia. Qed.

Lemma len_pos (x : str) : x <> [] -> 0 < len x.
Proof. destruct x; [congruence|]. unfold len. simpl length. lia. Qed.

Lemma firstn_succ_nonempty {A : Type} (n : nat) (l : list A) :
  l <> [] -> firstn (S n) l <> [].
Proof. destruct l; [congruence|]. simpl. discriminate. Qed.

(** [readline] returns at least one byte when the position is before the
    end of the contents. *)
Lemma readline_nonempty (f : StringIO) :
  (pos f < length (buf f))%nat -> fst (readline f) <> [].
Proof.
  intros Hlt. unfold readline. cbn [fst].
  assert (Hne : skipn (pos f) (buf f) <> []).
  { intros E. apply (f_equal (@length ascii)) in E.
    rewrite length_skipn in E. simpl in E. lia. }
  destruct (index_of (skipn (pos f) (buf f)) [LF]) as [i|].
  - replace (pos f + i + 1 - pos f)%nat with (S i) by lia.
    apply firstn_succ_nonempty, Hne.
  - destruct (length (buf f) - pos f)%nat eqn:E; [lia|].
    apply firstn_succ_nonempty, Hne.
Qed.

Lemma readline_buf (f : StringIO) : buf (snd (readline f)) = buf f.
Proof. reflexivity. Qed.

Section ChunkTerminator.

Context {H : Type} `{Header H}.

(** One round of the loop of [ChunkReader.feed] on a text that is not
    empty. *)
Lemma ChunkReader_feed_unfold (r : ChunkReader) (p : HTTPParser H) (text : str) :
  text <> [] ->
  ChunkReader_feed r p text =
  ('(text3, r3, p3) <- ChunkReader_round r p text ;;
   match ChunkReader_mode r3 with
   | Cend => Return (text3, r3, set_parser_mode p3 Pend)
   | _ => ChunkReader_feed_loop (pred (length text)) r3 p3 text3
   end).
Proof.
  destruct text as [|c t]; [congruence|]. intros _. reflexivity.
Qed.

Lemma ChunkReader_feed_loop_nil (fuel : nat) (r : ChunkReader)
    (p : HTTPParser H) :
  ChunkReader_feed_loop fuel r p [] = Return ([], r, p).
Proof. destruct fuel; reflexivity. Qed.

(** A complete line [junk ++ CRLF] given to [feed_line] is written to the
    buffer and comes back as a line that is not empty, whatever [junk] is. *)
Lemma feed_line_terminator (p : HTTPParser H) (junk : str) :
  (offset p <= pos (buffer p))%nat ->
  find (junk ++ CRLF) CRLF = len junk ->
  exists line p',
    HTTPParser_feed_line p (junk ++ CRLF) = (Some line, [], p') /\
    line <> [] /\
    HTTPParser_mode p' = HTTPParser_mode p /\
    header p' = header p /\
    buf (buffer p') = buf (write (buffer p) (junk ++ CRLF)).
Proof.
  intros Ho Hf. unfold HTTPParser_feed_line. rewrite Hf.
  pose proof (len_nonneg junk) as Hj.
  destruct (Z.ltb_spec (-1) (len junk)) as [_|]; [|lia].
  replace (len junk + 2) with (len (junk ++ CRLF))
    by (unfold len; rewrite length_app; simpl length; lia).
  rewrite slice_to_all, slice_from_all.
  set (f2 := seek (write (buffer p) (junk ++ CRLF)) (offset p)).
  assert (Hlt : (pos f2 < length (buf f2))%nat).
  { unfold f2. cbn [seek pos buf]. rewrite write_length.
    - rewrite length_app. simpl length. lia.
    - destruct junk; discriminate. }
  pose proof (readline_nonempty f2 Hlt) as Hline.
  pose proof (readline_buf f2) as Hbuf.
  destruct (readline f2) as [line f3]. cbn [fst snd] in Hline, Hbuf.
  exists line. eexists. split; [reflexivity|].
  cbn [HTTPParser_mode header buffer set_offset set_buffer].
  repeat split; assumption.
Qed.

(** C10.  A chunk reader in mode ['chunk'] that is fed exactly the
    [remaining] data bytes of the chunk followed by one complete line
    [junk ++ CRLF] takes the whole text, whatever the bytes [junk] before the
    CRLF are: nothing is raised, the bytes go into the buffer, and the
    reader is back in mode ['start'], waiting for the next chunk size.  The
    same holds when the data bytes were taken by an earlier call
    ([remaining] is 0) and the line comes alone. *)
Theorem chunk_terminator_unchecked (r : ChunkReader) (p : HTTPParser H)
    (data junk : str) :
  ChunkReader_mode r = Cchunk ->
  find (junk ++ CRLF) CRLF = len junk ->
  (ChunkReader_remaining r = len data -> data <> [] ->
   exists p',
     ChunkReader_feed r p (data ++ junk ++ CRLF) =
       Return ([], {| ChunkReader_mode := Cstart; ChunkReader_remaining := 0 |},
               p') /\
     HTTPParser_mode p' = HTTPParser_mode p /\
     header p' = header p /\
     buf (buffer p') = buf (write (write (buffer p) data) (junk ++ CRLF))) /\
  (ChunkReader_remaining r = 0 -> (offset p <= pos (buffer p))%nat ->
   exists p',
     ChunkReader_feed r p (junk ++ CRLF) =
       Return ([], {| ChunkReader_mode := Cstart; ChunkReader_remaining := 0 |},
               p') /\
     HTTPParser_mode p' = HTTPParser_mode p /\
     header p' = header p /\
     buf (buffer p') = buf (write (buffer p) (junk ++ CRLF))).
Proof.
  intros Hm Hf. split.
  - intros Hr Hd.
    assert (Hne : data ++ junk ++ CRLF <> []).
    { destruct data; [congruence | discriminate]. }
    rewrite ChunkReader_feed_unfold by exact Hne.
    unfold ChunkReader_round, ChunkReader_on_start. rewrite Hm. cbn [bind].
    unfold ChunkReader_on_chunk. rewrite Hm.
    apply nonempty_true in Hne. rewrite Hne.
    rewrite Hr. pose proof (len_pos data Hd) as Hpos.
    destruct (Z.ltb_spec 0 (len data)) as [_|]; [|lia].
    unfold HTTPParser_feed_length.
    rewrite slice_to_app, slice_from_app, Z.sub_diag.
    cbn [set_remaining ChunkReader_remaining Z.eqb].
    set (p1 := set_offset (set_buffer p (write (buffer p) data))
                 (tell (write (buffer p) data))).
    destruct (feed_line_terminator p1 junk)
      as (line & p' & E & Hl & Hm' & Hh & Hb);
      [unfold p1, tell; cbn [offset buffer set_offset set_buffer]; lia
      | exact Hf |].
    rewrite E. destruct line as [|c line]; [congruence|].
    cbn [truthy set_chunk_mode ChunkReader_mode ChunkReader_remaining].
    unfold ChunkReader_on_trailer.
    cbn [set_chunk_mode ChunkReader_mode ChunkReader_remaining bind].
    rewrite ChunkReader_feed_loop_nil.
    exists p'. split; [reflexivity|]. repeat split; assumption.
  - intros Hr Ho.
    assert (Hne : junk ++ CRLF <> []) by (destruct junk; discriminate).
    rewrite ChunkReader_feed_unfold by exact Hne.
    unfold ChunkReader_round, ChunkReader_on_start. rewrite Hm. cbn [bind].
    unfold ChunkReader_on_chunk. rewrite Hm.
    apply nonempty_true in Hne. rewrite Hne.
    rewrite Hr. cbn [Z.ltb Z.compare set_remaining ChunkReader_remaining Z.eqb].
    destruct (feed_line_terminator p junk Ho Hf)
      as (line & p' & E & Hl & Hm' & Hh & Hb).
    rewrite E. destruct line as [|c line]; [congruence|].
    cbn [truthy set_chunk_mode ChunkReader_mode ChunkReader_remaining].
    unfold ChunkReader_on_trailer.
    cbn [set_chunk_mode ChunkReader_mode ChunkReader_remaining bind].
    rewrite ChunkReader_feed_loop_nil.
    exists p'. split; [reflexivity|]. repeat split; assumption.
Qed.

End ChunkTerminator.

Lemma chunk_terminator_unchecked_witness :
  (exists p',
     ChunkReader_feed
       {| ChunkReader_mode := Cchunk; ChunkReader_remaining := 4 |}
       (set_parser_mode (RequestParser_init StringIO_new) Pbody)
       (b "Wiki" ++ b "not a terminator" ++ CRLF) =
     Return ([], {| ChunkReader_mode := Cstart; ChunkReader_remaining := 0 |},
             p') /\
     HTTPParser_mode p' = Pbody /\
     buf (buffer p') = b "Wikinot a terminator" ++ CRLF) /\
  (exists p',
     ChunkReader_feed
       {| ChunkReader_mode := Cchunk; ChunkReader_remaining := 0 |}
       (set_parser_mode (RequestParser_init StringIO_new) Pbody)
       (b "not a terminator" ++ CRLF) =
     Return ([], {| ChunkReader_mode := Cstart; ChunkReader_remaining := 0 |},
             p') /\
     HTTPParser_mode p' = Pbody /\
     buf (buffer p') = b "not a terminator" ++ CRLF).
Proof.
  split.
  - destruct (chunk_terminator_unchecked
                {| ChunkReader_mode := Cchunk; ChunkReader_remaining := 4 |}
                (set_parser_mode (RequestParser_init StringIO_new) Pbody)
                (b "Wiki") (b "not a terminator") eq_refl eq_refl)
      as (P & _).
    destruct P as (p' & E & Hm & _ & Hb); [reflexivity | discriminate |].
    exists p'. split; [exact E|]. split; [exact Hm|]. exact Hb.
  - destruct (chunk_terminator_unchecked
                {| ChunkReader_mode := Cchunk; ChunkReader_remaining := 0 |}
                (set_parser_mode (RequestParser_init StringIO_new) Pbody)
                [] (b "not a terminator") eq_refl eq_refl)
      as (_ & P).
    destruct P as (p' & E & Hm & _ & Hb); [reflexivity | simpl; lia |].
    exists p'. split; [exact E|]. split; [exact Hm|]. exact Hb.
Defined.

(** ** C7: the chunked example *)

(** C7 (as the code has it).  A request parser that has read a header block
    with [Transfer-Encoding: chunked] and is then fed
    ["4\r\nWiki\r\n5\r\npedia\r\n0\r\n\r\n"] ends in mode ['end'] with nothing
    left over; the bytes in the buffer after the body offset are the fed
    bytes as they came, chunk-size lines and CRLFs included.  The same holds
    when head and body come in one chunk. *)
Theorem chunked_example_raw :
  rmap (fun p => (HTTPParser_mode p, HTTPParser_complete p, body_offset p,
                  body_bytes p))
       (feed_each HTTPParser_feed (RequestParser_init StringIO_new)
          [chunked_request_head; wikipedia_chunks])
    = Return (Pend, true, 53, wikipedia_chunks) /\
  rmap (fun '(text, p) => (text, HTTPParser_mode p, body_bytes p))
       (HTTPParser_feed (RequestParser_init StringIO_new)
          (chunked_request_head ++ wikipedia_chunks))
    = Return ([], Pend, wikipedia_chunks).
Proof. split; vm_compute; reflexivity. Qed.

(** C7 as stated fails: the bytes after the body offset are not
    ["Wikipedia"]. *)
Lemma chunked_example_not_decoded :
  rmap body_bytes
       (feed_each HTTPParser_feed (RequestParser_init StringIO_new)
          [chunked_request_head; wikipedia_chunks])
    <> Return (b "Wikipedia").
Proof. vm_compute. discriminate. Qed.

(** ** C1: one byte per [feed] call *)

Section Bytewise.

Context {H : Type} `{Header H}.

(** A chunk of one byte cannot contain the two bytes of CRLF: in mode
    ['start'] it is written to the buffer and no line is looked for. *)
Lemma feed_one_byte_start (p : HTTPParser H) (c : ascii) :
  HTTPParser_mode p = Pstart ->
  HTTPParser_feed p [c] = Return ([], set_buffer p (write (buffer p) [c])).
Proof.
  intros Hm. unfold HTTPParser_feed, HTTPParser_on_start, HTTPParser_on_headers,
    HTTPParser_on_body. rewrite Hm.
  cbn [nonempty andb parser_mode_eqb]. unfold HTTPParser_feed_start,
    HTTPParser_feed_line. rewrite find_single. reflexivity.
Qed.

(** Fed one byte per call, a parser never leaves mode ['start']: its header
    stays as it was created, and the bytes only pile up in the buffer. *)
Lemma bytewise_never_parses (text : str) (p : HTTPParser H) :
  HTTPParser_mode p = Pstart ->
  exists p',
    feed_each HTTPParser_feed p (bytewise text) = Return p' /\
    HTTPParser_mode p' = Pstart /\ header p' = header p /\
    offset p' = offset p /\ body_offset p' = body_offset p /\
    body_reader p' = body_reader p.
Proof.
  revert p. induction text as [|c text IH]; intros p Hm.
  - exists p. simpl. repeat split; auto.
  - cbn [bytewise map feed_each]. rewrite feed_one_byte_start by exact Hm.
    cbn [bind]. fold (bytewise text).
    destruct (IH (set_buffer p (write (buffer p) [c])) Hm)
      as (p' & E & Hm' & Hh & Ho & Hb & Hr).
    exists p'. simpl in *. repeat split; auto.
Qed.

(** Into a buffer that is written at its end, the bytes go one after the
    other: after the calls the buffer holds the stream, unparsed. *)
Lemma bytewise_buffer (text : str) (p : HTTPParser H) :
  HTTPParser_mode p = Pstart ->
  pos (buffer p) = length (buf (buffer p)) ->
  exists p',
    feed_each HTTPParser_feed p (bytewise text) = Return p' /\
    buf (buffer p') = buf (buffer p) ++ text /\
    HTTPParser_complete p' = false.
Proof.
  revert p. induction text as [|c text IH]; intros p Hm Hp.
  - exists p. simpl. rewrite app_nil_r. unfold HTTPParser_complete.
    rewrite Hm. auto.
  - cbn [bytewise map feed_each]. rewrite feed_one_byte_start by exact Hm.
    cbn [bind]. fold (bytewise text).
    destruct (IH (set_buffer p (write (buffer p) [c]))) as (p' & E & Hb & Hc).
    + exact Hm.
    + cbn [set_buffer buffer]. rewrite write_at_end by exact Hp.
      cbn [buf pos]. rewrite length_app. reflexivity.
    + exists p'. split; [exact E|]. split; [|exact Hc].
      rewrite Hb. cbn [set_buffer buffer]. rewrite write_at_end by exact Hp.
      cbn [buf]. rewrite <- app_assoc. reflexivity.
Qed.

End Bytewise.

(** C1 (failing input).  The request [get_request] fed in one call is parsed
    to the end: method, target, version and the [Host] field are in the
    header.  The same bytes fed one per call leave the parser in mode
    ['start'] with the header it was created with: no start line, no field. *)
Theorem bytewise_differs_from_whole :
  rmap (fun p => (HTTPParser_mode p, method (header p),
                  headers (RequestHeader_base (header p))))
       (feed_each HTTPParser_feed (RequestParser_init StringIO_new)
          [get_request])
    = Return (Pend, b "GET", [(b "Host", b "example.com")]) /\
  rmap (fun p => (HTTPParser_mode p, method (header p),
                  headers (RequestHeader_base (header p))))
       (feed_each HTTPParser_feed (RequestParser_init StringIO_new)
          (bytewise get_request))
    = Return (Pstart, [], []).
Proof. split; vm_compute; reflexivity. Qed.

(** ** C4 and C8: interim responses *)

Section Interim.

Context `{Semantics}.

(** What [ResponseParser.feed] does with a completed interim response: the
    header goes to the end of [interim], a new header for the same request
    takes its place, the parser is back in mode ['start'] without a body
    reader, and the rest of the text is fed once more. *)
Lemma ResponseParser_feed_absorbs (rp : ResponseParser)
    (text rest : str) (p : HTTPParser ResponseHeader) :
  HTTPParser_feed (parser rp) text = Return (rest, p) ->
  HTTPParser_complete p = true -> is_Continue (header p) = true ->
  ResponseParser_feed rp text =
  ('(text', p') <- HTTPParser_feed (reset_parser p) rest ;;
   Return (text', {| interim := interim rp ++ [header p]; parser := p' |})).
Proof.
  intros E Hc Hi. unfold ResponseParser_feed. rewrite E. cbn [bind].
  rewrite Hc, Hi. reflexivity.
Qed.

(** Without a completed interim response, [ResponseParser.feed] is
    [HTTPParser.feed]. *)
Lemma ResponseParser_feed_plain (rp : ResponseParser)
    (text rest : str) (p : HTTPParser ResponseHeader) :
  HTTPParser_feed (parser rp) text = Return (rest, p) ->
  HTTPParser_complete p && is_Continue (header p) = false ->
  ResponseParser_feed rp text =
  Return (rest, {| interim := interim rp; parser := p |}).
Proof.
  intros E Hc. unfold ResponseParser_feed. rewrite E. cbn [bind].
  rewrite Hc. reflexivity.
Qed.

End Interim.

(** One interim response before the final one, in one chunk: the interim
    header is archived and the final response is parsed to its end. *)
Lemma one_interim_response :
  rmap (fun '(text, rp) => (text, observe_response rp, body_bytes (parser rp)))
       (@ResponseParser_feed http_semantics
          (@ResponseParser_init StringIO_new get_request_header)
          (continue_response ++ ok_response))
    = Return ([], (Pend, [Some 100], Some 200), b "ok").
Proof. vm_compute. reflexivity. Qed.

(** C4 (failing input).  Two interim responses and the final response in one
    chunk: the call archives the first interim header only.  It returns with
    the second interim response as the parser's completed message (mode
    ['end'], code 100, not in [interim]) and hands the final response back
    as leftover. *)
Theorem two_interim_responses_one_feed :
  rmap (fun '(text, rp) => (text, observe_response rp))
       (@ResponseParser_feed http_semantics
          (@ResponseParser_init StringIO_new get_request_header)
          (continue_response ++ continue_response ++ ok_response))
    = Return (ok_response, (Pend, [Some 100], Some 100)).
Proof. vm_compute. reflexivity. Qed.

(** ** C8: [feed] with an empty chunk *)

Section EmptyFeed.

Context {H : Type} `{Header H}.

(** [HTTPParser.feed("")] does nothing, in every state. *)
Lemma HTTPParser_feed_empty (p : HTTPParser H) :
  HTTPParser_feed p [] = Return ([], p).
Proof. reflexivity. Qed.

End EmptyFeed.

Section EmptyFeedResponse.

Context `{Semantics}.

(** [ResponseParser.feed("")] does nothing unless the parser holds a
    completed response with the code [Continue]. *)
Lemma ResponseParser_feed_empty (rp : ResponseParser) :
  HTTPParser_complete (parser rp) && is_Continue (header (parser rp)) = false ->
  ResponseParser_feed rp [] = Return ([], rp).
Proof.
  intros Hc. unfold ResponseParser_feed. rewrite HTTPParser_feed_empty.
  cbn [bind]. rewrite Hc. destruct rp; reflexivity.
Qed.

End EmptyFeedResponse.

(** C8 (failing input).  After one [feed] with two interim responses the
    response parser is complete, with the second interim response as its
    message; a further [feed("")] archives that header and puts the parser
    back in mode ['start'], so [complete()] is no longer true. *)
Theorem empty_feed_after_interim :
  rmap (fun rp => (HTTPParser_complete (parser rp), observe_response rp))
       (feed_each (@ResponseParser_feed http_semantics)
          (@ResponseParser_init StringIO_new get_request_header)
          [continue_response ++ continue_response])
    = Return (true, (Pend, [Some 100], Some 100)) /\
  rmap (fun rp => (HTTPParser_complete (parser rp), observe_response rp))
       (feed_each (@ResponseParser_feed http_semantics)
          (@ResponseParser_init StringIO_new get_request_header)
          [continue_response ++ continue_response; []])
    = Return (false, (Pstart, [Some 100; Some 100], None)).
Proof. split; vm_compute; reflexivity. Qed.

(** ** C6: the leftover of [feed] *)

(** C6 (failing input).  A blank line before the request: [feed] takes the
    blank line and returns the whole request as leftover, with the parser
    still in mode ['start'] and [complete()] false. *)
Theorem leading_blank_line_leftover :
  rmap (fun '(text, p) => (text, HTTPParser_mode p, HTTPParser_complete p))
       (HTTPParser_feed (RequestParser_init StringIO_new)
          (CRLF ++ get_request))
    = Return (get_request, Pstart, false).
Proof. vm_compute. reflexivity. Qed.

Section Leftover.

Context {H : Type} `{Header H}.

Lemma feed_headers_loop_leftover (fuel : nat) (p p' : HTTPParser H)
    (text rest : str) :
  feed_headers_loop fuel p text = Return (rest, p') ->
  rest = [] \/ HTTPParser_mode p' = Pbody.
Proof.
  revert p text. induction fuel as [|fuel IH]; intros p text E.
  - destruct text; simpl in E; [|discriminate]. injection E as <- _. auto.
  - destruct text as [|c t]; simpl in E.
    + injection E as <- _. auto.
    + destruct (HTTPParser_feed_line p (c :: t)) as [[[l|] t1] p1].
      * destruct (add_header (header p1) l) as [h| |]; cbn [bind] in E;
          try discriminate.
        destruct (str_eqb l CRLF).
        -- injection E as _ <-. right. reflexivity.
        -- eapply IH, E.
      * eapply IH, E.
Qed.

Lemma ChunkReader_feed_loop_leftover (fuel : nat) (r r' : ChunkReader)
    (p p' : HTTPParser H) (text rest : str) :
  ChunkReader_feed_loop fuel r p text = Return (rest, r', p') ->
  rest = [] \/ HTTPParser_mode p' = Pend.
Proof.
  revert r p text. induction fuel as [|fuel IH]; intros r p text E.
  - destruct text; simpl in E; [|discriminate]. injection E as <- _ _. auto.
  - destruct text as [|c t]; cbn [ChunkReader_feed_loop] in E.
    + injection E as <- _ _. auto.
    + destruct (ChunkReader_round r p (c :: t)) as [[[t3 r3] p3]| |];
        cbn [bind] in E; try discriminate.
      destruct (ChunkReader_mode r3); try (eapply IH, E).
      injection E as _ _ <-. right. reflexivity.
Qed.

(** [feed_length] leaves either no bytes to count or no text. *)
Lemma feed_length_leftover (p : HTTPParser H) (text : str) (n : Z) :
  0 < n ->
  0 < fst (fst (HTTPParser_feed_length p text n)) ->
  snd (fst (HTTPParser_feed_length p text n)) = [].
Proof.
  unfold HTTPParser_feed_length, slice_to, slice_from, len. cbn [fst snd].
  intros Hn. destruct (Z.ltb_spec n 0); [lia|].
  rewrite length_firstn. intros Hr. apply skipn_all2. lia.
Qed.

Lemma LengthReader_feed_leftover (r r' : LengthReader) (p p' : HTTPParser H)
    (text rest : str) :
  LengthReader_feed r p text = (rest, r', p') ->
  rest = [] \/ HTTPParser_mode p' = Pend.
Proof.
  unfold LengthReader_feed.
  destruct (Z.ltb_spec 0 (LengthReader_remaining r)) as [Hpos|Hle].
  - pose proof (feed_length_leftover p text _ Hpos) as Hl.
    destruct (HTTPParser_feed_length p text (LengthReader_remaining r))
      as [[rem t] p1]. cbn [fst snd] in Hl.
    destruct (Z.leb_spec rem 0); intros E; injection E as <- _ <-.
    + right. reflexivity.
    + left. apply Hl. lia.
  - destruct (Z.leb_spec (LengthReader_remaining r) 0); [|lia].
    intros E; injection E as _ _ <-. right. reflexivity.
Qed.

Lemma HTTPParser_on_body_leftover (p p' : HTTPParser H) (text rest : str) :
  HTTPParser_mode p = Pbody ->
  HTTPParser_on_body p text = Return (rest, p') ->
  rest = [] \/ HTTPParser_mode p' = Pend.
Proof.
  intros Hm. unfold HTTPParser_on_body. rewrite Hm. cbn [parser_mode_eqb].
  rewrite andb_true_r. destruct text as [|c t]; cbn [nonempty].
  { intros E; injection E as <- _. auto. }
  destruct (body_reader p) as [[r|r]|]; cbn [body_reader_feed].
  - unfold ChunkReader_feed.
    destruct (ChunkReader_feed_loop _ r p (c :: t)) as [[[t1 r1] p1]| |] eqn:E1;
      cbn [bind]; try discriminate.
    intros E; injection E as <- <-.
    apply ChunkReader_feed_loop_leftover in E1. exact E1.
  - destruct (LengthReader_feed r p (c :: t)) as [[t1 r1] p1] eqn:E1.
    intros E; injection E as <- <-.
    apply LengthReader_feed_leftover in E1. exact E1.
  - intros E; injection E as <- _. auto.
Qed.

Lemma enter_body_mode (p : HTTPParser H) :
  HTTPParser_mode p = Pbody ->
  HTTPParser_mode (enter_body p) = Pend \/
  HTTPParser_mode (enter_body p) = Pbody.
Proof.
  intros Hm. unfold enter_body. rewrite Hm.
  destruct (has_body (header p)); cbn [negb]; [|left; reflexivity].
  right. cbn [set_body_offset header].
  destruct (body_is_chunked (header p)); [exact Hm|].
  destruct (body_length (header p)); exact Hm.
Qed.

(** From mode ['headers'] or ['body'] on, a leftover that is not empty
    means that the message is complete. *)
Lemma feed_from_headers_leftover (p p' : HTTPParser H) (text rest : str) :
  HTTPParser_mode p = Pheaders \/ HTTPParser_mode p = Pbody ->
  ('(text, p) <- HTTPParser_on_headers p text ;; HTTPParser_on_body p text)
    = Return (rest, p') ->
  rest = [] \/ HTTPParser_mode p' = Pend.
Proof.
  intros [Hm|Hm]; unfold HTTPParser_on_headers; rewrite Hm;
    cbn [parser_mode_eqb].
  - rewrite andb_true_r. destruct text as [|c t]; cbn [nonempty bind].
    { intros E; injection E as <- _. auto. }
    unfold HTTPParser_feed_headers.
    destruct (feed_headers_loop _ p (c :: t)) as [[t1 p1]| |] eqn:E1;
      cbn [bind]; try discriminate.
    apply feed_headers_loop_leftover in E1. destruct E1 as [-> | Hb].
    + intros E; injection E as <- _. auto.
    + destruct (enter_body_mode p1 Hb) as [He|He].
      * unfold HTTPParser_on_body. rewrite He. cbn [parser_mode_eqb].
        rewrite andb_false_r. intros E; injection E as _ <-. auto.
      * apply HTTPParser_on_body_leftover, He.
  - rewrite andb_false_r. cbn [bind].
    apply HTTPParser_on_body_leftover, Hm.
Qed.

(** What holds of the leftover of [feed] in place of C6: when [feed]
    returns a leftover that is not empty, on return the parser is in mode
    ['end'], or it was and still is in mode ['start'] (a blank line before
    the start line was taken off the chunk), or it was closed before, is in
    mode ['incomplete'] and the call did nothing. *)
Lemma feed_leftover (p p' : HTTPParser H) (text rest : str) :
  HTTPParser_feed p text = Return (rest, p') -> rest <> [] ->
  HTTPParser_complete p' = true \/
  (HTTPParser_mode p = Pstart /\ HTTPParser_mode p' = Pstart) \/
  (HTTPParser_mode p = Pincomplete /\ p' = p /\ rest = text).
Proof.
  unfold HTTPParser_feed, HTTPParser_complete. intros E Hne.
  destruct (HTTPParser_mode p) eqn:Hm.
  - (* start *)
    unfold HTTPParser_on_start in E. rewrite Hm in E.
    cbn [parser_mode_eqb] in E. rewrite andb_true_r in E.
    destruct text as [|c t]; cbn [nonempty] in E.
    { cbn in E. injection E as <- _. congruence. }
    unfold HTTPParser_feed_start in E.
    pose proof (feed_line_header p (c :: t)) as (_ & Hm1 & _).
    destruct (HTTPParser_feed_line p (c :: t)) as [[[l|] t1] p1];
      cbn [snd] in Hm1; rewrite Hm in Hm1.
    + destruct (str_eqb l CRLF); cbn [negb] in E.
      * cbn [bind] in E. unfold HTTPParser_on_headers, HTTPParser_on_body in E.
        rewrite Hm1 in E. cbn [parser_mode_eqb] in E.
        rewrite !andb_false_r in E. cbn [bind] in E. rewrite Hm1 in E.
        cbn [parser_mode_eqb] in E. rewrite andb_false_r in E.
        injection E as _ <-. right. left. auto.
      * destruct (set_start_line (header p1) l) as [h| |]; cbn [bind] in E;
          try discriminate.
        apply feed_from_headers_leftover in E; [|left; reflexivity].
        destruct E as [-> | ->]; [congruence | left; reflexivity].
    + cbn [bind] in E. unfold HTTPParser_on_headers, HTTPParser_on_body in E.
      rewrite Hm1 in E. cbn [parser_mode_eqb] in E.
      rewrite !andb_false_r in E. cbn [bind] in E. rewrite Hm1 in E.
      cbn [parser_mode_eqb] in E. rewrite andb_false_r in E.
      injection E as _ <-. right. left. auto.
  - (* headers *)
    unfold HTTPParser_on_start in E. rewrite Hm in E.
    cbn [parser_mode_eqb] in E. rewrite andb_false_r in E. cbn [bind] in E.
    apply feed_from_headers_leftover in E; [|left; exact Hm].
    destruct E as [-> | ->]; [congruence | left; reflexivity].
  - (* body *)
    unfold HTTPParser_on_start in E. rewrite Hm in E.
    cbn [parser_mode_eqb] in E. rewrite andb_false_r in E. cbn [bind] in E.
    apply feed_from_headers_leftover in E; [|right; exact Hm].
    destruct E as [-> | ->]; [congruence | left; reflexivity].
  - (* end *)
    unfold HTTPParser_on_start, HTTPParser_on_headers, HTTPParser_on_body in E.
    rewrite Hm in E. cbn [parser_mode_eqb] in E.
    rewrite !andb_false_r in E. cbn [bind] in E. rewrite Hm in E.
    cbn [parser_mode_eqb] in E. rewrite !andb_false_r in E. cbn [bind] in E.
    rewrite Hm in E. cbn [parser_mode_eqb] in E. rewrite andb_false_r in E.
    injection E as _ <-. left. rewrite Hm. reflexivity.
  - (* incomplete *)
    unfold HTTPParser_on_start, HTTPParser_on_headers, HTTPParser_on_body in E.
    rewrite Hm in E. cbn [parser_mode_eqb] in E.
    rewrite !andb_false_r in E. cbn [bind] in E. rewrite Hm in E.
    cbn [parser_mode_eqb] in E. rewrite !andb_false_r in E. cbn [bind] in E.
    rewrite Hm in E. cbn [parser_mode_eqb] in E. rewrite andb_false_r in E.
    injection E as <- <-. right. right. auto.
Qed.

End Leftover.

(** ** The bounds on the loops *)

Section Fuel.

Context {H : Type} `{Header H}.

Lemma slice_from_length_le (text : str) (n : Z) :
  (length (slice_from text n) <= length text)%nat.
Proof.
  unfold slice_from. destruct (n <? 0); rewrite length_skipn; lia.
Qed.

(** [feed_line] takes at least one byte off a text that is not empty. *)
Lemma feed_line_shorter (p : HTTPParser H) (text : str) :
  text <> [] ->
  (length (snd (fst (HTTPParser_feed_line p text))) < length text)%nat.
Proof.
  intros Hne.
  assert (0 < length text)%nat by (destruct text; simpl; [congruence|lia]).
  unfold HTTPParser_feed_line, find.
  destruct (index_of text CRLF) as [i|].
  - destruct (Z.ltb_spec (-1) (Z.of_nat i)); [|lia].
    destruct (readline _) as [l f]. cbn [fst snd]. unfold slice_from.
    destruct (Z.ltb_spec (Z.of_nat i + 2) 0); [lia|].
    rewrite length_skipn. lia.
  - destruct (Z.ltb_spec (-1) (-1)); [lia|]. cbn [fst snd length]. lia.
Qed.

Lemma feed_line_le (p : HTTPParser H) (text : str) :
  (length (snd (fst (HTTPParser_feed_line p text))) <= length text)%nat.
Proof.
  destruct text as [|c t].
  - cbn. lia.
  - apply Nat.lt_le_incl, feed_line_shorter. discriminate.
Qed.

Lemma fold_line_total (l : list (str * str)) (line : str) :
  fold_line l line <> Diverge.
Proof.
  unfold fold_line, pop. destruct (rev l); cbn [bind]; discriminate.
Qed.

Lemma parse_field_total (line : str) : parse_field line <> Diverge.
Proof.
  unfold parse_field.
  destruct (split ":"%char 1 line) as [|x [|y [|z l]]]; discriminate.
Qed.

Lemma resolve_fields_total (l : list (str * str)) (h : HTTPHeader) :
  resolve_fields h l <> Diverge.
Proof.
  revert h. induction l as [|nv l IH]; intros h; simpl; [discriminate|].
  unfold resolve_field.
  destruct (str_eqb (lower (fst nv)) (b "content-length")).
  - destruct (HTTPHeader_mode h); cbn [bind]; try apply IH.
    destruct (int (lower (snd nv)) 10); cbn [bind];
      [apply IH | discriminate].
  - cbn [bind]. apply IH.
Qed.

Lemma add_header_total (h : H) (line : str) : add_header h line <> Diverge.
Proof.
  unfold add_header, HTTPHeader_add_header.
  destruct (is_continuation line).
  - pose proof (fold_line_total (headers (base h)) line).
    destruct (fold_line (headers (base h)) line); cbn [bind];
      congruence.
  - destruct (str_eqb line CRLF).
    + pose proof (resolve_fields_total (headers (base h)) (base h)).
      destruct (resolve_fields (base h) (headers (base h))); cbn [bind];
        congruence.
    + pose proof (parse_field_total line).
      destruct (parse_field line); cbn [bind]; congruence.
Qed.

Lemma add_trailer_total (h : H) (line : str) : add_trailer h line <> Diverge.
Proof.
  unfold add_trailer, HTTPHeader_add_trailer.
  destruct (is_continuation line).
  - pose proof (fold_line_total (trailers (base h)) line).
    destruct (fold_line (trailers (base h)) line); cbn [bind];
      congruence.
  - destruct (str_eqb line CRLF); cbn [bind]; [discriminate|].
    pose proof (parse_field_total line).
    destruct (parse_field line); cbn [bind]; congruence.
Qed.

(** The bound of [feed_headers] is never reached. *)
Lemma feed_headers_loop_total (fuel : nat) (p : HTTPParser H) (text : str) :
  (length text <= fuel)%nat -> feed_headers_loop fuel p text <> Diverge.
Proof.
  revert p text. induction fuel as [|fuel IH]; intros p text Hl.
  - destruct text; simpl in *; [discriminate|lia].
  - destruct text as [|c t]; [discriminate|]. cbn [feed_headers_loop].
    pose proof (feed_line_shorter p (c :: t) ltac:(discriminate)) as Hs.
    simpl length in Hl, Hs.
    destruct (HTTPParser_feed_line p (c :: t)) as [[[l|] t1] p1];
      cbn [fst snd] in Hs.
    + pose proof (add_header_total (header p1) l) as Ht.
      destruct (add_header (header p1) l); cbn [bind];
        try discriminate; try congruence.
      destruct (str_eqb l CRLF); [discriminate|].
      apply IH. lia.
    + apply IH. lia.
Qed.

Lemma feed_headers_total (p : HTTPParser H) (text : str) :
  HTTPParser_feed_headers p text <> Diverge.
Proof. apply feed_headers_loop_total. lia. Qed.

(** [feed_length] with a positive count takes at least one byte off a text
    that is not empty. *)
Lemma feed_length_shorter (p : HTTPParser H) (text : str) (n : Z) :
  0 < n -> text <> [] ->
  (length (snd (fst (HTTPParser_feed_length p text n))) < length text)%nat.
Proof.
  intros Hn Hne.
  assert (0 < length text)%nat by (destruct text; simpl; [congruence|lia]).
  unfold HTTPParser_feed_length, slice_from. cbn [fst snd].
  destruct (Z.ltb_spec n 0); [lia|]. rewrite length_skipn. lia.
Qed.

(** The three branches of a round never add to the text. *)
Lemma ChunkReader_on_start_shorter (r r1 : ChunkReader) (p p1 : HTTPParser H)
    (text t1 : str) :
  ChunkReader_mode r = Cstart -> text <> [] ->
  ChunkReader_on_start r p text = Return (t1, r1, p1) ->
  (length t1 < length text)%nat.
Proof.
  intros Hm Hne. unfold ChunkReader_on_start. rewrite Hm.
  pose proof (feed_line_shorter p text Hne) as Hs.
  destruct (HTTPParser_feed_line p text) as [[[l|] t] q]; cbn [fst snd] in Hs.
  - destruct (int _ 16); [|discriminate].
    intros E; injection E as <- _ _. exact Hs.
  - intros E; injection E as <- _ _. exact Hs.
Qed.

Lemma ChunkReader_on_start_id (r : ChunkReader) (p : HTTPParser H) (text : str) :
  ChunkReader_mode r <> Cstart ->
  ChunkReader_on_start r p text = Return (text, r, p).
Proof.
  intros Hm. unfold ChunkReader_on_start.
  destruct (ChunkReader_mode r); congruence.
Qed.

Lemma ChunkReader_on_chunk_id (r : ChunkReader) (p : HTTPParser H) (text : str) :
  ChunkReader_mode r <> Cchunk ->
  ChunkReader_on_chunk r p text = (text, r, p).
Proof.
  intros Hm. unfold ChunkReader_on_chunk.
  destruct (ChunkReader_mode r); congruence.
Qed.

Lemma ChunkReader_on_trailer_id (r : ChunkReader) (p : HTTPParser H)
    (text : str) :
  ChunkReader_mode r <> Ctrailer ->
  ChunkReader_on_trailer r p text = Return (text, r, p).
Proof.
  intros Hm. unfold ChunkReader_on_trailer.
  destruct (ChunkReader_mode r); congruence.
Qed.

(** In mode ['chunk'] the branch takes bytes off the text and leaves the
    reader in mode ['chunk'] or ['start'], or it changes nothing because
    [remaining] is negative. *)
Lemma ChunkReader_on_chunk_progress (r r2 : ChunkReader)
    (p p2 : HTTPParser H) (text t2 : str) :
  ChunkReader_mode r = Cchunk -> text <> [] ->
  ChunkReader_on_chunk r p text = (t2, r2, p2) ->
  ((length t2 < length text)%nat /\ ChunkReader_mode r2 <> Ctrailer /\
   ChunkReader_mode r2 <> Cend) \/
  (ChunkReader_remaining r < 0 /\ t2 = text /\ r2 = r /\ p2 = p).
Proof.
  intros Hm Hne. unfold ChunkReader_on_chunk. rewrite Hm.
  apply nonempty_true in Hne as Hne'. rewrite Hne'.
  destruct (Z.ltb_spec 0 (ChunkReader_remaining r)) as [Hpos|Hle].
  - pose proof (feed_length_shorter p text _ Hpos Hne) as Hs.
    destruct (HTTPParser_feed_length p text (ChunkReader_remaining r))
      as [[rem t1] p1]. cbn [fst snd] in Hs.
    cbn [set_remaining ChunkReader_remaining].
    destruct (rem =? 0).
    + pose proof (feed_line_le p1 t1) as Hle1.
      destruct (HTTPParser_feed_line p1 t1) as [[eoc t3] p3].
      cbn [fst snd] in Hle1.
      intros E; injection E as <- <- _. left.
      destruct (truthy eoc); unfold set_chunk_mode, set_remaining;
        cbn [ChunkReader_mode]; rewrite ?Hm; repeat split; try lia;
        discriminate.
    + intros E; injection E as <- <- _. left.
      unfold set_remaining. cbn [ChunkReader_mode]. rewrite Hm.
      repeat split; try lia; discriminate.
  - cbn [set_remaining ChunkReader_remaining].
    destruct (Z.eqb_spec (ChunkReader_remaining r) 0) as [Hz|Hnz].
    + pose proof (feed_line_shorter p text Hne) as Hs.
      destruct (HTTPParser_feed_line p text) as [[eoc t3] p3].
      cbn [fst snd] in Hs.
      intros E; injection E as <- <- _. left.
      destruct (truthy eoc); unfold set_chunk_mode, set_remaining;
        cbn [ChunkReader_mode]; rewrite ?Hm; repeat split; try lia;
        discriminate.
    + intros E; injection E as <- <- <-. right.
      repeat split; try lia. destruct r; reflexivity.
Qed.

Lemma ChunkReader_on_chunk_le (r r2 : ChunkReader) (p p2 : HTTPParser H)
    (text t2 : str) :
  ChunkReader_on_chunk r p text = (t2, r2, p2) ->
  (length t2 <= length text)%nat.
Proof.
  intros E. destruct (ChunkReader_mode r) eqn:Hm;
    try (rewrite ChunkReader_on_chunk_id in E by congruence;
         injection E as <- _ _; lia).
  destruct text as [|c t].
  - unfold ChunkReader_on_chunk in E. rewrite Hm in E. cbn [nonempty] in E.
    injection E as <- _ _. lia.
  - destruct (ChunkReader_on_chunk_progress r r2 p p2 (c :: t) t2 Hm
                ltac:(discriminate) E) as [(Hl & _)|(_ & -> & _)]; lia.
Qed.

Lemma ChunkReader_on_trailer_le (r r3 : ChunkReader) (p p3 : HTTPParser H)
    (text t3 : str) :
  ChunkReader_on_trailer r p text = Return (t3, r3, p3) ->
  (length t3 <= length text)%nat /\
  (ChunkReader_mode r = Ctrailer -> text <> [] ->
   (length t3 < length text)%nat).
Proof.
  unfold ChunkReader_on_trailer.
  destruct (ChunkReader_mode r);
    try (intros E; injection E as <- _ _; split; [lia | discriminate]).
  destruct text as [|c t]; cbn [nonempty].
  { intros E; injection E as <- _ _. split; [lia | congruence]. }
  pose proof (feed_line_shorter p (c :: t) ltac:(discriminate)) as Hs.
  destruct (HTTPParser_feed_line p (c :: t)) as [[[l|] t1] p1];
    cbn [fst snd] in Hs.
  - destruct (add_trailer (header p1) l); cbn [bind]; try discriminate.
    intros E; injection E as <- _ _. split; [lia | intros; exact Hs].
  - intros E; injection E as <- _ _. split; [lia | intros; exact Hs].
Qed.

(** A round of the chunk reader's loop on a text that is not empty takes
    bytes off the text, or ends in mode ['end'], or changes nothing at all;
    the last happens in mode ['chunk'] with a negative [remaining]. *)
Lemma ChunkReader_round_progress (r r' : ChunkReader) (p p' : HTTPParser H)
    (text text' : str) :
  text <> [] ->
  ChunkReader_round r p text = Return (text', r', p') ->
  (length text' < length text)%nat \/
  ChunkReader_mode r' = Cend \/
  (ChunkReader_mode r = Cchunk /\ ChunkReader_remaining r < 0 /\
   text' = text /\ r' = r /\ p' = p).
Proof.
  intros Hne. unfold ChunkReader_round.
  destruct (ChunkReader_mode r) eqn:Hm.
  - (* start *)
    destruct (ChunkReader_on_start r p text) as [[[t1 r1] p1]| |] eqn:E1;
      cbn [bind]; try discriminate.
    apply ChunkReader_on_start_shorter in E1; [|exact Hm|exact Hne].
    destruct (ChunkReader_on_chunk r1 p1 t1) as [[t2 r2] p2] eqn:E2.
    apply ChunkReader_on_chunk_le in E2.
    intros E3. apply ChunkReader_on_trailer_le in E3. left. lia.
  - (* chunk *)
    rewrite ChunkReader_on_start_id by congruence. cbn [bind].
    destruct (ChunkReader_on_chunk r p text) as [[t2 r2] p2] eqn:E2.
    destruct (ChunkReader_on_chunk_progress _ _ _ _ _ _ Hm Hne E2)
      as [(Hl & Hnt & _)|(Hneg & -> & -> & ->)].
    + intros E3. apply ChunkReader_on_trailer_le in E3. left. lia.
    + rewrite ChunkReader_on_trailer_id by congruence.
      intros E; injection E as <- <- <-. right. right. auto.
  - (* trailer *)
    rewrite ChunkReader_on_start_id by congruence. cbn [bind].
    rewrite ChunkReader_on_chunk_id by congruence.
    intros E3. apply ChunkReader_on_trailer_le in E3. left.
    apply E3; assumption.
  - (* end *)
    rewrite ChunkReader_on_start_id by congruence. cbn [bind].
    rewrite ChunkReader_on_chunk_id by congruence.
    rewrite ChunkReader_on_trailer_id by congruence.
    intros E; injection E as _ <- _. right. left. exact Hm.
Qed.

(** In mode ['chunk'] with a negative [remaining] the loop never ends:
    whatever the bound, it runs out. *)
Lemma ChunkReader_feed_loop_spin (fuel : nat) (r : ChunkReader)
    (p : HTTPParser H) (text : str) :
  ChunkReader_mode r = Cchunk -> ChunkReader_remaining r < 0 ->
  text <> [] ->
  ChunkReader_feed_loop fuel r p text = Diverge.
Proof.
  intros Hm Hneg Hne. induction fuel as [|fuel IH];
    destruct text as [|c t]; try congruence; [reflexivity|].
  cbn [ChunkReader_feed_loop]. unfold ChunkReader_round.
  rewrite ChunkReader_on_start_id by congruence. cbn [bind].
  unfold ChunkReader_on_chunk. rewrite Hm. cbn [nonempty].
  destruct (Z.ltb_spec 0 (ChunkReader_remaining r)); [lia|].
  cbn [set_remaining ChunkReader_remaining].
  destruct (Z.eqb_spec (ChunkReader_remaining r) 0); [lia|].
  replace (set_remaining r (ChunkReader_remaining r)) with r
    by (destruct r; reflexivity).
  rewrite ChunkReader_on_trailer_id by congruence.
  cbn [bind]. rewrite Hm. exact IH.
Qed.

(** The bound [length text] of [ChunkReader.feed] is enough: a larger
    bound gives the same result, [Diverge] included. *)
Lemma ChunkReader_feed_loop_fuel (fuel1 fuel2 : nat) (r : ChunkReader)
    (p : HTTPParser H) (text : str) :
  (length text <= fuel1)%nat -> (length text <= fuel2)%nat ->
  ChunkReader_feed_loop fuel1 r p text = ChunkReader_feed_loop fuel2 r p text.
Proof.
  revert fuel2 r p text. induction fuel1 as [|fuel1 IH];
    intros fuel2 r p text H1 H2.
  - destruct text; simpl in H1; [|lia]. destruct fuel2; reflexivity.
  - destruct text as [|c t]; [destruct fuel2; reflexivity|].
    destruct fuel2 as [|fuel2]; [simpl in H2; lia|].
    cbn [ChunkReader_feed_loop].
    destruct (ChunkReader_round r p (c :: t)) as [[[t3 r3] p3]| |] eqn:E;
      cbn [bind]; try reflexivity.
    assert (Hne : c :: t <> []) by discriminate.
    destruct (ChunkReader_round_progress _ _ _ _ _ _ Hne E)
      as [Hl|[He|(Hm & Hneg & -> & -> & ->)]].
    + simpl length in *.
      destruct (ChunkReader_mode r3); try reflexivity; apply IH; lia.
    + rewrite He. reflexivity.
    + rewrite Hm.
      rewrite !ChunkReader_feed_loop_spin by (auto; discriminate).
      reflexivity.
Qed.

(** [ChunkReader.feed] is the loop run with any bound of at least
    [length text] rounds. *)
Lemma ChunkReader_feed_fuel (fuel : nat) (r : ChunkReader) (p : HTTPParser H)
    (text : str) :
  (length text <= fuel)%nat ->
  ChunkReader_feed_loop fuel r p text = ChunkReader_feed r p text.
Proof.
  intros Hl. unfold ChunkReader_feed. apply ChunkReader_feed_loop_fuel; lia.
Qed.

End Fuel.

(** * Further properties of the code *)

(** ** [HTTPParser.feed_line]: lines across chunks *)

Lemma startswith_split (s pre : str) :
  startswith s pre = true -> s = pre ++ skipn (length pre) s.
Proof.
  revert s. induction pre as [|c pre IH]; intros s; [reflexivity|].
  destruct s as [|d s]; simpl; [discriminate|].
  destruct (Ascii.eqb_spec c d) as [->|]; [|discriminate].
  simpl. intros E. rewrite <- (IH s E). reflexivity.
Qed.

(** The index [find] returns is the place of an occurrence. *)
Lemma index_of_split (s sub : str) (n : nat) :
  index_of s sub = Some n ->
  s = firstn n s ++ sub ++ skipn (n + length sub) s.
Proof.
  revert n. induction s as [|c s IH]; intros n; cbn [index_of].
  - destruct (startswith [] sub) eqn:E; intros E'; [|discriminate E'].
    injection E' as <-. apply startswith_split in E. exact E.
  - destruct (startswith (c :: s) sub) eqn:E.
    + intros E'. injection E' as <-. apply startswith_split in E. exact E.
    + destruct (index_of s sub) as [m|]; intros E'; [|discriminate E'].
      injection E' as <-. cbn [firstn app Nat.add skipn]. f_equal.
      apply IH. reflexivity.
Qed.

Lemma startswith_nil (s : str) : startswith s [] = true.
Proof. destruct s; reflexivity. Qed.

Lemma index_of_char (l r : str) (c : ascii) :
  ~ In c l -> index_of (l ++ c :: r) [c] = Some (length l).
Proof.
  induction l as [|d l IH]; intros Hn.
  - cbn [app index_of startswith].
    rewrite Ascii.eqb_refl, startswith_nil. reflexivity.
  - cbn [app index_of startswith].
    destruct (Ascii.eqb_spec c d) as [->|_]; [exfalso; apply Hn; left; auto|].
    cbn [andb]. rewrite IH by (intros Hi; apply Hn; right; exact Hi).
    reflexivity.
Qed.

Section Lines.

Context {H : Type} `{Header H}.

Lemma write_append (p : HTTPParser H) (s : str) :
  at_end p ->
  write (buffer p) s =
  {| buf := buf (buffer p) ++ s; pos := length (buf (buffer p) ++ s) |}.
Proof.
  intros [Hp _]. rewrite write_at_end by exact Hp. rewrite length_app.
  reflexivity.
Qed.

Lemma at_end_append (p : HTTPParser H) (s : str) :
  at_end p -> at_end (append_to_buffer p s) /\
  pending (append_to_buffer p s) = pending p ++ s.
Proof.
  intros [Hp Ho]. unfold at_end, pending, append_to_buffer.
  cbn [buffer set_buffer buf pos offset]. rewrite length_app.
  repeat split; try lia.
  rewrite skipn_app. replace (offset p - length (buf (buffer p)))%nat with 0%nat
    by lia. reflexivity.
Qed.

Lemma at_end_take_line (p : HTTPParser H) (s : str) :
  at_end (take_line p s) /\ pending (take_line p s) = [].
Proof.
  unfold at_end, pending, take_line, append_to_buffer.
  cbn [buffer set_buffer set_offset buf pos offset].
  repeat split; try lia. apply skipn_all.
Qed.

(** A chunk without CRLF is only stored: no line comes back, the text is
    used up, and the bytes wait in the buffer behind the line cursor. *)
Lemma feed_line_buffers (p : HTTPParser H) (text : str) :
  at_end p -> index_of text CRLF = None ->
  HTTPParser_feed_line p text = (None, [], append_to_buffer p text).
Proof.
  intros Ha Hi. unfold HTTPParser_feed_line, find. rewrite Hi.
  destruct (Z.ltb_spec (-1) (-1)); [lia|].
  rewrite write_append by exact Ha. reflexivity.
Qed.

(** A chunk with a CRLF ends the line that the earlier chunks began: the
    line that comes back is the waiting bytes followed by the chunk up to
    and including its first CRLF, and the rest of the chunk is the leftover. *)
Lemma feed_line_reassembles (p : HTTPParser H) (text : str) (n : nat) :
  at_end p -> index_of text CRLF = Some n ->
  ~ In LF (pending p) -> ~ In LF (firstn n text) ->
  HTTPParser_feed_line p text =
  (Some (pending p ++ firstn n text ++ CRLF), skipn (n + 2) text,
   take_line p (firstn n text ++ CRLF)).
Proof.
  intros Ha Hi Hp Ht. pose proof Ha as [Hpos Hoff].
  pose proof (index_of_split _ _ _ Hi) as Hs. cbn [length CRLF] in Hs.
  assert (Hn : (n <= length text)%nat).
  { destruct (Nat.le_gt_cases n (length text)) as [|Hgt]; [assumption|].
    exfalso. apply (f_equal (@length ascii)) in Hs.
    rewrite !length_app, length_firstn in Hs. simpl length in Hs. lia. }
  assert (Hseg : firstn (n + 2) text = firstn n text ++ CRLF).
  { rewrite Hs at 1. rewrite firstn_app, length_firstn.
    replace (Nat.min n (length text)) with n by lia.
    rewrite firstn_all2 by (rewrite length_firstn; lia).
    replace (n + 2 - n)%nat with 2%nat by lia. reflexivity. }
  unfold HTTPParser_feed_line, find. rewrite Hi.
  destruct (Z.ltb_spec (-1) (Z.of_nat n)); [|lia].
  unfold slice_to, slice_from.
  destruct (Z.ltb_spec (Z.of_nat n + 2) 0); [lia|].
  replace (Z.to_nat (Z.of_nat n + 2)) with (n + 2)%nat by lia.
  rewrite Hseg, write_append by exact Ha.
  unfold readline, seek. cbn [buf pos].
  set (seg := firstn n text ++ CRLF).
  assert (Hsk : skipn (offset p) (buf (buffer p) ++ seg) = pending p ++ seg).
  { rewrite skipn_app.
    replace (offset p - length (buf (buffer p)))%nat with 0%nat by lia.
    reflexivity. }
  rewrite Hsk.
  assert (Hidx : index_of (pending p ++ seg) [LF] =
                 Some (length (pending p) + n + 1)%nat).
  { unfold seg, CRLF.
    replace (pending p ++ firstn n text ++ [CR; LF])
      with ((pending p ++ firstn n text ++ [CR]) ++ LF :: [])
      by (rewrite <- !app_assoc; reflexivity).
    rewrite index_of_char.
    - rewrite !length_app, length_firstn. simpl length. f_equal. lia.
    - rewrite !in_app_iff. intros [Hi1|[Hi2|[Hi3|[]]]]; auto.
      discriminate Hi3. }
  rewrite Hidx.
  assert (Hlen : length (pending p) = (length (buf (buffer p)) - offset p)%nat).
  { unfold pending. apply length_skipn. }
  replace (offset p + (length (pending p) + n + 1) + 1 - offset p)%nat
    with (length (pending p ++ seg))
    by (unfold seg; rewrite !length_app, length_firstn; simpl length; lia).
  rewrite firstn_all.
  unfold take_line, append_to_buffer, tell. cbn [buf pos buffer set_buffer].
  replace (offset p + (length (pending p) + n + 1) + 1)%nat
    with (length (buf (buffer p) ++ seg))
    by (unfold seg; rewrite !length_app, length_firstn; simpl length; lia).
  reflexivity.
Qed.

End Lines.

Section LinesAcrossChunks.

Context {H : Type} `{Header H}.

(** X1.  [feed_line] puts a line together that arrives in pieces.  On a
    parser that writes at the end of its buffer: a chunk without CRLF gives no
    line and no leftover, and its bytes wait behind the line cursor; a chunk
    with a CRLF gives the waiting bytes followed by the chunk up to its first
    CRLF as the line and the rest of the chunk as leftover, and then nothing
    waits any more (the bytes before the CRLF hold no bare line feed). *)
Theorem feed_line_across_chunks (p : HTTPParser H) (text : str) :
  at_end p ->
  (index_of text CRLF = None ->
   HTTPParser_feed_line p text = (None, [], append_to_buffer p text) /\
   at_end (append_to_buffer p text) /\
   pending (append_to_buffer p text) = pending p ++ text) /\
  (forall n, index_of text CRLF = Some n ->
   ~ In LF (pending p) -> ~ In LF (firstn n text) ->
   HTTPParser_feed_line p text =
     (Some (pending p ++ firstn n text ++ CRLF), skipn (n + 2) text,
      take_line p (firstn n text ++ CRLF)) /\
   at_end (take_line p (firstn n text ++ CRLF)) /\
   pending (take_line p (firstn n text ++ CRLF)) = []).
Proof.
  intros Ha. split.
  - intros Hi. split; [apply feed_line_buffers; assumption|].
    apply at_end_append, Ha.
  - intros n Hi Hp Ht. split; [apply feed_line_reassembles; assumption|].
    apply at_end_take_line.
Qed.

(** X2.  A chunk without CRLF never moves a parser that is in mode
    ['start'] or ['headers']: [feed] writes the chunk to the buffer, returns
    no leftover and leaves mode, header, line cursor and body reader as they
    were. *)
Theorem feed_without_crlf_only_buffers (p : HTTPParser H) (text : str) :
  HTTPParser_mode p = Pstart \/ HTTPParser_mode p = Pheaders ->
  text <> [] -> find text CRLF = -1 ->
  HTTPParser_feed p text =
  Return ([], set_buffer p (write (buffer p) text)).
Proof.
  intros Hm Hne Hf. destruct text as [|c t]; [congruence|].
  unfold HTTPParser_feed, HTTPParser_on_start, HTTPParser_on_headers,
    HTTPParser_on_body.
  destruct Hm as [Hm|Hm]; rewrite Hm; cbn [nonempty andb parser_mode_eqb bind].
  - unfold HTTPParser_feed_start, HTTPParser_feed_line. rewrite Hf.
    reflexivity.
  - unfold HTTPParser_feed_headers. cbn [length feed_headers_loop].
    unfold HTTPParser_feed_line. rewrite Hf.
    destruct (Z.ltb_spec (-1) (-1)); [lia|].
    destruct (length t); cbn [feed_headers_loop bind];
      unfold enter_body; cbn [HTTPParser_mode set_buffer]; rewrite Hm;
      reflexivity.
Qed.

(** X3.  A closed parser is inert.  After [close] the mode is ['end'] or
    ['incomplete']; a second [close] changes nothing, and [feed] changes
    nothing either and hands the whole text back. *)
Theorem closed_parser_is_inert (p : HTTPParser H) (text : str) :
  (HTTPParser_mode (HTTPParser_close p) = Pend \/
   HTTPParser_mode (HTTPParser_close p) = Pincomplete) /\
  HTTPParser_close (HTTPParser_close p) = HTTPParser_close p /\
  HTTPParser_feed (HTTPParser_close p) text =
    Return (text, HTTPParser_close p).
Proof.
  destruct p as [f o h bo m r].
  destruct m, r as [rd|]; unfold HTTPParser_close; cbn; auto;
    destruct text; auto.
Qed.

(** X4.  Whenever [feed] returns a leftover that is not empty, the parser
    is complete on return, or it was and still is in mode ['start'] (a blank
    line before the start line was taken off the chunk), or it was in mode
    ['incomplete'] and the call changed nothing. *)
Theorem feed_leftover_cases (p p' : HTTPParser H) (text rest : str) :
  HTTPParser_feed p text = Return (rest, p') -> rest <> [] ->
  HTTPParser_complete p' = true \/
  (HTTPParser_mode p = Pstart /\ HTTPParser_mode p' = Pstart) \/
  (HTTPParser_mode p = Pincomplete /\ p' = p /\ rest = text).
Proof. apply feed_leftover. Qed.

End LinesAcrossChunks.

Lemma feed_line_across_chunks_witness :
  let p := RequestParser_init StringIO_new in
  let p1 := append_to_buffer p (b "GET /index.html HT") in
  HTTPParser_feed_line p (b "GET /index.html HT") = (None, [], p1) /\
  HTTPParser_feed_line p1 (b "TP/1.1" ++ CRLF ++ b "Host: a") =
    (Some (b "GET /index.html HTTP/1.1" ++ CRLF), b "Host: a",
     take_line p1 (b "TP/1.1" ++ CRLF)).
Proof.
  intros p p1.
  assert (Ha : at_end p) by (split; simpl; lia).
  destruct (feed_line_across_chunks p (b "GET /index.html HT") Ha)
    as (B & _).
  destruct (B eq_refl) as (E1 & Ha1 & _).
  split; [exact E1|].
  destruct (feed_line_across_chunks p1 (b "TP/1.1" ++ CRLF ++ b "Host: a") Ha1)
    as (_ & L).
  apply (L 6%nat eq_refl).
  - intros Hin. vm_compute in Hin.
    repeat (destruct Hin as [Hin|Hin]; [discriminate Hin|]). exact Hin.
  - intros Hin. vm_compute in Hin.
    repeat (destruct Hin as [Hin|Hin]; [discriminate Hin|]). exact Hin.
Defined.

Lemma feed_without_crlf_only_buffers_witness :
  HTTPParser_feed (RequestParser_init StringIO_new) (b "GET /index.html HT")
  = Return ([], set_buffer (RequestParser_init StringIO_new)
                  (write StringIO_new (b "GET /index.html HT"))).
Proof.
  apply (feed_without_crlf_only_buffers (RequestParser_init StringIO_new)).
  - left. reflexivity.
  - discriminate.
  - reflexivity.
Defined.

Lemma feed_leftover_cases_witness :
  HTTPParser_complete
    (set_parser_mode
       (set_body_reader
          (set_parser_mode (RequestParser_init StringIO_new) Pbody)
          (Some (Length {| LengthReader_remaining := 0 |})))
       Pend) = true.
Proof.
  destruct (feed_leftover_cases
              (set_body_reader
                 (set_parser_mode (RequestParser_init StringIO_new) Pbody)
                 (Some (Length (LengthReader_init 0))))
              (set_parser_mode
                 (set_body_reader
                    (set_parser_mode (RequestParser_init StringIO_new) Pbody)
                    (Some (Length {| LengthReader_remaining := 0 |})))
                 Pend)
              (b "X") (b "X") eq_refl)
    as [E|[[E _]|[E _]]]; try discriminate E; try discriminate.
  exact E.
Defined.

(** ** Bodies with a length and bodies that end with the connection *)

Lemma write_nonempty (f : StringIO) (s : str) :
  s <> [] ->
  write f s =
  {| buf := firstn (pos f)
              (buf f ++ repeat NUL (pos f - length (buf f))) ++
            s ++
            skipn (pos f + length s)
              (buf f ++ repeat NUL (pos f - length (buf f)));
     pos := pos f + length s |}.
Proof. destruct s; [congruence | reflexivity]. Qed.

(** Two writes in a row are one write of the two strings. *)
Lemma write_write (f : StringIO) (a c : str) :
  write (write f a) c = write f (a ++ c).
Proof.
  destruct (list_eq_dec ascii_dec a []) as [->|Ha]; [reflexivity|].
  destruct (list_eq_dec ascii_dec c []) as [->|Hc];
    [rewrite app_nil_r; reflexivity|].
  assert (Hac : a ++ c <> []) by (destruct a; [congruence | discriminate]).
  rewrite (write_nonempty f a Ha), (write_nonempty f (a ++ c) Hac).
  rewrite (write_nonempty _ c Hc). cbn [buf pos].
  set (P := buf f ++ repeat NUL (pos f - length (buf f))).
  assert (HP : (pos f <= length P)%nat).
  { unfold P. rewrite length_app, repeat_length. lia. }
  assert (HL : length (firstn (pos f) P) = pos f).
  { rewrite length_firstn. lia. }
  replace (pos f + length a - length (firstn (pos f) P ++ a ++
             skipn (pos f + length a) P))%nat with 0%nat
    by (rewrite !length_app, HL; lia).
  cbn [repeat]. rewrite app_nil_r.
  f_equal; [|rewrite length_app; lia].
  rewrite (app_assoc (firstn (pos f) P) a).
  rewrite firstn_app, firstn_all2 by (rewrite length_app, HL; lia).
  rewrite length_app, HL.
  replace (pos f + length a - (pos f + length a))%nat with 0%nat by lia.
  cbn [firstn]. rewrite app_nil_r.
  rewrite skipn_app, length_app, HL.
  rewrite (skipn_all2 (firstn (pos f) P ++ a))
    by (rewrite length_app, HL; lia).
  cbn [app].
  replace (pos f + length a + length c - (pos f + length a))%nat
    with (length c) by lia.
  rewrite skipn_skipn, <- !app_assoc, length_app.
  do 3 f_equal. f_equal. lia.
Qed.

Lemma firstn_short (text : str) (n : nat) :
  (length text <= n)%nat -> firstn n text = text /\ skipn n text = [].
Proof. intros Hl. split; [apply firstn_all2 | apply skipn_all2]; exact Hl. Qed.

Section LengthBodies.

Context {H : Type} `{Header H}.

Lemma feed_in_body (p : HTTPParser H) (text : str) :
  HTTPParser_mode p = Pbody -> text <> [] ->
  HTTPParser_feed p text =
  match body_reader p with
  | Some rd => body_reader_feed rd p text
  | None => Return ([], set_buffer p (write (buffer p) text))
  end.
Proof.
  intros Hm Hne. destruct text as [|c t]; [congruence|].
  unfold HTTPParser_feed, HTTPParser_on_start, HTTPParser_on_headers,
    HTTPParser_on_body.
  repeat (rewrite Hm; cbn [nonempty andb parser_mode_eqb bind]).
  reflexivity.
Qed.

(** A text shorter than what remains is taken whole. *)
Lemma length_body_short (p : HTTPParser H) (r : LengthReader) (text : str) :
  HTTPParser_mode p = Pbody -> body_reader p = Some (Length r) ->
  text <> [] -> len text < LengthReader_remaining r ->
  HTTPParser_feed p text =
  Return ([],
          set_body_reader
            (set_offset (set_buffer p (write (buffer p) text))
               (pos (buffer p) + length text))
            (Some (Length {| LengthReader_remaining :=
                               LengthReader_remaining r - len text |}))).
Proof.
  intros Hm Hr Hne Hlt. rewrite feed_in_body by assumption. rewrite Hr.
  unfold body_reader_feed, LengthReader_feed, HTTPParser_feed_length,
    slice_to, slice_from, len in *.
  destruct (Z.ltb_spec 0 (LengthReader_remaining r)); [|lia].
  destruct (Z.ltb_spec (LengthReader_remaining r) 0); [lia|].
  destruct (firstn_short text (Z.to_nat (LengthReader_remaining r)))
    as [-> ->]; [lia|].
  destruct (Z.leb_spec
              (LengthReader_remaining r - Z.of_nat (length text)) 0); [lia|].
  unfold tell. rewrite write_pos. reflexivity.
Qed.

(** A text that reaches the end of the body is cut there. *)
Lemma length_body_full (p : HTTPParser H) (r : LengthReader) (text : str) :
  HTTPParser_mode p = Pbody -> body_reader p = Some (Length r) ->
  0 < LengthReader_remaining r -> LengthReader_remaining r <= len text ->
  HTTPParser_feed p text =
  Return (slice_from text (LengthReader_remaining r),
          set_body_reader
            (set_parser_mode
               (set_offset
                  (set_buffer p
                     (write (buffer p)
                        (slice_to text (LengthReader_remaining r))))
                  (pos (buffer p) + Z.to_nat (LengthReader_remaining r)))
               Pend)
            (Some (Length {| LengthReader_remaining := 0 |}))).
Proof.
  intros Hm Hr Hpos Hle.
  assert (Hne : text <> []).
  { intros ->. unfold len in Hle. simpl in Hle. lia. }
  rewrite feed_in_body by assumption. rewrite Hr.
  unfold body_reader_feed, LengthReader_feed, HTTPParser_feed_length.
  destruct (Z.ltb_spec 0 (LengthReader_remaining r)); [|lia].
  assert (Hlen : len (slice_to text (LengthReader_remaining r)) =
                 LengthReader_remaining r).
  { unfold slice_to, len in *.
    destruct (Z.ltb_spec (LengthReader_remaining r) 0); [lia|].
    rewrite length_firstn. lia. }
  rewrite Hlen, Z.sub_diag. cbn [Z.leb Z.compare].
  unfold tell. rewrite write_pos.
  replace (length (slice_to text (LengthReader_remaining r)))
    with (Z.to_nat (LengthReader_remaining r))
    by (unfold len in Hlen; lia).
  reflexivity.
Qed.

(** Nothing remains: the text is not touched. *)
Lemma length_body_done (p : HTTPParser H) (r : LengthReader) (text : str) :
  HTTPParser_mode p = Pbody -> body_reader p = Some (Length r) ->
  text <> [] -> LengthReader_remaining r <= 0 ->
  HTTPParser_feed p text =
  Return (text, set_body_reader (set_parser_mode p Pend) (Some (Length r))).
Proof.
  intros Hm Hr Hne Hle. rewrite feed_in_body by assumption. rewrite Hr.
  unfold body_reader_feed, LengthReader_feed.
  destruct (Z.ltb_spec 0 (LengthReader_remaining r)); [lia|].
  destruct (Z.leb_spec (LengthReader_remaining r) 0); [|lia].
  destruct r. reflexivity.
Qed.

(** X5.  A parser in mode ['body'] with a length reader takes exactly the
    bytes that remain.  A text shorter than [remaining] is written to the
    buffer whole, the count goes down by its length, and the mode stays
    ['body'] with no leftover.  A text that reaches the end is cut at
    [remaining]: the front goes to the buffer, the rest is the leftover, and
    the mode is ['end'].  When nothing remains (a length of 0 or less) the
    text comes back untouched and the mode is ['end']. *)
Theorem length_reader_takes_exactly (p : HTTPParser H) (r : LengthReader)
    (text : str) :
  HTTPParser_mode p = Pbody -> body_reader p = Some (Length r) ->
  text <> [] ->
  (len text < LengthReader_remaining r ->
   HTTPParser_feed p text =
   Return ([],
           set_body_reader
             (set_offset (set_buffer p (write (buffer p) text))
                (pos (buffer p) + length text))
             (Some (Length {| LengthReader_remaining :=
                                LengthReader_remaining r - len text |})))) /\
  (0 < LengthReader_remaining r -> LengthReader_remaining r <= len text ->
   HTTPParser_feed p text =
   Return (slice_from text (LengthReader_remaining r),
           set_body_reader
             (set_parser_mode
                (set_offset
                   (set_buffer p
                      (write (buffer p)
                         (slice_to text (LengthReader_remaining r))))
                   (pos (buffer p) + Z.to_nat (LengthReader_remaining r)))
                Pend)
             (Some (Length {| LengthReader_remaining := 0 |})))) /\
  (LengthReader_remaining r <= 0 ->
   HTTPParser_feed p text =
   Return (text, set_body_reader (set_parser_mode p Pend) (Some (Length r)))).
Proof.
  intros Hm Hr Hne. repeat split; intros.
  - apply length_body_short; assumption.
  - apply length_body_full; assumption.
  - apply length_body_done; assumption.
Qed.

(** X6.  Inside a body with a length or without a reader, chunk
    boundaries do not matter: when the first chunk does not reach the end of
    the body, feeding [a] and then [c] leaves the parser in the state, and
    returns the leftover, of feeding [a ++ c] at once. *)
Theorem body_chunks_compose (p : HTTPParser H) (a c : str) :
  HTTPParser_mode p = Pbody -> a <> [] -> c <> [] ->
  (body_reader p = None \/
   exists r, body_reader p = Some (Length r) /\
             len a < LengthReader_remaining r) ->
  exists p1,
    HTTPParser_feed p a = Return ([], p1) /\
    HTTPParser_feed p1 c = HTTPParser_feed p (a ++ c).
Proof.
  intros Hm Ha Hc [Hr|(r & Hr & Hlt)].
  - eexists. split.
    + rewrite feed_in_body by assumption. rewrite Hr. reflexivity.
    + rewrite !feed_in_body; try assumption.
      * unfold set_buffer.
        cbn [buffer pos offset header body_offset HTTPParser_mode body_reader].
        rewrite Hr, write_write. reflexivity.
      * destruct a; [congruence | discriminate].
  - eexists. split; [apply length_body_short; eassumption|].
    set (p1 := set_body_reader _ _).
    assert (Hm1 : HTTPParser_mode p1 = Pbody) by exact Hm.
    assert (Hac : a ++ c <> []) by (destruct a; [congruence | discriminate]).
    assert (Hlen : len (a ++ c) = len a + len c)
      by (unfold len; rewrite length_app; lia).
    destruct (Z.lt_ge_cases (len (a ++ c)) (LengthReader_remaining r))
      as [Hs|Hf].
    + rewrite (length_body_short p1 _ c Hm1 eq_refl Hc)
        by (cbn [LengthReader_remaining]; lia).
      rewrite (length_body_short p r (a ++ c) Hm Hr Hac Hs).
      unfold p1, set_body_reader, set_offset, set_buffer, set_parser_mode.
      cbn [buffer pos offset header body_offset HTTPParser_mode body_reader
        LengthReader_remaining].
      rewrite write_write, write_pos, length_app, Hlen, Nat.add_assoc,
        Z.sub_add_distr.
      reflexivity.
    + rewrite (length_body_full p1 _ c Hm1 eq_refl)
        by (cbn [LengthReader_remaining]; lia).
      rewrite (length_body_full p r (a ++ c) Hm Hr)
        by (unfold len in *; lia).
      unfold p1, set_body_reader, set_offset, set_buffer, set_parser_mode.
      cbn [buffer pos offset header body_offset HTTPParser_mode body_reader
        LengthReader_remaining].
      assert (Hk : (length a <= Z.to_nat (LengthReader_remaining r))%nat)
        by (unfold len in Hlt; lia).
      assert (Hto : slice_to (a ++ c) (LengthReader_remaining r) =
                    a ++ slice_to c (LengthReader_remaining r - len a)).
      { unfold slice_to, len.
        destruct (Z.ltb_spec (LengthReader_remaining r) 0);
          [unfold len in Hlt; lia|].
        destruct (Z.ltb_spec
                    (LengthReader_remaining r - Z.of_nat (length a)) 0);
          [unfold len in Hlt; lia|].
        rewrite firstn_app, firstn_all2 by exact Hk.
        do 2 f_equal. lia. }
      assert (Hfrom : slice_from (a ++ c) (LengthReader_remaining r) =
                      slice_from c (LengthReader_remaining r - len a)).
      { unfold slice_from, len.
        destruct (Z.ltb_spec (LengthReader_remaining r) 0);
          [unfold len in Hlt; lia|].
        destruct (Z.ltb_spec
                    (LengthReader_remaining r - Z.of_nat (length a)) 0);
          [unfold len in Hlt; lia|].
        rewrite skipn_app, skipn_all2 by exact Hk. cbn [app].
        f_equal. lia. }
      rewrite Hto, Hfrom, write_write, write_pos.
      replace (pos (buffer p) + length a +
               Z.to_nat (LengthReader_remaining r - len a))%nat
        with (pos (buffer p) + Z.to_nat (LengthReader_remaining r))%nat
        by (unfold len in *; lia).
      reflexivity.
Qed.

End LengthBodies.

Lemma length_reader_takes_exactly_witness :
  let p := set_body_reader
             (set_parser_mode (RequestParser_init StringIO_new) Pbody)
             (Some (Length (LengthReader_init 5))) in
  (exists p', HTTPParser_feed p (b "hel") = Return ([], p') /\
              HTTPParser_mode p' = Pbody) /\
  (exists p', HTTPParser_feed p (b "helloX") = Return (b "X", p') /\
              HTTPParser_mode p' = Pend /\ buf (buffer p') = b "hello").
Proof.
  intros p.
  destruct (length_reader_takes_exactly p (LengthReader_init 5) (b "hel")
              eq_refl eq_refl) as (S & _); [discriminate|].
  destruct (length_reader_takes_exactly p (LengthReader_init 5) (b "helloX")
              eq_refl eq_refl) as (_ & F & _); [discriminate|].
  split.
  - eexists. split; [apply S; reflexivity | reflexivity].
  - eexists. split; [apply F; [reflexivity | vm_compute; discriminate]|].
    split; reflexivity.
Defined.

Lemma body_chunks_compose_witness :
  let p := set_body_reader
             (set_parser_mode (RequestParser_init StringIO_new) Pbody)
             (Some (Length (LengthReader_init 5))) in
  exists p1,
    HTTPParser_feed p (b "hel") = Return ([], p1) /\
    HTTPParser_feed p1 (b "loX") = HTTPParser_feed p (b "hel" ++ b "loX").
Proof.
  intros p. apply (body_chunks_compose p (b "hel") (b "loX")).
  - reflexivity.
  - discriminate.
  - discriminate.
  - right. exists (LengthReader_init 5). split; reflexivity.
Defined.

(** ** Start lines, fields and trailers *)

Lemma partition_first (sep : ascii) (x y : str) :
  ~ In sep x -> partition sep (x ++ sep :: y) = Some (x, y).
Proof.
  induction x as [|c x IH]; intros Hn; cbn [app partition].
  - rewrite Ascii.eqb_refl. reflexivity.
  - destruct (Ascii.eqb_spec c sep) as [->|_];
      [exfalso; apply Hn; left; reflexivity|].
    rewrite IH by (intros Hi; apply Hn; right; exact Hi). reflexivity.
Qed.

Lemma lstrip_app (a c : str) :
  lstrip a <> [] -> lstrip (a ++ c) = lstrip a ++ c.
Proof.
  induction a as [|x a IH]; cbn [lstrip app]; [congruence|].
  destruct (isspace x); [exact IH | reflexivity].
Qed.

Lemma rstrip_app (x y : str) :
  rstrip y <> [] -> rstrip (x ++ y) = x ++ rstrip y.
Proof.
  unfold rstrip. intros Hy. rewrite rev_app_distr, lstrip_app.
  - rewrite rev_app_distr, rev_involutive. reflexivity.
  - intros E. apply Hy. rewrite E. reflexivity.
Qed.

Lemma rstrip_CRLF (y : str) : rstrip (y ++ CRLF) = rstrip y.
Proof. unfold rstrip. rewrite rev_app_distr. reflexivity. Qed.

(** The line [x ++ v ++ CRLF] without its trailing whitespace, for a [v]
    that does not end in whitespace. *)
Lemma rstrip_line (x v : str) :
  v <> [] -> rstrip v = v -> rstrip (x ++ v ++ CRLF) = x ++ v.
Proof.
  intros Hv Hr. rewrite rstrip_app; rewrite rstrip_CRLF, Hr;
    [reflexivity | exact Hv].
Qed.

Lemma split_three (m t v : str) :
  ~ In SP m -> ~ In SP t -> split SP 2 (m ++ SP :: t ++ SP :: v) = [m; t; v].
Proof.
  intros Hm Ht. cbn [split]. rewrite partition_first by exact Hm.
  rewrite partition_first by exact Ht. reflexivity.
Qed.

Lemma split_two (m t : str) :
  ~ In SP m -> ~ In SP t -> split SP 2 (m ++ SP :: t) = [m; t].
Proof.
  intros Hm Ht. cbn [split]. rewrite partition_first by exact Hm.
  rewrite partition_absent by exact Ht. reflexivity.
Qed.

Lemma start_line_assoc (m t v : str) :
  m ++ SP :: t ++ SP :: v ++ CRLF = (m ++ SP :: t ++ [SP]) ++ v ++ CRLF.
Proof. rewrite <- !app_assoc. cbn [app]. rewrite <- !app_assoc. reflexivity. Qed.

Lemma start_line_assoc' (m t v : str) :
  (m ++ SP :: t ++ [SP]) ++ v = m ++ SP :: t ++ SP :: v.
Proof. rewrite <- !app_assoc. cbn [app]. rewrite <- !app_assoc. reflexivity. Qed.

(** X7.  The start line is cut at its first two spaces.  A request line
    [method SP target SP version CRLF] gives back the three parts when
    method and target hold no space and the version is not empty and does not
    end in whitespace, and [keep_alive] is switched off exactly for the
    version [HTTP/1.0].  A status line gives version, integer code and reason
    phrase, and the phrase may hold spaces.  A status line without a reason
    phrase has only two parts and raises [ValueError]. *)
Theorem start_line_parts :
  (forall (h : RequestHeader) (m t v : str),
     ~ In SP m -> ~ In SP t -> v <> [] -> rstrip v = v ->
     RequestHeader_set_start_line h (m ++ SP :: t ++ SP :: v ++ CRLF) =
     Return {| RequestHeader_base :=
                 if str_eqb v (b "HTTP/1.0")
                 then set_keep_alive (RequestHeader_base h) false
                 else RequestHeader_base h;
               method := m; target_uri := t; RequestHeader_version := v |}) /\
  (forall (h : ResponseHeader) (v c ph : str) (n : Z),
     ~ In SP v -> ~ In SP c -> int c 10 = Some n ->
     ph <> [] -> rstrip ph = ph ->
     ResponseHeader_set_start_line h (v ++ SP :: c ++ SP :: ph ++ CRLF) =
     Return {| ResponseHeader_base :=
                 if str_eqb v (b "HTTP/1.0")
                 then set_keep_alive (ResponseHeader_base h) false
                 else ResponseHeader_base h;
               request := request h; ResponseHeader_version := Some v;
               code := Some n; phrase := Some ph |}) /\
  (forall (h : ResponseHeader) (v c : str),
     ~ In SP v -> ~ In SP c -> c <> [] -> rstrip c = c ->
     ResponseHeader_set_start_line h (v ++ SP :: c ++ CRLF) =
     Raise ValueError).
Proof.
  repeat split.
  - intros h m t v Hm Ht Hv Hr. unfold RequestHeader_set_start_line.
    rewrite start_line_assoc, rstrip_line, start_line_assoc' by assumption.
    rewrite split_three by assumption. reflexivity.
  - intros h v c ph n Hv Hc Hi Hp Hr. unfold ResponseHeader_set_start_line.
    rewrite start_line_assoc, rstrip_line, start_line_assoc' by assumption.
    rewrite split_three by assumption. rewrite Hi. reflexivity.
  - intros h v c Hv Hc Hne Hr. unfold ResponseHeader_set_start_line.
    replace (v ++ SP :: c ++ CRLF) with ((v ++ [SP]) ++ c ++ CRLF)
      by (rewrite <- app_assoc; reflexivity).
    rewrite rstrip_line by assumption.
    replace ((v ++ [SP]) ++ c) with (v ++ SP :: c)
      by (rewrite <- app_assoc; reflexivity).
    rewrite split_two by assumption. reflexivity.
Qed.

Lemma not_in_chars (c : ascii) (s : str) :
  forallb (fun d => negb (Ascii.eqb c d)) s = true -> ~ In c s.
Proof.
  induction s as [|d s IH]; cbn [forallb In]; [tauto|].
  rewrite andb_true_iff, negb_true_iff. intros [Hd Hs] [E|Hi].
  - subst d. rewrite Ascii.eqb_refl in Hd. discriminate.
  - apply IH; assumption.
Qed.

Lemma start_line_parts_witness :
  RequestHeader_set_start_line RequestHeader_init
    (b "GET" ++ SP :: b "/index.html" ++ SP :: b "HTTP/1.0" ++ CRLF) =
  Return {| RequestHeader_base := set_keep_alive HTTPHeader_init false;
            method := b "GET"; target_uri := b "/index.html";
            RequestHeader_version := b "HTTP/1.0" |} /\
  ResponseHeader_set_start_line (ResponseHeader_init RequestHeader_init)
    (b "HTTP/1.1" ++ SP :: b "404" ++ SP :: b "Not Found" ++ CRLF) =
  Return {| ResponseHeader_base := HTTPHeader_init;
            request := RequestHeader_init;
            ResponseHeader_version := Some (b "HTTP/1.1");
            code := Some 404; phrase := Some (b "Not Found") |} /\
  ResponseHeader_set_start_line (ResponseHeader_init RequestHeader_init)
    (b "HTTP/1.1" ++ SP :: b "200" ++ CRLF) = Raise ValueError.
Proof.
  destruct start_line_parts as (P1 & P2 & P3). split; [|split].
  - apply (P1 RequestHeader_init (b "GET") (b "/index.html") (b "HTTP/1.0"));
      try (apply not_in_chars; reflexivity); try discriminate; reflexivity.
  - apply (P2 (ResponseHeader_init RequestHeader_init) (b "HTTP/1.1")
              (b "404") (b "Not Found") 404);
      try (apply not_in_chars; reflexivity); try discriminate; reflexivity.
  - apply (P3 (ResponseHeader_init RequestHeader_init) (b "HTTP/1.1")
              (b "200"));
      try (apply not_in_chars; reflexivity); try discriminate; reflexivity.
Defined.

Lemma field_line_not_blank (name value : str) :
  str_eqb (name ++ ":"%char :: value) CRLF = false.
Proof.
  apply str_eqb_neq. intros E.
  assert (Hin : In ":"%char (name ++ ":"%char :: value))
    by (apply in_or_app; right; left; reflexivity).
  rewrite E in Hin. destruct Hin as [Hc|[Hc|[]]]; discriminate Hc.
Qed.

Lemma parse_field_first_colon (name value : str) :
  ~ In ":"%char name ->
  parse_field (name ++ ":"%char :: value) = Return (strip name, strip value).
Proof.
  intros Hn. unfold parse_field. cbn [split].
  rewrite partition_first by exact Hn. reflexivity.
Qed.

(** X8.  A field line is cut at its first colon: the name is what stands
    before it, the value is everything after it (further colons included),
    both without the whitespace around them, and the pair goes to the end of
    the list.  [add_header] and [add_trailer] do the same, each on its own
    list. *)
Theorem field_line_is_cut_at_first_colon (h : HTTPHeader) (name value : str) :
  ~ In ":"%char name ->
  is_continuation (name ++ ":"%char :: value) = false ->
  HTTPHeader_add_header h (name ++ ":"%char :: value) =
    Return (set_headers h (headers h ++ [(strip name, strip value)])) /\
  HTTPHeader_add_trailer h (name ++ ":"%char :: value) =
    Return (set_trailers h (trailers h ++ [(strip name, strip value)])).
Proof.
  intros Hn Hc. unfold HTTPHeader_add_header, HTTPHeader_add_trailer.
  rewrite Hc, field_line_not_blank, parse_field_first_colon by exact Hn.
  split; reflexivity.
Qed.

Lemma field_line_is_cut_at_first_colon_witness :
  HTTPHeader_add_header HTTPHeader_init
    (b "Host" ++ ":"%char :: b " example.com:8080" ++ CRLF) =
  Return (set_headers HTTPHeader_init [(b "Host", b "example.com:8080")]).
Proof.
  apply (field_line_is_cut_at_first_colon HTTPHeader_init (b "Host")
           (b " example.com:8080" ++ CRLF)).
  - apply not_in_chars. reflexivity.
  - reflexivity.
Defined.

(** X9.  The two lists and the framing are kept apart.  [add_trailer]
    changes nothing but [trailers]; [add_header] on any line but the blank
    line changes nothing but [headers], so mode, content length, encoding and
    [keep_alive] stay as they are until the blank line is read. *)
Theorem header_and_trailer_lists_are_separate (h h' : HTTPHeader) (line : str) :
  (HTTPHeader_add_trailer h line = Return h' ->
   h' = set_trailers h (trailers h')) /\
  (line <> CRLF -> HTTPHeader_add_header h line = Return h' ->
   h' = set_headers h (headers h')).
Proof.
  unfold HTTPHeader_add_trailer, HTTPHeader_add_header. split.
  - destruct (is_continuation line).
    + destruct (fold_line (trailers h) line); cbn [bind]; try discriminate.
      intros [= <-]. reflexivity.
    + destruct (str_eqb line CRLF).
      * intros [= <-]. destruct h; reflexivity.
      * destruct (parse_field line); cbn [bind]; try discriminate.
        intros [= <-]. reflexivity.
  - intros Hb. apply str_eqb_neq in Hb. rewrite Hb.
    destruct (is_continuation line).
    + destruct (fold_line (headers h) line); cbn [bind]; try discriminate.
      intros [= <-]. reflexivity.
    + destruct (parse_field line); cbn [bind]; try discriminate.
      intros [= <-]. reflexivity.
Qed.

Lemma header_and_trailer_lists_are_separate_witness :
  set_trailers HTTPHeader_init [(b "Expires", b "never")] =
  set_trailers HTTPHeader_init
    (trailers (set_trailers HTTPHeader_init [(b "Expires", b "never")])).
Proof.
  apply (proj1 (header_and_trailer_lists_are_separate HTTPHeader_init
                  (set_trailers HTTPHeader_init [(b "Expires", b "never")])
                  (b "Expires: never" ++ CRLF))).
  reflexivity.
Defined.

(** ** [keep_alive] *)

Lemma resolve_field_keep_alive (h h' : HTTPHeader) (nv : str * str) :
  is_connection_field nv = false ->
  resolve_field h nv = Return h' -> keep_alive h' = keep_alive h.
Proof.
  unfold is_connection_field, resolve_field. intros Hc. rewrite Hc.
  destruct (str_eqb (lower (fst nv)) (b "content-length")).
  - destruct (HTTPHeader_mode h);
      [destruct (int (lower (snd nv)) 10); [|discriminate]| |];
      cbn [bind];
      destruct (str_eqb (lower (fst nv)) (b "transfer-encoding"));
      destruct (contains (b "chunked") (lower (snd nv)));
      destruct (str_eqb (lower (fst nv)) (b "content-encoding"));
      intros [= <-]; reflexivity.
  - cbn [bind].
    destruct (str_eqb (lower (fst nv)) (b "transfer-encoding"));
      destruct (contains (b "chunked") (lower (snd nv)));
      destruct (str_eqb (lower (fst nv)) (b "content-encoding"));
      intros [= <-]; reflexivity.
Qed.

Lemma resolve_fields_keep_alive (l : list (str * str)) (h h' : HTTPHeader) :
  Forall (fun nv => is_connection_field nv = false) l ->
  resolve_fields h l = Return h' -> keep_alive h' = keep_alive h.
Proof.
  revert h. induction l as [|nv l IH]; intros h Hl; simpl.
  - intros [= <-]. reflexivity.
  - inversion Hl as [|? ? Hnv Hl']; subst.
    destruct (resolve_field h nv) as [h1| |] eqn:E1; cbn [bind];
      try discriminate.
    intros E. rewrite (IH h1 Hl' E).
    apply (resolve_field_keep_alive h h1 nv Hnv E1).
Qed.

(** A [Connection] field touches [keep_alive] only. *)
Lemma resolve_field_connection (h : HTTPHeader) (nv : str * str) :
  is_connection_field nv = true ->
  resolve_field h nv =
  Return (if contains (b "keep-alive") (lower (snd nv))
          then set_keep_alive h true
          else if contains (b "close") (lower (snd nv))
          then set_keep_alive h false
          else h).
Proof.
  unfold is_connection_field, resolve_field. intros Hc.
  apply str_eqb_eq in Hc. rewrite Hc. reflexivity.
Qed.

(** X10.  What the blank line makes of [keep_alive].  Without any
    [Connection] field the flag stays what the start line left it, unless the
    framing ends up ['close'], which switches it off.  When the last field is
    a [Connection] field, its value decides with the framing: [keep-alive] in
    the value (also beside [close]) keeps the connection exactly when the
    framing is not ['close'], and [close] alone switches the flag off. *)
Theorem keep_alive_after_blank_line (h h' : HTTPHeader) :
  HTTPHeader_add_header h CRLF = Return h' ->
  (Forall (fun nv => is_connection_field nv = false) (headers h) ->
   keep_alive h' =
   match HTTPHeader_mode h' with Mclose => false | _ => keep_alive h end) /\
  (forall l nv, headers h = l ++ [nv] -> is_connection_field nv = true ->
   (contains (b "keep-alive") (lower (snd nv)) = true ->
    keep_alive h' =
    match HTTPHeader_mode h' with Mclose => false | _ => true end) /\
   (contains (b "keep-alive") (lower (snd nv)) = false ->
    contains (b "close") (lower (snd nv)) = true ->
    keep_alive h' = false)).
Proof.
  rewrite add_header_blank. intros E. split.
  - intros Hl.
    destruct (resolve_fields h (headers h)) as [h1| |] eqn:E1;
      cbn [bind] in E; try discriminate.
    pose proof (resolve_fields_keep_alive _ _ _ Hl E1) as Hk.
    injection E as <-. destruct (HTTPHeader_mode h1) eqn:Hm; cbn;
      rewrite ?Hm; auto.
  - intros l nv Hh Hc. rewrite Hh, resolve_fields_app in E.
    destruct (resolve_fields h l) as [h1| |]; cbn [bind] in E;
      try discriminate.
    cbn [resolve_fields] in E. rewrite resolve_field_connection in E
      by exact Hc. cbn [bind] in E.
    split.
    + intros Hk. rewrite Hk in E. injection E as <-.
      unfold set_keep_alive. cbn [HTTPHeader_mode keep_alive].
      destruct (HTTPHeader_mode h1); reflexivity.
    + intros Hk Hcl. rewrite Hk, Hcl in E. injection E as <-.
      unfold set_keep_alive. cbn [HTTPHeader_mode keep_alive].
      destruct (HTTPHeader_mode h1); reflexivity.
Qed.

Lemma keep_alive_after_blank_line_witness :
  rmap keep_alive
    (HTTPHeader_add_header
       (set_headers (set_keep_alive HTTPHeader_init false)
          [(b "Content-Length", b "5")]) CRLF) = Return false /\
  rmap keep_alive
    (HTTPHeader_add_header
       (set_headers (set_keep_alive HTTPHeader_init false)
          [(b "Content-Length", b "5"); (b "Connection", b "Keep-Alive")])
       CRLF) = Return true.
Proof.
  split.
  - destruct (HTTPHeader_add_header _ CRLF) as [h'| |] eqn:E;
      try (vm_compute in E; discriminate E).
    cbn [rmap bind]. f_equal.
    rewrite (proj1 (keep_alive_after_blank_line _ h' E)).
    + vm_compute in E. injection E as <-. reflexivity.
    + apply Forall_cons; [reflexivity | apply Forall_nil].
  - destruct (HTTPHeader_add_header _ CRLF) as [h'| |] eqn:E;
      try (vm_compute in E; discriminate E).
    cbn [rmap bind]. f_equal.
    rewrite (proj1 (proj2 (keep_alive_after_blank_line _ h' E)
                      [(b "Content-Length", b "5")]
                      (b "Connection", b "Keep-Alive") eq_refl eq_refl)).
    + vm_compute in E. injection E as <-. reflexivity.
    + reflexivity.
Defined.

(** ** What [feed] keeps of the header *)

Section HeaderInvariant.

Context {H : Type} `{Header H}.

Variable Q : H -> Prop.
Hypothesis Q_base : forall h hb, Q h -> Q (set_base h hb).
Hypothesis Q_start :
  forall h line h', Q h -> set_start_line h line = Return h' -> Q h'.

Lemma add_header_inv (h h' : H) (line : str) :
  Q h -> add_header h line = Return h' -> Q h'.
Proof.
  unfold add_header. intros Hq.
  destruct (HTTPHeader_add_header (base h) line); cbn [bind];
    try discriminate.
  intros [= <-]. apply Q_base, Hq.
Qed.

Lemma add_trailer_inv (h h' : H) (line : str) :
  Q h -> add_trailer h line = Return h' -> Q h'.
Proof.
  unfold add_trailer. intros Hq.
  destruct (HTTPHeader_add_trailer (base h) line); cbn [bind];
    try discriminate.
  intros [= <-]. apply Q_base, Hq.
Qed.

Lemma feed_line_inv (p p1 : HTTPParser H) (text rest : str)
    (line : option str) :
  HTTPParser_feed_line p text = (line, rest, p1) ->
  header p1 = header p /\ HTTPParser_mode p1 = HTTPParser_mode p /\
  body_reader p1 = body_reader p /\ body_offset p1 = body_offset p.
Proof.
  intros E. pose proof (feed_line_header p text) as Hh. rewrite E in Hh.
  exact Hh.
Qed.

Lemma feed_length_inv (p : HTTPParser H) (text : str) (n : Z) :
  header (snd (HTTPParser_feed_length p text n)) = header p /\
  HTTPParser_mode (snd (HTTPParser_feed_length p text n)) = HTTPParser_mode p.
Proof. split; reflexivity. Qed.

Lemma feed_start_inv (p p' : HTTPParser H) (text rest : str) :
  Q (header p) -> HTTPParser_feed_start p text = Return (rest, p') ->
  Q (header p') /\ body_reader p' = body_reader p /\
  body_offset p' = body_offset p /\
  (HTTPParser_mode p' = Pheaders \/ HTTPParser_mode p' = HTTPParser_mode p).
Proof.
  intros Hq. unfold HTTPParser_feed_start.
  destruct (HTTPParser_feed_line p text) as [[line t1] p1] eqn:E1.
  destruct (feed_line_inv _ _ _ _ _ E1) as (Hh & Hm & Hr & Hb).
  rewrite <- Hh in Hq. destruct line as [l|].
  - destruct (str_eqb l CRLF); cbn [negb].
    + intros [= _ <-]. rewrite Hm. auto.
    + destruct (set_start_line (header p1) l) as [h| |] eqn:E2; cbn [bind];
        try discriminate.
      intros [= _ <-]. cbn. split; [eapply Q_start; eassumption | auto].
  - intros [= _ <-]. rewrite Hm. auto.
Qed.

Lemma feed_headers_loop_inv (fuel : nat) (p p' : HTTPParser H)
    (text rest : str) :
  Q (header p) -> feed_headers_loop fuel p text = Return (rest, p') ->
  Q (header p') /\ body_reader p' = body_reader p /\
  body_offset p' = body_offset p /\
  (HTTPParser_mode p' = Pbody \/ HTTPParser_mode p' = HTTPParser_mode p).
Proof.
  revert p text. induction fuel as [|fuel IH]; intros p text Hq E.
  - destruct text; simpl in E; [|discriminate]. injection E as _ <-. auto.
  - destruct text as [|c t]; cbn [feed_headers_loop] in E.
    + injection E as _ <-. auto.
    + destruct (HTTPParser_feed_line p (c :: t)) as [[line t1] p1] eqn:E1.
      destruct (feed_line_inv _ _ _ _ _ E1) as (Hh & Hm & Hr & Hb).
      rewrite <- Hh in Hq. destruct line as [l|].
      * destruct (add_header (header p1) l) as [h| |] eqn:E2;
          cbn [bind] in E; try discriminate.
        pose proof (add_header_inv _ _ _ Hq E2) as Hq2.
        destruct (str_eqb l CRLF).
        -- injection E as _ <-. cbn. rewrite <- Hr, <- Hb. auto.
        -- apply IH in E; [|exact Hq2]. cbn in E.
           rewrite Hr, Hb, Hm in E. exact E.
      * apply IH in E; [|exact Hq]. rewrite Hr, Hb, Hm in E. exact E.
Qed.

Lemma ChunkReader_on_start_frame (r r1 : ChunkReader) (p p1 : HTTPParser H)
    (text t1 : str) :
  ChunkReader_on_start r p text = Return (t1, r1, p1) ->
  header p1 = header p /\ HTTPParser_mode p1 = HTTPParser_mode p /\
  body_offset p1 = body_offset p.
Proof.
  unfold ChunkReader_on_start.
  destruct (ChunkReader_mode r); try (intros [= _ _ <-]; auto).
  destruct (HTTPParser_feed_line p text) as [[line t] q] eqn:E1.
  destruct (feed_line_inv _ _ _ _ _ E1) as (Hh & Hm & _ & Hb).
  destruct line as [l|]; [destruct (int _ 16); [|discriminate]|];
    intros [= _ _ <-]; auto.
Qed.

Lemma ChunkReader_on_chunk_frame (r r2 : ChunkReader) (p p2 : HTTPParser H)
    (text t2 : str) :
  ChunkReader_on_chunk r p text = (t2, r2, p2) ->
  header p2 = header p /\ HTTPParser_mode p2 = HTTPParser_mode p /\
  body_offset p2 = body_offset p.
Proof.
  unfold ChunkReader_on_chunk.
  destruct (ChunkReader_mode r); try (intros [= _ _ <-]; auto).
  destruct (nonempty text); [|intros [= _ _ <-]; auto].
  destruct (0 <? ChunkReader_remaining r).
  - unfold HTTPParser_feed_length.
    cbn [set_remaining ChunkReader_remaining].
    destruct (_ =? 0).
    + destruct (HTTPParser_feed_line _ _) as [[e t3] q3] eqn:E3.
      destruct (feed_line_inv _ _ _ _ _ E3) as (Hh & Hm & _ & Hb).
      intros [= _ _ <-]. rewrite Hh, Hm, Hb. cbn. auto.
    + intros [= _ _ <-]. cbn. auto.
  - cbn [set_remaining ChunkReader_remaining].
    destruct (_ =? 0).
    + destruct (HTTPParser_feed_line _ _) as [[e t3] q3] eqn:E3.
      destruct (feed_line_inv _ _ _ _ _ E3) as (Hh & Hm & _ & Hb).
      intros [= _ _ <-]. auto.
    + intros [= _ _ <-]. auto.
Qed.

Lemma ChunkReader_round_inv (r r' : ChunkReader) (p p' : HTTPParser H)
    (text rest : str) :
  Q (header p) -> ChunkReader_round r p text = Return (rest, r', p') ->
  Q (header p') /\ HTTPParser_mode p' = HTTPParser_mode p /\
  body_offset p' = body_offset p.
Proof.
  intros Hq. unfold ChunkReader_round.
  destruct (ChunkReader_on_start r p text) as [[[t1 r1] p1]| |] eqn:E1;
    cbn [bind]; try discriminate.
  destruct (ChunkReader_on_start_frame _ _ _ _ _ _ E1) as (A1 & A2 & A3).
  destruct (ChunkReader_on_chunk r1 p1 t1) as [[t2 r2] p2] eqn:E2.
  destruct (ChunkReader_on_chunk_frame _ _ _ _ _ _ E2) as (B1 & B2 & B3).
  unfold ChunkReader_on_trailer.
  assert (Hq2 : Q (header p2)) by (rewrite B1, A1; exact Hq).
  destruct (ChunkReader_mode r2);
    try (intros [= _ _ <-]; rewrite B2, B3, A2, A3; auto).
  destruct (nonempty t2);
    [|intros [= _ _ <-]; rewrite B2, B3, A2, A3; auto].
  destruct (HTTPParser_feed_line p2 t2) as [[line t3] p3] eqn:E3.
  destruct (feed_line_inv _ _ _ _ _ E3) as (Hh & Hm & _ & Hb).
  destruct line as [l|].
  - destruct (add_trailer (header p3) l) as [h| |] eqn:E4; cbn [bind];
      try discriminate.
    intros [= _ _ <-]. cbn. rewrite Hm, Hb, B2, B3, A2, A3.
    split; [|auto]. eapply add_trailer_inv; [|exact E4]. rewrite Hh.
    exact Hq2.
  - intros [= _ _ <-]. rewrite Hh, Hm, Hb, B2, B3, A2, A3. auto.
Qed.

Lemma ChunkReader_feed_loop_inv (fuel : nat) (r r' : ChunkReader)
    (p p' : HTTPParser H) (text rest : str) :
  Q (header p) ->
  ChunkReader_feed_loop fuel r p text = Return (rest, r', p') ->
  Q (header p') /\ body_offset p' = body_offset p /\
  (HTTPParser_mode p' = Pend \/ HTTPParser_mode p' = HTTPParser_mode p).
Proof.
  revert r p text. induction fuel as [|fuel IH]; intros r p text Hq E.
  - destruct text; simpl in E; [|discriminate]. injection E as _ _ <-. auto.
  - destruct text as [|c t]; cbn [ChunkReader_feed_loop] in E.
    + injection E as _ _ <-. auto.
    + destruct (ChunkReader_round r p (c :: t)) as [[[t3 r3] p3]| |] eqn:E1;
        cbn [bind] in E; try discriminate.
      destruct (ChunkReader_round_inv _ _ _ _ _ _ Hq E1) as (Hq3 & Hm & Hb).
      destruct (ChunkReader_mode r3);
        try (apply IH in E; [|exact Hq3]; rewrite Hm, Hb in E; exact E).
      injection E as _ _ <-. cbn. auto.
Qed.

(** Whatever holds of the header and is kept by [set_start_line] and by
    changes of the inherited fields holds after [feed]; the parser's own
    [body_reader] and [body_offset] are also told apart here. *)
Lemma feed_inv (p p' : HTTPParser H) (text rest : str) :
  Q (header p) -> HTTPParser_feed p text = Return (rest, p') ->
  Q (header p').
Proof.
  intros Hq. unfold HTTPParser_feed.
  assert (S1 : forall t1 p1, HTTPParser_on_start p text = Return (t1, p1) ->
                             Q (header p1)).
  { intros t1 p1. unfold HTTPParser_on_start.
    destruct (nonempty text && parser_mode_eqb (HTTPParser_mode p) Pstart).
    - intros E. apply (feed_start_inv _ _ _ _ Hq E).
    - intros [= _ <-]. exact Hq. }
  destruct (HTTPParser_on_start p text) as [[t1 p1]| |]; cbn [bind];
    try discriminate.
  specialize (S1 _ _ eq_refl).
  assert (S2 : forall t2 p2, HTTPParser_on_headers p1 t1 = Return (t2, p2) ->
                             Q (header p2)).
  { intros t2 p2. unfold HTTPParser_on_headers.
    destruct (nonempty t1 && parser_mode_eqb (HTTPParser_mode p1) Pheaders).
    - unfold HTTPParser_feed_headers.
      destruct (feed_headers_loop (length t1) p1 t1) as [[t p3]| |] eqn:E;
        cbn [bind]; try discriminate.
      intros [= _ <-]. apply (feed_headers_loop_inv _ _ _ _ _ S1) in E.
      destruct E as (Hq3 & _). unfold enter_body.
      destruct (HTTPParser_mode p3); try exact Hq3.
      destruct (negb (has_body (header p3))); [exact Hq3|].
      cbn. destruct (body_is_chunked (header p3)); [exact Hq3|].
      destruct (body_length (header p3)); exact Hq3.
    - intros [= _ <-]. exact S1. }
  destruct (HTTPParser_on_headers p1 t1) as [[t2 p2]| |]; cbn [bind];
    try discriminate.
  specialize (S2 _ _ eq_refl).
  unfold HTTPParser_on_body.
  destruct (nonempty t2 && parser_mode_eqb (HTTPParser_mode p2) Pbody);
    [|intros [= _ <-]; exact S2].
  destruct (body_reader p2) as [[r|r]|]; cbn [body_reader_feed].
  - unfold ChunkReader_feed.
    destruct (ChunkReader_feed_loop (length t2) r p2 t2)
      as [[[t3 r3] p3]| |] eqn:E; cbn [bind]; try discriminate.
    intros [= _ <-]. apply (ChunkReader_feed_loop_inv _ _ _ _ _ _ _ S2) in E.
    apply E.
  - unfold LengthReader_feed.
    destruct (0 <? LengthReader_remaining r).
    + cbn. destruct (_ <=? 0); intros [= _ <-]; exact S2.
    + destruct (_ <=? 0); intros [= _ <-]; exact S2.
  - intros [= _ <-]. exact S2.
Qed.

End HeaderInvariant.

Section ResponseInvariants.

Context `{Semantics}.

Lemma ResponseHeader_set_start_line_request (h h' : ResponseHeader)
    (line : str) :
  ResponseHeader_set_start_line h line = Return h' ->
  request h' = request h.
Proof.
  unfold ResponseHeader_set_start_line.
  destruct (split SP 2 (rstrip line)) as [|x [|y [|z [|w l]]]];
    try discriminate.
  destruct (int y 10); [|discriminate]. intros [= <-]. reflexivity.
Qed.

(** [feed] never changes which request a response header belongs to. *)
Lemma feed_keeps_request (p p' : HTTPParser ResponseHeader)
    (text rest : str) :
  HTTPParser_feed p text = Return (rest, p') ->
  request (header p') = request (header p).
Proof.
  apply (feed_inv (fun h => request h = request (header p))).
  - intros h hb E. exact E.
  - intros h line h' E E'.
    rewrite (ResponseHeader_set_start_line_request _ _ _ E'). exact E.
  - reflexivity.
Qed.

(** X11.  A response parser stays with its request.  After every [feed],
    also one that took an interim response away, the header refers to the
    request the parser was created with; [interim] is as before or has
    grown by one header at its end, a header with the code [Continue] that
    refers to the same request. *)
Theorem response_parser_keeps_its_request (rp rp' : ResponseParser)
    (text rest : str) :
  ResponseParser_feed rp text = Return (rest, rp') ->
  request (header (parser rp')) = request (header (parser rp)) /\
  (interim rp' = interim rp \/
   exists h, interim rp' = interim rp ++ [h] /\ is_Continue h = true /\
             request h = request (header (parser rp))).
Proof.
  unfold ResponseParser_feed.
  destruct (HTTPParser_feed (parser rp) text) as [[t1 p1]| |] eqn:E1;
    cbn [bind]; try discriminate.
  pose proof (feed_keeps_request _ _ _ _ E1) as R1.
  destruct (HTTPParser_complete p1 && is_Continue (header p1)) eqn:Hc.
  - apply andb_true_iff in Hc. destruct Hc as [_ Hc].
    match goal with
    | |- context [HTTPParser_feed ?q t1] =>
        destruct (HTTPParser_feed q t1) as [[t2 p2]| |] eqn:E2
    end; cbn [bind]; try discriminate.
    intros [= _ <-]. cbn [parser interim].
    pose proof (feed_keeps_request _ _ _ _ E2) as R2. cbn in R2.
    split; [congruence|]. right. exists (header p1). auto.
  - intros [= _ <-]. cbn [parser interim]. auto.
Qed.

Lemma has_body_no_body_method (h : ResponseHeader) :
  Methods_no_body (method (request h)) = true -> has_body h = false.
Proof. intros E. cbn. unfold ResponseHeader_has_body. rewrite E. reflexivity. Qed.

(** X12.  The response to a request whose method never has a response
    body (as [Methods.no_body] says) gets no body: from mode ['start'] or
    ['headers'], whatever the header fields announce, [feed] never leaves the
    parser in mode ['body'], installs no body reader and sets no body
    offset. *)
Theorem no_body_method_never_reads_a_body (p p' : HTTPParser ResponseHeader)
    (text rest : str) :
  Methods_no_body (method (request (header p))) = true ->
  HTTPParser_mode p = Pstart \/ HTTPParser_mode p = Pheaders ->
  HTTPParser_feed p text = Return (rest, p') ->
  HTTPParser_mode p' <> Pbody /\ body_reader p' = body_reader p /\
  body_offset p' = body_offset p.
Proof.
  intros Hnb Hm. unfold HTTPParser_feed.
  set (Q := fun h : ResponseHeader =>
              Methods_no_body (method (request h)) = true).
  assert (Q_base : forall h hb, Q h -> Q (set_base h hb))
    by (intros h hb E; exact E).
  assert (Q_start : forall h line h', Q h ->
            set_start_line h line = Return h' -> Q h').
  { intros h line h' E E'. unfold Q.
    rewrite (ResponseHeader_set_start_line_request _ _ _ E'). exact E. }
  assert (S1 : forall t1 p1, HTTPParser_on_start p text = Return (t1, p1) ->
             Q (header p1) /\ body_reader p1 = body_reader p /\
             body_offset p1 = body_offset p /\
             (HTTPParser_mode p1 = Pstart \/ HTTPParser_mode p1 = Pheaders)).
  { intros t1 p1. unfold HTTPParser_on_start.
    destruct (nonempty text && parser_mode_eqb (HTTPParser_mode p) Pstart).
    - intros E.
      destruct (feed_start_inv Q Q_start _ _ _ _ Hnb E) as (A & B & C & D).
      repeat split; auto. destruct D as [D|D]; [auto | rewrite D; exact Hm].
    - intros [= _ <-]. auto. }
  destruct (HTTPParser_on_start p text) as [[t1 p1]| |]; cbn [bind];
    try discriminate.
  destruct (S1 _ _ eq_refl) as (Hq1 & Hr1 & Hb1 & Hm1). clear S1.
  assert (S2 : forall t2 p2, HTTPParser_on_headers p1 t1 = Return (t2, p2) ->
             body_reader p2 = body_reader p /\
             body_offset p2 = body_offset p /\
             HTTPParser_mode p2 <> Pbody).
  { intros t2 p2. unfold HTTPParser_on_headers.
    destruct (nonempty t1 && parser_mode_eqb (HTTPParser_mode p1) Pheaders)
      eqn:Hc.
    - apply andb_true_iff in Hc. destruct Hc as [_ Hc].
      assert (Hh : HTTPParser_mode p1 = Pheaders)
        by (destruct (HTTPParser_mode p1); try discriminate; reflexivity).
      unfold HTTPParser_feed_headers.
      destruct (feed_headers_loop (length t1) p1 t1) as [[t p3]| |] eqn:E;
        cbn [bind]; try discriminate.
      intros [= _ <-].
      destruct (feed_headers_loop_inv Q Q_base _ _ _ _ _ Hq1 E)
        as (Hq3 & Hr3 & Hb3 & Hm3).
      unfold enter_body. destruct Hm3 as [Hm3|Hm3]; rewrite Hm3.
      + rewrite (has_body_no_body_method _ Hq3). cbn.
        repeat split; try congruence.
      + rewrite Hh. rewrite Hm3, Hh. repeat split; congruence.
    - intros [= _ <-]. repeat split; try assumption.
      destruct Hm1 as [E|E]; rewrite E; discriminate. }
  destruct (HTTPParser_on_headers p1 t1) as [[t2 p2]| |]; cbn [bind];
    try discriminate.
  destruct (S2 _ _ eq_refl) as (Hr2 & Hb2 & Hm2).
  unfold HTTPParser_on_body.
  destruct (HTTPParser_mode p2) eqn:E2; try congruence;
    cbn [parser_mode_eqb]; rewrite andb_false_r;
    intros [= _ <-]; rewrite E2; repeat split; auto; discriminate.
Qed.

End ResponseInvariants.

Lemma response_parser_keeps_its_request_witness :
  exists rest rp',
    @ResponseParser_feed http_semantics
      (@ResponseParser_init StringIO_new get_request_header)
      (continue_response ++ ok_response) = Return (rest, rp') /\
    request (header (parser rp')) = get_request_header.
Proof.
  destruct (@ResponseParser_feed http_semantics
              (@ResponseParser_init StringIO_new get_request_header)
              (continue_response ++ ok_response)) as [[rest rp']| |] eqn:E;
    try (vm_compute in E; discriminate E).
  exists rest, rp'. split; [reflexivity|].
  apply (@response_parser_keeps_its_request http_semantics _ _ _ _ E).
Defined.

Lemma no_body_method_never_reads_a_body_witness :
  exists rest p',
    @HTTPParser_feed _ (@ResponseHeader_Header http_semantics)
      (HTTPParser_init StringIO_new (ResponseHeader_init head_request_header))
      ok_response = Return (rest, p') /\
    HTTPParser_mode p' <> Pbody /\ body_reader p' = None.
Proof.
  destruct (@HTTPParser_feed _ (@ResponseHeader_Header http_semantics)
              (HTTPParser_init StringIO_new
                 (ResponseHeader_init head_request_header))
              ok_response) as [[rest p']| |] eqn:E;
    try (vm_compute in E; discriminate E).
  exists rest, p'. split; [reflexivity|].
  destruct (@no_body_method_never_reads_a_body http_semantics
              (HTTPParser_init StringIO_new
                 (ResponseHeader_init head_request_header))
              p' ok_response rest eq_refl (or_introl eq_refl) E)
    as (A & B & _).
  split; [exact A | exact B].
Defined.

(** ** A length of zero *)

Section ZeroLength.

Context {H : Type} `{Header H}.

Lemma feed_ends_with_blank_line (p p3 : HTTPParser H) (text : str) :
  HTTPParser_mode p = Pheaders -> text <> [] ->
  HTTPParser_feed_headers p text = Return ([], p3) ->
  HTTPParser_feed p text = Return ([], enter_body p3).
Proof.
  intros Hm Hne E. destruct text as [|c t]; [congruence|].
  unfold HTTPParser_feed, HTTPParser_on_start, HTTPParser_on_headers,
    HTTPParser_on_body.
  rewrite Hm. cbn [nonempty andb parser_mode_eqb bind]. rewrite Hm, E.
  reflexivity.
Qed.

End ZeroLength.

(** X13.  A request whose header block announces a length of 0 (or less)
    is not complete when the blank line has been read: the request parser
    installs a length reader and stays in mode ['body'].  A [close] then
    reports ['incomplete'], and the next chunk that is not empty completes
    the message and comes back whole as leftover.  A response parser in the
    same place is complete at once. *)
Theorem length_zero_request_waits :
  (forall (p p3 : HTTPParser RequestHeader) (text : str) (n : Z),
     HTTPParser_mode p = Pheaders -> text <> [] ->
     HTTPParser_feed_headers p text = Return ([], p3) ->
     HTTPParser_mode p3 = Pbody ->
     HTTPHeader_mode (RequestHeader_base (header p3)) = Mlength ->
     content_length (RequestHeader_base (header p3)) = Some n -> n <= 0 ->
     exists q,
       HTTPParser_feed p text = Return ([], q) /\
       HTTPParser_complete q = false /\
       body_reader q = Some (Length (LengthReader_init n)) /\
       HTTPParser_mode (HTTPParser_close q) = Pincomplete /\
       forall more, more <> [] ->
         exists q', HTTPParser_feed q more = Return (more, q') /\
                    HTTPParser_complete q' = true) /\
  (forall (S : Semantics) (p p3 : HTTPParser ResponseHeader) (text : str)
          (n : Z),
     HTTPParser_mode p = Pheaders -> text <> [] ->
     HTTPParser_feed_headers p text = Return ([], p3) ->
     HTTPParser_mode p3 = Pbody ->
     HTTPHeader_mode (ResponseHeader_base (header p3)) = Mlength ->
     content_length (ResponseHeader_base (header p3)) = Some n -> n <= 0 ->
     exists q,
       HTTPParser_feed p text = Return ([], q) /\
       HTTPParser_complete q = true).
Proof.
  split.
  - intros p p3 text n Hm Hne E Hm3 Hf Hc Hn.
    exists (enter_body p3). split; [apply feed_ends_with_blank_line; auto|].
    assert (Eb : enter_body p3 =
                 set_body_reader
                   (set_body_offset p3 (Z.of_nat (offset p3)))
                   (Some (Length (LengthReader_init n)))).
    { unfold enter_body. rewrite Hm3. cbn [has_body RequestHeader_Header].
      unfold RequestHeader_has_body. rewrite Hf. cbn [negb].
      unfold body_is_chunked, body_length, HTTPHeader_body_is_chunked,
        HTTPHeader_body_length.
      cbn [header set_body_offset base RequestHeader_Header].
      rewrite Hf, Hc. reflexivity. }
    rewrite Eb. unfold HTTPParser_complete, HTTPParser_close.
    cbn [HTTPParser_mode body_reader set_body_reader set_body_offset].
    rewrite Hm3. cbn. repeat split.
    intros more Hmore. eexists. split.
    + apply (length_body_done _ (LengthReader_init n));
        [exact Hm3 | reflexivity | exact Hmore | exact Hn].
    + reflexivity.
  - intros S p p3 text n Hm Hne E Hm3 Hf Hc Hn.
    exists (enter_body p3). split; [apply feed_ends_with_blank_line; auto|].
    unfold enter_body. rewrite Hm3. cbn [has_body ResponseHeader_Header].
    unfold ResponseHeader_has_body. rewrite Hf, Hc.
    destruct (Z.ltb_spec 0 n); [lia|].
    destruct (Methods_no_body _); [reflexivity|].
    destruct (match code (header p3) with
              | Some c => Codes_no_body c
              | None => false
              end); reflexivity.
Qed.

Lemma length_zero_request_waits_witness :
  exists q,
    HTTPParser_feed after_request_line (b "Content-Length: 0" ++ CRLF ++ CRLF)
      = Return ([], q) /\
    HTTPParser_complete q = false /\
    HTTPParser_mode (HTTPParser_close q) = Pincomplete.
Proof.
  destruct (HTTPParser_feed_headers after_request_line
              (b "Content-Length: 0" ++ CRLF ++ CRLF)) as [[t p3]| |] eqn:E;
    try (vm_compute in E; discriminate E).
  assert (Ht : t = []) by (vm_compute in E; injection E as <- _; reflexivity).
  subst t.
  destruct (proj1 length_zero_request_waits after_request_line p3
              (b "Content-Length: 0" ++ CRLF ++ CRLF) 0 eq_refl
              ltac:(discriminate) E)
    as (q & E1 & E2 & _ & E3 & _).
  - vm_compute in E. injection E as <-. reflexivity.
  - vm_compute in E. injection E as <-. reflexivity.
  - vm_compute in E. injection E as <-. reflexivity.
  - lia.
  - exists q. auto.
Defined.

(** ** Chunked bodies *)

Lemma index_of_CRLF_prefix (sz rest : str) :
  ~ In CR sz -> index_of (sz ++ CRLF ++ rest) CRLF = Some (length sz).
Proof.
  unfold CRLF. induction sz as [|c sz IH]; intros Hn.
  - cbn [app index_of startswith]. rewrite !Ascii.eqb_refl.
    rewrite startswith_nil. reflexivity.
  - cbn [app index_of startswith] in *.
    destruct (Ascii.eqb_spec CR c) as [E|_];
      [exfalso; apply Hn; left; auto|].
    cbn [andb]. rewrite IH by (intros Hi; apply Hn; right; exact Hi).
    reflexivity.
Qed.

Section Chunks.

Context {H : Type} `{Header H}.

(** The first line of a text on a parser with nothing waiting. *)
Lemma feed_line_first (p : HTTPParser H) (sz rest : str) :
  at_end p -> pending p = [] -> ~ In CR sz -> ~ In LF sz ->
  HTTPParser_feed_line p (sz ++ CRLF ++ rest) =
  (Some (sz ++ CRLF), rest, take_line p (sz ++ CRLF)).
Proof.
  intros Ha Hp Hcr Hlf.
  pose proof (index_of_CRLF_prefix sz rest Hcr) as Hi.
  assert (Hf : firstn (length sz) (sz ++ CRLF ++ rest) = sz).
  { rewrite firstn_app, firstn_all, Nat.sub_diag. cbn [firstn].
    apply app_nil_r. }
  rewrite (feed_line_reassembles p _ _ Ha Hi);
    rewrite ?Hp, ?Hf; auto.
  cbn [app]. do 2 f_equal.
  rewrite skipn_app. rewrite skipn_all2 by lia.
  replace (length sz + 2 - length sz)%nat with 2%nat by lia. reflexivity.
Qed.

Lemma feed_line_blank (p : HTTPParser H) (rest : str) :
  at_end p -> pending p = [] ->
  HTTPParser_feed_line p (CRLF ++ rest) = (Some CRLF, rest, take_line p CRLF).
Proof.
  intros Ha Hp. apply (feed_line_first p [] rest Ha Hp); cbn; tauto.
Qed.

Lemma feed_length_at_end (p : HTTPParser H) (data rest : str) :
  at_end p ->
  HTTPParser_feed_length p (data ++ rest) (len data) =
  (0, rest, take_line p data).
Proof.
  intros Ha. unfold HTTPParser_feed_length.
  rewrite slice_to_app, slice_from_app, Z.sub_diag.
  rewrite write_append by exact Ha. reflexivity.
Qed.

Lemma take_line_twice (p : HTTPParser H) (x y : str) :
  take_line (take_line p x) y = take_line p (x ++ y).
Proof.
  unfold take_line, append_to_buffer, set_offset, set_buffer.
  cbn [buffer buf pos offset header body_offset HTTPParser_mode body_reader].
  rewrite <- !app_assoc. reflexivity.
Qed.

(** One chunk is taken whole, and the reader goes on with the next. *)
Lemma chunk_consumed (p : HTTPParser H) (k : Z) (c : str * str) (rest : str) :
  at_end p -> pending p = [] -> chunk_wf c ->
  ChunkReader_feed
    {| ChunkReader_mode := Cstart; ChunkReader_remaining := k |} p
    (chunk_bytes c ++ rest) =
  ChunkReader_feed
    {| ChunkReader_mode := Cstart; ChunkReader_remaining := 0 |}
    (take_line p (chunk_bytes c)) rest.
Proof.
  intros Ha Hp (Hcr & Hlf & Hd & Hi). destruct c as [sz data].
  cbn [fst snd] in *. unfold chunk_bytes. cbn [fst snd].
  replace ((sz ++ CRLF ++ data ++ CRLF) ++ rest)
    with (sz ++ CRLF ++ data ++ CRLF ++ rest)
    by (rewrite <- !app_assoc; reflexivity).
  assert (Hne : sz ++ CRLF ++ data ++ CRLF ++ rest <> [])
    by (destruct sz; discriminate).
  rewrite ChunkReader_feed_unfold by exact Hne.
  unfold ChunkReader_round, ChunkReader_on_start. cbn [ChunkReader_mode].
  rewrite feed_line_first by assumption. rewrite Hi. cbn [bind].
  pose proof (len_pos data Hd) as Hpos.
  destruct (Z.eqb_spec (len data) 0) as [|_]; [lia|].
  unfold ChunkReader_on_chunk.
  cbn [set_chunk_mode set_remaining ChunkReader_mode ChunkReader_remaining].
  assert (Hn1 : nonempty (data ++ CRLF ++ rest) = true)
    by (destruct data; [congruence | reflexivity]).
  rewrite Hn1. destruct (Z.ltb_spec 0 (len data)); [|lia].
  destruct (at_end_take_line p (sz ++ CRLF)) as (Ha1 & Hp1).
  rewrite feed_length_at_end by exact Ha1.
  cbn [set_remaining ChunkReader_remaining Z.eqb].
  destruct (at_end_take_line (take_line p (sz ++ CRLF)) data) as (Ha2 & Hp2).
  rewrite (feed_line_blank _ rest Ha2 Hp2).
  unfold ChunkReader_on_trailer, set_chunk_mode, set_remaining.
  cbn [truthy CRLF ChunkReader_mode ChunkReader_remaining bind].
  rewrite ChunkReader_feed_fuel.
  - rewrite !take_line_twice. rewrite <- !app_assoc. reflexivity.
  - rewrite !length_app. cbn [length CRLF]. lia.
Qed.

Lemma add_trailer_blank (h : H) :
  add_trailer h CRLF = Return (set_base h (base h)).
Proof. reflexivity. Qed.

(** The chunk of size 0 and the blank line end the body. *)
Lemma last_chunk_consumed (p : HTTPParser H) (k : Z) (z rest : str) :
  at_end p -> pending p = [] -> last_chunk_wf z ->
  ChunkReader_feed
    {| ChunkReader_mode := Cstart; ChunkReader_remaining := k |} p
    ((z ++ CRLF ++ CRLF) ++ rest) =
  Return (rest,
          {| ChunkReader_mode := Cend; ChunkReader_remaining := 0 |},
          set_parser_mode
            (set_header (take_line p (z ++ CRLF ++ CRLF))
               (set_base (header p) (base (header p))))
            Pend).
Proof.
  intros Ha Hp (Hcr & Hlf & Hi).
  replace ((z ++ CRLF ++ CRLF) ++ rest) with (z ++ CRLF ++ CRLF ++ rest)
    by (rewrite <- !app_assoc; reflexivity).
  assert (Hne : z ++ CRLF ++ CRLF ++ rest <> []) by (destruct z; discriminate).
  rewrite ChunkReader_feed_unfold by exact Hne.
  unfold ChunkReader_round, ChunkReader_on_start. cbn [ChunkReader_mode].
  rewrite feed_line_first by assumption. rewrite Hi. cbn [bind Z.eqb].
  unfold ChunkReader_on_chunk, ChunkReader_on_trailer.
  cbn [set_chunk_mode set_remaining ChunkReader_mode ChunkReader_remaining].
  change (nonempty (CRLF ++ rest)) with true. cbn iota.
  destruct (at_end_take_line p (z ++ CRLF)) as (Ha1 & Hp1).
  rewrite (feed_line_blank _ rest Ha1 Hp1).
  rewrite add_trailer_blank. cbn [bind].
  rewrite str_eqb_refl. unfold set_chunk_mode, set_remaining.
  cbn [ChunkReader_mode ChunkReader_remaining].
  rewrite take_line_twice, <- app_assoc. reflexivity.
Qed.

Lemma chunks_consumed (cs : list (str * str)) (p : HTTPParser H) (k : Z)
    (z rest : str) :
  at_end p -> pending p = [] -> Forall chunk_wf cs -> last_chunk_wf z ->
  ChunkReader_feed
    {| ChunkReader_mode := Cstart; ChunkReader_remaining := k |} p
    (chunked_body cs z ++ rest) =
  Return (rest,
          {| ChunkReader_mode := Cend; ChunkReader_remaining := 0 |},
          set_parser_mode
            (set_header (take_line p (chunked_body cs z))
               (set_base (header p) (base (header p))))
            Pend).
Proof.
  revert p k. induction cs as [|c cs IH]; intros p k Ha Hp Hcs Hz.
  - cbn [chunked_body map concat app].
    apply last_chunk_consumed; assumption.
  - inversion Hcs as [|? ? Hc Hcs']; subst.
    unfold chunked_body. cbn [map concat].
    rewrite <- !app_assoc. rewrite chunk_consumed by assumption.
    destruct (at_end_take_line p (chunk_bytes c)) as (Ha1 & Hp1).
    pose proof (IH (take_line p (chunk_bytes c)) 0 Ha1 Hp1 Hcs' Hz) as E.
    unfold chunked_body in E. rewrite <- !app_assoc in E. rewrite E.
    rewrite take_line_twice. rewrite <- ?app_assoc. reflexivity.
Qed.

(** X14.  A chunked body is read to its end.  A parser in mode ['body']
    with a new chunk reader, written at the end of its buffer with nothing
    waiting, is fed a body of any number of chunks (each a size line that
    reads as the number of its data bytes, the data, CRLF), the chunk of size
    0 and the blank line, followed by any [rest]: [feed] returns [rest] as
    leftover, the parser is complete, the chunk reader is in mode ['end'],
    and the buffer has grown by the bytes of the body as they came. *)
Theorem chunked_body_is_read_to_its_end (p : HTTPParser H)
    (cs : list (str * str)) (z rest : str) :
  HTTPParser_mode p = Pbody ->
  body_reader p = Some (Chunk ChunkReader_init) ->
  at_end p -> pending p = [] -> Forall chunk_wf cs -> last_chunk_wf z ->
  exists p',
    HTTPParser_feed p (chunked_body cs z ++ rest) = Return (rest, p') /\
    HTTPParser_complete p' = true /\
    body_reader p' =
      Some (Chunk {| ChunkReader_mode := Cend; ChunkReader_remaining := 0 |}) /\
    buf (buffer p') = buf (buffer p) ++ chunked_body cs z /\
    offset p' = length (buf (buffer p')) /\
    body_offset p' = body_offset p.
Proof.
  intros Hm Hr Ha Hp Hcs Hz.
  assert (Hne : chunked_body cs z ++ rest <> []).
  { unfold chunked_body. intros E. apply (f_equal (@length ascii)) in E.
    rewrite !length_app in E. cbn [length CRLF] in E. lia. }
  rewrite feed_in_body by assumption. rewrite Hr.
  unfold body_reader_feed, ChunkReader_init.
  rewrite chunks_consumed by assumption. cbn [bind].
  eexists. split; [reflexivity|]. cbn. repeat split.
Qed.

(** X15.  A chunk size that reads as a negative number stops [feed] for
    good.  When the size line of a chunk gives a negative [int] and bytes
    follow it in the chunk, the loop of [ChunkReader.feed] takes nothing more
    and never ends: no bound on its rounds lets it return.  The same holds
    for every later call with a text that is not empty. *)
Theorem negative_chunk_size_never_returns (fuel : nat) (r : ChunkReader)
    (p : HTTPParser H) (text : str) :
  text <> [] ->
  (ChunkReader_mode r = Cchunk -> ChunkReader_remaining r < 0 ->
   ChunkReader_feed_loop fuel r p text = Diverge) /\
  (forall line rest p1 n,
     ChunkReader_mode r = Cstart ->
     HTTPParser_feed_line p text = (Some line, rest, p1) ->
     int (hd [] (split ";"%char 1 line)) 16 = Some n -> n < 0 ->
     rest <> [] ->
     ChunkReader_feed_loop fuel r p text = Diverge).
Proof.
  intros Hne. split.
  - intros Hm Hr. apply ChunkReader_feed_loop_spin; assumption.
  - intros line rest p1 n Hm Hl Hi Hn Hrest.
    destruct text as [|c t]; [congruence|].
    destruct fuel as [|fuel]; [reflexivity|].
    cbn [ChunkReader_feed_loop].
    unfold ChunkReader_round, ChunkReader_on_start. rewrite Hm, Hl, Hi.
    cbn [bind]. destruct (Z.eqb_spec n 0); [lia|].
    unfold ChunkReader_on_chunk.
    cbn [set_chunk_mode set_remaining ChunkReader_mode ChunkReader_remaining].
    apply nonempty_true in Hrest as Hrest'. rewrite Hrest'.
    destruct (Z.ltb_spec 0 n); [lia|].
    cbn [set_remaining ChunkReader_remaining ChunkReader_mode].
    destruct (Z.eqb_spec n 0); [lia|].
    unfold ChunkReader_on_trailer. cbn [ChunkReader_mode bind].
    apply ChunkReader_feed_loop_spin; auto.
Qed.

End Chunks.

Lemma chunked_body_is_read_to_its_end_witness :
  let p := take_line
             (set_body_reader
                (set_parser_mode (RequestParser_init StringIO_new) Pbody)
                (Some (Chunk ChunkReader_init)))
             chunked_request_head in
  exists p',
    HTTPParser_feed p
      (chunked_body [(b "4", b "Wiki"); (b "5;ext=1", b "pedia")] (b "0")
       ++ b "GET") = Return (b "GET", p') /\
    HTTPParser_complete p' = true.
Proof.
  intros p.
  destruct (chunked_body_is_read_to_its_end p
              [(b "4", b "Wiki"); (b "5;ext=1", b "pedia")] (b "0") (b "GET"))
    as (p' & E & Hc & _); try reflexivity.
  - split; reflexivity.
  - apply Forall_cons; [|apply Forall_cons; [|apply Forall_nil]];
      (split; [apply not_in_chars; reflexivity|];
       split; [apply not_in_chars; reflexivity|];
       split; [discriminate | reflexivity]).
  - split; [apply not_in_chars; reflexivity|].
    split; [apply not_in_chars; reflexivity | reflexivity].
  - exists p'. split; assumption.
Defined.

Lemma negative_chunk_size_never_returns_witness :
  ChunkReader_feed_loop 1000 ChunkReader_init
    (set_parser_mode (RequestParser_init StringIO_new) Pbody)
    (b "-5" ++ CRLF ++ b "Wiki") = Diverge.
Proof.
  refine (proj2 (negative_chunk_size_never_returns 1000 ChunkReader_init
                   (set_parser_mode (RequestParser_init StringIO_new) Pbody)
                   (b "-5" ++ CRLF ++ b "Wiki") _)
            (b "-5" ++ CRLF) (b "Wiki") _ (-5) eq_refl eq_refl eq_refl _ _).
  - discriminate.
  - lia.
  - discriminate.
Defined.

(** ** Header blocks and whole requests *)

Lemma lstrip_app_nil (a c : str) :
  lstrip a = [] -> lstrip (a ++ c) = lstrip c.
Proof.
  induction a as [|x a IH]; cbn [lstrip app]; [reflexivity|].
  destruct (isspace x); [exact IH | discriminate].
Qed.

Lemma strip_CRLF (v : str) : strip (v ++ CRLF) = strip v.
Proof.
  unfold strip. destruct (lstrip v) as [|x l] eqn:E.
  - rewrite lstrip_app_nil by exact E. reflexivity.
  - rewrite lstrip_app by (rewrite E; discriminate).
    rewrite E. apply rstrip_CRLF.
Qed.

Lemma is_continuation_app (x y : str) :
  x <> [] -> is_continuation (x ++ y) = is_continuation x.
Proof.
  destruct x as [|c x]; [congruence|]. intros _.
  unfold is_continuation. cbn [app startswith]. rewrite !startswith_nil.
  reflexivity.
Qed.

Lemma add_header_field (hb : HTTPHeader) (nv : str * str) :
  field_wf nv ->
  HTTPHeader_add_header hb (field_bytes nv) =
  Return (set_headers hb (headers hb ++ [field_pair nv])).
Proof.
  intros (Hc & Hk & _). unfold field_bytes, field_pair.
  rewrite <- app_assoc. cbn [app].
  unfold HTTPHeader_add_header.
  replace (fst nv ++ ":"%char :: snd nv ++ CRLF)
    with ((fst nv ++ ":"%char :: snd nv) ++ CRLF)
    by (rewrite <- app_assoc; reflexivity).
  rewrite is_continuation_app by (destruct (fst nv); discriminate).
  rewrite Hk. rewrite <- app_assoc. cbn [app].
  rewrite field_line_not_blank, parse_field_first_colon by exact Hc.
  rewrite strip_CRLF. reflexivity.
Qed.

Section HeaderBlocks.

Context {H : Type} `{Header H}.

Lemma feed_headers_loop_fuel (fuel1 fuel2 : nat) (p : HTTPParser H)
    (text : str) :
  (length text <= fuel1)%nat -> (length text <= fuel2)%nat ->
  feed_headers_loop fuel1 p text = feed_headers_loop fuel2 p text.
Proof.
  revert fuel2 p text. induction fuel1 as [|fuel1 IH];
    intros fuel2 p text H1 H2.
  - destruct text; simpl in H1; [|lia]. destruct fuel2; reflexivity.
  - destruct text as [|c t]; [destruct fuel2; reflexivity|].
    destruct fuel2 as [|fuel2]; [simpl in H2; lia|].
    cbn [feed_headers_loop].
    pose proof (feed_line_shorter p (c :: t) ltac:(discriminate)) as Hs.
    simpl length in *.
    destruct (HTTPParser_feed_line p (c :: t)) as [[[l|] t1] p1];
      cbn [fst snd] in Hs.
    + destruct (add_header (header p1) l); cbn [bind]; try reflexivity.
      destruct (str_eqb l CRLF); [reflexivity|]. apply IH; lia.
    + apply IH; lia.
Qed.

(** One round of the loop of [feed_headers] when the text begins with a
    whole line. *)
Lemma feed_headers_line (p : HTTPParser H) (sz rest : str) :
  at_end p -> pending p = [] -> ~ In CR sz -> ~ In LF sz ->
  HTTPParser_feed_headers p (sz ++ CRLF ++ rest) =
  (h <- add_header (header p) (sz ++ CRLF) ;;
   if str_eqb (sz ++ CRLF) CRLF
   then Return (rest,
                set_parser_mode (set_header (take_line p (sz ++ CRLF)) h)
                  Pbody)
   else HTTPParser_feed_headers
          (set_header (take_line p (sz ++ CRLF)) h) rest).
Proof.
  intros Ha Hp Hcr Hlf. unfold HTTPParser_feed_headers.
  destruct (sz ++ CRLF ++ rest) as [|c t] eqn:E;
    [destruct sz; discriminate|].
  cbn [length feed_headers_loop]. rewrite <- E.
  rewrite feed_line_first by assumption.
  cbn [header take_line append_to_buffer set_offset set_buffer].
  destruct (add_header (header p) (sz ++ CRLF)); cbn [bind];
    try reflexivity.
  destruct (str_eqb (sz ++ CRLF) CRLF); [reflexivity|].
  apply feed_headers_loop_fuel; [|lia].
  apply (f_equal (@length ascii)) in E. rewrite !length_app in E.
  cbn [length CRLF] in E. simpl length in E. lia.
Qed.

Lemma at_end_set_header (p : HTTPParser H) (h : H) :
  at_end p -> pending p = [] ->
  at_end (set_header p h) /\ pending (set_header p h) = [].
Proof. intros Ha Hp. split; assumption. Qed.

Hypothesis Hlaw : lawful H.

Lemma add_header_field_class (h : H) (nv : str * str) :
  field_wf nv ->
  add_header h (field_bytes nv) =
  Return (set_base h (set_headers (base h)
                        (headers (base h) ++ [field_pair nv]))).
Proof.
  intros Hw. unfold add_header. rewrite add_header_field by exact Hw.
  reflexivity.
Qed.

Lemma field_bytes_not_blank (nv : str * str) :
  str_eqb (field_bytes nv) CRLF = false.
Proof.
  unfold field_bytes. rewrite <- app_assoc. cbn [app].
  apply field_line_not_blank.
Qed.

(** The field lines of a block, one after the other. *)
Lemma feed_header_fields (fs : list (str * str)) (p : HTTPParser H)
    (rest : str) :
  at_end p -> pending p = [] -> Forall field_wf fs ->
  HTTPParser_feed_headers p (concat (map field_bytes fs) ++ rest) =
  HTTPParser_feed_headers
    (set_header (take_line p (concat (map field_bytes fs)))
       (match fs with
        | [] => header p
        | _ => set_base (header p)
                 (set_headers (base (header p))
                    (headers (base (header p)) ++ map field_pair fs))
        end))
    rest.
Proof.
  destruct Hlaw as (L1 & L2).
  revert p. induction fs as [|nv fs IH]; intros p Ha Hp Hfs.
  - cbn [map concat app]. unfold take_line, append_to_buffer.
    rewrite app_nil_r. destruct Ha as [Hpos Hoff].
    unfold pending in Hp.
    assert (Ho : offset p = length (buf (buffer p))).
    { apply (f_equal (@length ascii)) in Hp. rewrite length_skipn in Hp.
      simpl in Hp. lia. }
    f_equal. destruct p as [[bf ps] o h bo m r]. cbn in *. subst.
    reflexivity.
  - inversion Hfs as [|? ? Hnv Hfs']; subst.
    cbn [map concat]. rewrite <- app_assoc.
    pose proof Hnv as (_ & _ & Hcr & Hlf).
    unfold field_bytes at 1. rewrite <- app_assoc.
    rewrite feed_headers_line by assumption.
    fold (field_bytes nv).
    replace ((fst nv ++ ":"%char :: snd nv) ++ CRLF) with (field_bytes nv)
      by reflexivity.
    rewrite add_header_field_class by exact Hnv. cbn [bind].
    rewrite field_bytes_not_blank.
    destruct (at_end_take_line p (field_bytes nv)) as (Ha1 & Hp1).
    rewrite IH; [|apply at_end_set_header; assumption
                 |apply at_end_set_header; assumption|exact Hfs'].
    f_equal.
    unfold take_line, append_to_buffer, set_header, set_offset, set_buffer.
    cbn [buffer buf pos offset header body_offset HTTPParser_mode
         body_reader].
    rewrite <- !app_assoc.
    destruct fs as [|nv' fs]; [cbn [map app]; reflexivity|].
    rewrite L1, L2. cbn [headers set_headers].
    rewrite <- app_assoc. reflexivity.
Qed.

(** The field lines and the blank line of a block. *)
Lemma feed_header_block (p : HTTPParser H)
    (fs : list (str * str)) (rest : str) :
  at_end p -> pending p = [] -> Forall field_wf fs ->
  HTTPParser_feed_headers p (header_block fs ++ rest) =
  (hb <- HTTPHeader_add_header
           (set_headers (base (header p))
              (headers (base (header p)) ++ map field_pair fs))
           CRLF ;;
   Return (rest,
           set_parser_mode
             (set_header (take_line p (header_block fs))
                (set_base (header p) hb))
             Pbody)).
Proof.
  intros Ha Hp Hfs. pose proof Hlaw as (L1 & L2).
  unfold header_block. rewrite <- app_assoc.
  rewrite feed_header_fields by assumption.
  destruct (at_end_take_line p (concat (map field_bytes fs))) as (Ha1 & Hp1).
  change (CRLF ++ rest) with ([] ++ CRLF ++ rest).
  rewrite feed_headers_line;
    [|apply at_end_set_header; assumption
     |apply at_end_set_header; assumption|cbn; tauto|cbn; tauto].
  cbn [app]. rewrite str_eqb_refl. unfold add_header.
  cbn [header set_header].
  assert (Eb : base (match fs with
                     | [] => header p
                     | _ :: _ =>
                         set_base (header p)
                           (set_headers (base (header p))
                              (headers (base (header p)) ++
                               map field_pair fs))
                     end) =
               set_headers (base (header p))
                 (headers (base (header p)) ++ map field_pair fs)).
  { destruct fs; [|apply L1]. cbn [map]. rewrite app_nil_r.
    destruct (base (header p)); reflexivity. }
  rewrite Eb.
  destruct (HTTPHeader_add_header _ CRLF) as [hb| |]; cbn [bind];
    try reflexivity.
  do 2 f_equal.
  unfold take_line, append_to_buffer, set_header, set_offset, set_buffer,
    set_parser_mode.
  cbn [buffer buf pos offset header body_offset HTTPParser_mode body_reader].
  rewrite <- !app_assoc.
  destruct fs; [reflexivity | rewrite L2; reflexivity].
Qed.

(** X16.  A header block is read field by field.  Fed to a parser whose
    buffer is written at its end with nothing waiting, the field lines and the
    blank line give a header whose list has grown by the fields in the order
    they came, each as the pair (name, value) without the whitespace around
    them; the blank line then runs the framing scan on that list, the mode is
    ['body'], the bytes are in the buffer and what follows the block is
    handed back. *)
Theorem header_block_is_read_in_order (p : HTTPParser H)
    (fs : list (str * str)) (rest : str) :
  at_end p -> pending p = [] -> Forall field_wf fs ->
  HTTPParser_feed_headers p (header_block fs ++ rest) =
  (hb <- HTTPHeader_add_header
           (set_headers (base (header p))
              (headers (base (header p)) ++ map field_pair fs))
           CRLF ;;
   Return (rest,
           set_parser_mode
             (set_header (take_line p (header_block fs))
                (set_base (header p) hb))
             Pbody)).
Proof. apply feed_header_block. Qed.

End HeaderBlocks.

Lemma RequestHeader_lawful : lawful RequestHeader.
Proof. split; intros; reflexivity. Qed.

Lemma ResponseHeader_lawful `{Semantics} : lawful ResponseHeader.
Proof. split; intros; reflexivity. Qed.

Lemma header_block_is_read_in_order_witness :
  let p := take_line
             (set_parser_mode (RequestParser_init StringIO_new) Pheaders)
             (b "GET /index.html HTTP/1.1" ++ CRLF) in
  rmap (fun '(text, q) =>
          (text, HTTPParser_mode q, headers (RequestHeader_base (header q))))
    (HTTPParser_feed_headers p
       (header_block [(b "Host", b " example.com:80"); (b "Accept", b " */*")]
        ++ b "rest")) =
  Return (b "rest", Pbody,
          [(b "Host", b "example.com:80"); (b "Accept", b "*/*")]).
Proof.
  intros p.
  rewrite (header_block_is_read_in_order RequestHeader_lawful p
             [(b "Host", b " example.com:80"); (b "Accept", b " */*")]
             (b "rest")).
  - reflexivity.
  - split; reflexivity.
  - reflexivity.
  - apply Forall_cons; [|apply Forall_cons; [|apply Forall_nil]];
      (split; [apply not_in_chars; reflexivity|];
       split; [reflexivity|];
       split; apply not_in_chars; reflexivity).
Defined.

(** ** A whole request *)

Lemma RequestHeader_set_start_line_ok (h : RequestHeader) (m t v : str) :
  ~ In SP m -> ~ In SP t -> v <> [] -> rstrip v = v ->
  RequestHeader_set_start_line h (m ++ SP :: t ++ SP :: v ++ CRLF) =
  Return {| RequestHeader_base :=
              if str_eqb v (b "HTTP/1.0")
              then set_keep_alive (RequestHeader_base h) false
              else RequestHeader_base h;
            method := m; target_uri := t; RequestHeader_version := v |}.
Proof.
  intros Hm Ht Hv Hr. unfold RequestHeader_set_start_line.
  rewrite start_line_assoc, rstrip_line, start_line_assoc' by assumption.
  rewrite split_three by assumption. reflexivity.
Qed.

(** The scan reads the fields and leaves the two lists alone. *)
Lemma resolve_field_lists (h h' : HTTPHeader) (nv : str * str) :
  resolve_field h nv = Return h' ->
  headers h' = headers h /\ trailers h' = trailers h.
Proof.
  unfold resolve_field.
  destruct (str_eqb (lower (fst nv)) (b "content-length"));
    [destruct (HTTPHeader_mode h);
       [destruct (int (lower (snd nv)) 10); [|discriminate]| |]|];
    cbn [bind];
    destruct (str_eqb (lower (fst nv)) (b "transfer-encoding"));
    destruct (contains (b "chunked") (lower (snd nv)));
    destruct (str_eqb (lower (fst nv)) (b "content-encoding"));
    destruct (str_eqb (lower (fst nv)) (b "connection"));
    destruct (contains (b "keep-alive") (lower (snd nv)));
    destruct (contains (b "close") (lower (snd nv)));
    intros [= <-]; split; reflexivity.
Qed.

Lemma resolve_fields_lists (l : list (str * str)) (h h' : HTTPHeader) :
  resolve_fields h l = Return h' ->
  headers h' = headers h /\ trailers h' = trailers h.
Proof.
  revert h. induction l as [|nv l IH]; intros h; simpl.
  - intros [= <-]. auto.
  - destruct (resolve_field h nv) as [h1| |] eqn:E1; cbn [bind];
      try discriminate.
    intros E. apply IH in E. apply resolve_field_lists in E1.
    destruct E, E1. split; congruence.
Qed.

(** X17.  A request without a body is read in one call, and what follows
    it is handed back.  A new request parser on an empty buffer is fed a
    request line, field lines none of which is a [Content-Length] or a chunked
    [Transfer-Encoding], the blank line, and then any [rest] (the start of
    the next request on the connection): [feed] returns [rest] untouched, the
    parser is complete, method, target and version are the three parts of the
    request line, the header list holds the fields in their order,
    [keep_alive] is false, and the buffer holds the bytes of the request. *)
Theorem request_without_body_is_read_whole (m t v : str)
    (fs : list (str * str)) (rest : str) :
  request_line_wf m t v -> Forall field_wf fs -> Forall no_body_field fs ->
  exists p',
    HTTPParser_feed (RequestParser_init StringIO_new)
      (request_bytes m t v fs ++ rest) = Return (rest, p') /\
    HTTPParser_complete p' = true /\
    method (header p') = m /\ target_uri (header p') = t /\
    RequestHeader_version (header p') = v /\
    headers (RequestHeader_base (header p')) = map field_pair fs /\
    keep_alive (RequestHeader_base (header p')) = false /\
    body_reader p' = None /\
    buf (buffer p') = request_bytes m t v fs.
Proof.
  intros (Hm & Ht & Hv & Hr & Hcr & Hlf) Hfs Hnb.
  set (sz := m ++ SP :: t ++ SP :: v).
  set (p0 := RequestParser_init StringIO_new).
  assert (Ha0 : at_end p0) by (split; simpl; lia).
  assert (Hp0 : pending p0 = []) by reflexivity.
  unfold request_bytes. fold sz. rewrite <- !app_assoc.
  assert (Hne : nonempty (sz ++ CRLF ++ header_block fs ++ rest) = true).
  { apply nonempty_true. unfold sz. destruct m; discriminate. }
  unfold HTTPParser_feed, HTTPParser_on_start. rewrite Hne.
  cbn [HTTPParser_mode p0 RequestParser_init HTTPParser_init andb
       parser_mode_eqb].
  unfold HTTPParser_feed_start.
  fold (RequestParser_init StringIO_new). fold p0.
  rewrite (feed_line_first p0 sz _ Ha0 Hp0 Hcr Hlf).
  assert (Hnb' : str_eqb (sz ++ CRLF) CRLF = false).
  { apply str_eqb_neq. unfold sz. intros E.
    apply (f_equal (@length ascii)) in E. rewrite !length_app in E.
    cbn [length CRLF] in E. simpl length in E. rewrite length_app in E.
    simpl length in E. lia. }
  rewrite Hnb'. cbn [negb].
  cbn [header take_line append_to_buffer set_offset set_buffer
       set_start_line RequestHeader_Header].
  replace (sz ++ CRLF) with (m ++ SP :: t ++ SP :: v ++ CRLF)
    by (unfold sz; rewrite <- !app_assoc; cbn [app];
        rewrite <- !app_assoc; reflexivity).
  rewrite RequestHeader_set_start_line_ok by assumption. cbn [bind].
  replace (m ++ SP :: t ++ SP :: v ++ CRLF) with (sz ++ CRLF)
    by (unfold sz; rewrite <- !app_assoc; cbn [app];
        rewrite <- !app_assoc; reflexivity).
  fold (append_to_buffer p0 (sz ++ CRLF)).
  change (set_offset (append_to_buffer p0 (sz ++ CRLF))
            (length (buf (buffer p0) ++ sz ++ CRLF)))
    with (take_line p0 (sz ++ CRLF)).
  match goal with
  | |- context [set_parser_mode (set_header ?q ?h) Pheaders] =>
      set (h1 := h); set (p1 := set_parser_mode (set_header q h1) Pheaders)
  end.
  destruct (at_end_take_line p0 (sz ++ CRLF)) as (Ha1 & Hp1).
  assert (Ha1' : at_end p1) by exact Ha1.
  assert (Hp1' : pending p1 = []) by exact Hp1.
  unfold HTTPParser_on_headers.
  assert (Hne1 : nonempty (header_block fs ++ rest) = true).
  { apply nonempty_true. unfold header_block. intros E.
    apply (f_equal (@length ascii)) in E. rewrite !length_app in E.
    cbn [length CRLF] in E. lia. }
  rewrite Hne1. change (HTTPParser_mode p1) with Pheaders.
  cbn [andb parser_mode_eqb].
  rewrite (feed_header_block RequestHeader_lawful p1 fs rest Ha1' Hp1' Hfs).
  change (header p1) with h1.
  change (base h1)
    with (if str_eqb v (b "HTTP/1.0")
          then set_keep_alive (RequestHeader_base RequestHeader_init) false
          else RequestHeader_base RequestHeader_init).
  set (hb0 := if str_eqb v (b "HTTP/1.0")
              then set_keep_alive (RequestHeader_base RequestHeader_init) false
              else RequestHeader_base RequestHeader_init).
  assert (Hh0 : headers hb0 = [])
    by (unfold hb0; destruct (str_eqb v (b "HTTP/1.0")); reflexivity).
  assert (Hm0 : HTTPHeader_mode hb0 = Mclose)
    by (unfold hb0; destruct (str_eqb v (b "HTTP/1.0")); reflexivity).
  rewrite Hh0. cbn [app]. rewrite add_header_blank.
  cbn [headers set_headers].
  destruct (resolve_fields_no_signal (map field_pair fs)
              (set_headers hb0 (map field_pair fs)))
    as (hf & Ef & Hmf).
  { exact Hm0. }
  { clear - Hnb. induction Hnb as [|nv l Hx Hl IH]; cbn [map];
      constructor; auto. }
  rewrite Ef. cbn [bind]. rewrite Hmf. cbn [bind].
  destruct (resolve_fields_lists _ _ _ Ef) as (Hhl & _).
  cbn [headers set_headers] in Hhl.
  unfold enter_body.
  cbn [HTTPParser_mode set_parser_mode header set_header has_body
       RequestHeader_Header set_base].
  unfold RequestHeader_has_body.
  cbn [RequestHeader_base HTTPHeader_mode set_keep_alive]. rewrite Hmf.
  cbn [negb]. unfold HTTPParser_on_body.
  cbn [HTTPParser_mode set_parser_mode parser_mode_eqb].
  rewrite andb_false_r.
  eexists. split; [reflexivity|].
  cbn. rewrite Hhl. rewrite <- !app_assoc. repeat split.
Qed.

Lemma request_without_body_is_read_whole_witness :
  exists p',
    HTTPParser_feed (RequestParser_init StringIO_new)
      (request_bytes (b "GET") (b "/index.html") (b "HTTP/1.1")
         [(b "Host", b " example.com")] ++ b "GET /next") =
    Return (b "GET /next", p') /\
    HTTPParser_complete p' = true /\
    headers (RequestHeader_base (header p')) = [(b "Host", b "example.com")].
Proof.
  destruct (request_without_body_is_read_whole (b "GET") (b "/index.html")
              (b "HTTP/1.1") [(b "Host", b " example.com")] (b "GET /next"))
    as (p' & E & Hc & _ & _ & _ & Hh & _).
  - repeat split; try (apply not_in_chars; reflexivity); discriminate.
  - apply Forall_cons; [|apply Forall_nil].
    split; [apply not_in_chars; reflexivity|].
    split; [reflexivity|]. split; apply not_in_chars; reflexivity.
  - apply Forall_cons; [|apply Forall_nil]. split; reflexivity.
  - exists p'. split; [exact E|]. split; [exact Hc | exact Hh].
Defined.

(** ** Trailer fields *)

Lemma add_trailer_field (hb : HTTPHeader) (nv : str * str) :
  field_wf nv ->
  HTTPHeader_add_trailer hb (field_bytes nv) =
  Return (set_trailers hb (trailers hb ++ [field_pair nv])).
Proof.
  intros (Hc & Hk & _). unfold field_bytes, field_pair.
  unfold HTTPHeader_add_trailer.
  rewrite is_continuation_app by (destruct (fst nv); discriminate).
  rewrite Hk. rewrite <- app_assoc. cbn [app].
  rewrite field_line_not_blank, parse_field_first_colon by exact Hc.
  rewrite strip_CRLF. reflexivity.
Qed.

Section Trailers.

Context {H : Type} `{Header H}.

Hypothesis Hlaw : lawful H.

(** A trailer line is taken in one round of the reader's loop. *)
Lemma trailer_line_consumed (p : HTTPParser H) (k : Z) (nv : str * str)
    (rest : str) :
  at_end p -> pending p = [] -> field_wf nv ->
  ChunkReader_feed
    {| ChunkReader_mode := Ctrailer; ChunkReader_remaining := k |} p
    (field_bytes nv ++ rest) =
  ChunkReader_feed
    {| ChunkReader_mode := Ctrailer; ChunkReader_remaining := k |}
    (set_header (take_line p (field_bytes nv))
       (set_base (header p)
          (set_trailers (base (header p))
             (trailers (base (header p)) ++ [field_pair nv]))))
    rest.
Proof.
  intros Ha Hp Hw. pose proof Hw as (_ & _ & Hcr & Hlf).
  assert (Hne : field_bytes nv ++ rest <> []).
  { unfold field_bytes. destruct (fst nv); discriminate. }
  rewrite ChunkReader_feed_unfold by exact Hne.
  unfold ChunkReader_round, ChunkReader_on_start, ChunkReader_on_chunk,
    ChunkReader_on_trailer.
  cbn [ChunkReader_mode bind]. apply nonempty_true in Hne as Hne'.
  rewrite Hne'. unfold field_bytes at 1. rewrite <- app_assoc.
  rewrite feed_line_first by assumption.
  fold (field_bytes nv).
  replace ((fst nv ++ ":"%char :: snd nv) ++ CRLF) with (field_bytes nv)
    by reflexivity.
  unfold add_trailer.
  cbn [header take_line append_to_buffer set_offset set_buffer].
  rewrite add_trailer_field by exact Hw. cbn [bind].
  rewrite field_bytes_not_blank. cbn [ChunkReader_mode].
  rewrite ChunkReader_feed_fuel; [reflexivity|].
  rewrite length_app. unfold field_bytes. rewrite !length_app.
  cbn [length CRLF]. lia.
Qed.

Lemma trailer_lines_consumed (ts : list (str * str)) (p : HTTPParser H)
    (k : Z) (rest : str) :
  at_end p -> pending p = [] -> Forall field_wf ts ->
  ChunkReader_feed
    {| ChunkReader_mode := Ctrailer; ChunkReader_remaining := k |} p
    (concat (map field_bytes ts) ++ rest) =
  ChunkReader_feed
    {| ChunkReader_mode := Ctrailer; ChunkReader_remaining := k |}
    (set_header (take_line p (concat (map field_bytes ts)))
       (match ts with
        | [] => header p
        | _ => set_base (header p)
                 (set_trailers (base (header p))
                    (trailers (base (header p)) ++ map field_pair ts))
        end))
    rest.
Proof.
  destruct Hlaw as (L1 & L2).
  revert p. induction ts as [|nv ts IH]; intros p Ha Hp Hts.
  - cbn [map concat app]. unfold take_line, append_to_buffer.
    rewrite app_nil_r. destruct Ha as [Hpos Hoff].
    unfold pending in Hp.
    assert (Ho : offset p = length (buf (buffer p))).
    { apply (f_equal (@length ascii)) in Hp. rewrite length_skipn in Hp.
      simpl in Hp. lia. }
    f_equal. destruct p as [[bf ps] o h bo m r]. cbn in *. subst.
    reflexivity.
  - inversion Hts as [|? ? Hnv Hts']; subst.
    cbn [map concat]. rewrite <- app_assoc.
    rewrite trailer_line_consumed by assumption.
    destruct (at_end_take_line p (field_bytes nv)) as (Ha1 & Hp1).
    rewrite IH; [|apply at_end_set_header; assumption
                 |apply at_end_set_header; assumption|exact Hts'].
    f_equal.
    unfold take_line, append_to_buffer, set_header, set_offset, set_buffer.
    cbn [buffer buf pos offset header body_offset HTTPParser_mode
         body_reader].
    rewrite <- !app_assoc.
    destruct ts as [|nv' ts]; [cbn [map app]; reflexivity|].
    rewrite L1, L2. cbn [trailers set_trailers].
    rewrite <- app_assoc. reflexivity.
Qed.

Lemma trailer_blank_consumed (p : HTTPParser H) (k : Z) (rest : str) :
  at_end p -> pending p = [] ->
  ChunkReader_feed
    {| ChunkReader_mode := Ctrailer; ChunkReader_remaining := k |} p
    (CRLF ++ rest) =
  Return (rest,
          {| ChunkReader_mode := Cend; ChunkReader_remaining := k |},
          set_parser_mode
            (set_header (take_line p CRLF)
               (set_base (header p) (base (header p))))
            Pend).
Proof.
  intros Ha Hp.
  rewrite ChunkReader_feed_unfold by discriminate.
  unfold ChunkReader_round, ChunkReader_on_start, ChunkReader_on_chunk,
    ChunkReader_on_trailer.
  cbn [ChunkReader_mode bind]. change (nonempty (CRLF ++ rest)) with true.
  cbn iota. rewrite feed_line_blank by assumption.
  rewrite add_trailer_blank. cbn [bind]. rewrite str_eqb_refl.
  reflexivity.
Qed.

(** X18.  The trailer fields of a chunked body are collected like header
    fields, but apart from them.  A parser whose chunk reader has read the
    chunk of size 0 (mode ['trailer']) is fed trailer lines, the blank line
    and any [rest]: [feed] returns [rest], the parser is complete, and of the
    inherited header fields only [trailers] has changed: it has grown by the
    trailer fields in their order, while the header list, the framing and
    [keep_alive] are as the header block left them. *)
Theorem trailer_block_is_collected (p : HTTPParser H) (k : Z)
    (ts : list (str * str)) (rest : str) :
  HTTPParser_mode p = Pbody ->
  body_reader p =
    Some (Chunk {| ChunkReader_mode := Ctrailer;
                   ChunkReader_remaining := k |}) ->
  at_end p -> pending p = [] -> Forall field_wf ts ->
  exists p',
    HTTPParser_feed p (header_block ts ++ rest) = Return (rest, p') /\
    HTTPParser_complete p' = true /\
    base (header p') =
      set_trailers (base (header p))
        (trailers (base (header p)) ++ map field_pair ts) /\
    buf (buffer p') = buf (buffer p) ++ header_block ts.
Proof.
  intros Hm Hr Ha Hp Hts. pose proof Hlaw as (L1 & L2).
  assert (Hne : header_block ts ++ rest <> []).
  { unfold header_block. intros E. apply (f_equal (@length ascii)) in E.
    rewrite !length_app in E. cbn [length CRLF] in E. lia. }
  rewrite feed_in_body by assumption. rewrite Hr.
  unfold body_reader_feed, header_block. rewrite <- app_assoc.
  rewrite trailer_lines_consumed by assumption.
  destruct (at_end_take_line p (concat (map field_bytes ts))) as (Ha1 & Hp1).
  rewrite trailer_blank_consumed
    by (apply at_end_set_header; assumption).
  cbn [bind]. eexists. split; [reflexivity|].
  cbn [HTTPParser_complete HTTPParser_mode set_body_reader set_parser_mode
       parser_mode_eqb header set_header buffer take_line append_to_buffer
       set_offset set_buffer buf].
  unfold HTTPParser_complete. cbn. split; [reflexivity|].
  rewrite <- app_assoc. split; [|reflexivity].
  rewrite L1. destruct ts as [|nv ts].
  - cbn [map]. rewrite app_nil_r. destruct (base (header p)); reflexivity.
  - apply L1.
Qed.

End Trailers.

Lemma trailer_block_is_collected_witness :
  let p := take_line
             (set_body_reader
                (set_parser_mode (RequestParser_init StringIO_new) Pbody)
                (Some (Chunk {| ChunkReader_mode := Ctrailer;
                                ChunkReader_remaining := 0 |})))
             (chunked_request_head ++ b "0" ++ CRLF) in
  exists p',
    HTTPParser_feed p
      (header_block [(b "Expires", b " never"); (b "X-Sum", b " 1:2")]
       ++ b "GET") = Return (b "GET", p') /\
    HTTPParser_complete p' = true /\
    trailers (RequestHeader_base (header p')) =
      [(b "Expires", b "never"); (b "X-Sum", b "1:2")].
Proof.
  intros p.
  destruct (trailer_block_is_collected RequestHeader_lawful p 0
              [(b "Expires", b " never"); (b "X-Sum", b " 1:2")] (b "GET"))
    as (p' & E & Hc & Hb & _); try reflexivity.
  - split; reflexivity.
  - apply Forall_cons; [|apply Forall_cons; [|apply Forall_nil]];
      (split; [apply not_in_chars; reflexivity|];
       split; [reflexivity|];
       split; apply not_in_chars; reflexivity).
  - exists p'. split; [exact E|]. split; [exact Hc|].
    change (RequestHeader_base (header p')) with (base (header p')).
    rewrite Hb. reflexivity.
Defined.

(** * C5: malformed lines, wherever they stand in the chunk *)

(** ** What [int(.., 16)] rejects *)








(** ** A malformed line after lines that were accepted *)


Section MalformedLines.

Context {H : Type} `{Header H}.










End MalformedLines.



(** ** C5: the theorem *)



